(** * chainbro: [script.js], the parallax scheduler and the other features

    A shallow embedding of [initParallax] and of the closures it creates
    ([updateParallax], [requestTick], the debounced resize handler),
    together with the part of the host they talk to: the [data-depth]
    elements of the document, [window.scrollY] / [window.innerHeight],
    the animation-frame queue and the timer table.

    JavaScript numbers are IEEE 754 binary64 values.  They are modelled by
    the standard library's [spec_float] at precision 53 and maximal
    exponent 1024, whose operations round to nearest, ties to even, exactly
    as the language does.  Strings are sequences of code units below 256.

    The host is modelled as far as the script can observe it:
    - [window.scrollY] and [getBoundingClientRect().top] are numbers;
      [window.innerHeight] and [offsetHeight] are integers (WebIDL [long])
      and become numbers where the script reads them;
    - the box of an element is what layout last reported: a pass writes
      [style.transform] and does not move the box by itself, layout does
      (event [evLayout]);
    - animation-frame callbacks run in the order they were queued, at the
      next frame; a timer runs when its delay has elapsed, timers that are
      due together in the order they are due;
    - [console.log] is left out; the other initialisers of the file are
      embedded in [Site], over the page of the parallax component, which
      sees their writes to [style.transform] as writes of other code
      (event [evStyle]). *)

From Stdlib Require Import ZArith Zpower Lia List String Ascii Bool.
From Stdlib Require Import Floats.SpecFloat.
From Stdlib Require Import DecimalString.
From stdpp Require Import base option list.

Import ListNotations.
Local Open Scope Z_scope.

(* ===================================================================== *)
(** * Numbers                                                             *)
(* ===================================================================== *)

Module Number.

Definition prec : Z := 53.
Definition emax : Z := 1024.

Definition number : Type := spec_float.

Definition NaN : number := S754_nan.
Definition Infinity : number := S754_infinity false.

(** The number denoted by an integer literal such as [200] or [2]. *)
Definition ofZ (n : Z) : number := binary_normalize prec emax n 0 false.

(** [m * 2^e] rounded to binary64; [ofZ n = ofDyadic n 0]. *)
Definition ofDyadic (m e : Z) : number := binary_normalize prec emax m e false.

Definition add : number -> number -> number := SFadd prec emax.
Definition sub : number -> number -> number := SFsub prec emax.
Definition mul : number -> number -> number := SFmul prec emax.
Definition div : number -> number -> number := SFdiv prec emax.
Definition neg : number -> number := SFopp.

(** [x < y], [x > y] and [x === y] on numbers. *)
Definition lt (x y : number) : bool := SFltb x y.
Definition gt (x y : number) : bool := SFltb y x.
Definition eqb (x y : number) : bool := SFeqb x y.

(** ToBoolean on a number: [NaN], [+0] and [-0] are falsy. *)
Definition ToBoolean (x : number) : bool :=
  match x with
  | S754_nan | S754_zero _ => false
  | _ => true
  end.

(** [x || y] when [x] is a number. *)
Definition or_else (x y : number) : number :=
  if ToBoolean x then x else y.

Definition is_finite (x : number) : bool :=
  match x with
  | S754_zero _ | S754_finite _ _ _ => true
  | _ => false
  end.

Definition is_zero (x : number) : bool :=
  match x with
  | S754_zero _ => true
  | _ => false
  end.

Definition is_nan (x : number) : bool :=
  match x with
  | S754_nan => true
  | _ => false
  end.

(** A value of the binary64 format: canonical mantissa and exponent. *)
Definition valid (x : number) : bool := valid_binary prec emax x.

(** The exact decimal [mant * 10^e10], [mant >= 0], rounded once to the
    nearest binary64 value (ties to even); [sign] is kept on zero. *)
Definition ofDecimal (sign : bool) (mant e10 : Z) : number :=
  match mant with
  | Zpos p =>
      if 0 <=? e10
      then SFdiv prec emax (S754_finite sign (Z.to_pos (Zpos p * 10 ^ e10)) 0)
                           (S754_finite false 1 0)
      else SFdiv prec emax (S754_finite sign p 0)
                           (S754_finite false (Z.to_pos (10 ^ (- e10))) 0)
  | _ => S754_zero sign
  end.

(** Structural equality test (distinguishes [+0] from [-0]). *)
Definition same (x y : number) : bool :=
  match x, y with
  | S754_zero a, S754_zero b => Bool.eqb a b
  | S754_infinity a, S754_infinity b => Bool.eqb a b
  | S754_nan, S754_nan => true
  | S754_finite a m e, S754_finite b m' e' =>
      Bool.eqb a b && Pos.eqb m m' && Z.eqb e e'
  | _, _ => false
  end.

End Number.

Export Number.

(* ===================================================================== *)
(** * Strings: [parseFloat] and Number::toString                          *)
(* ===================================================================== *)

Module Text.

Definition code (c : ascii) : Z := Z.of_nat (nat_of_ascii c).

Definition isDigit (c : ascii) : bool := (48 <=? code c) && (code c <=? 57).

Definition digitVal (c : ascii) : Z := code c - 48.

(** WhiteSpace and LineTerminator code units below 256:
    TAB, LF, VT, FF, CR, SP and NBSP. *)
Definition isWhiteSpace (c : ascii) : bool :=
  ((9 <=? code c) && (code c <=? 13)) || (code c =? 32) || (code c =? 160).

Definition isExponentIndicator (c : ascii) : bool :=
  (code c =? 101) || (code c =? 69).

Definition isDot (c : ascii) : bool := code c =? 46.

(** TrimString(_, start). *)
Fixpoint skipWhiteSpace (l : list ascii) : list ascii :=
  match l with
  | c :: r => if isWhiteSpace c then skipWhiteSpace r else l
  | [] => []
  end.

(** The longest run of DecimalDigits at the front, and what follows. *)
Fixpoint takeDigits (l : list ascii) : list ascii * list ascii :=
  match l with
  | c :: r =>
      if isDigit c
      then let '(ds, rest) := takeDigits r in (c :: ds, rest)
      else ([], l)
  | [] => ([], [])
  end.

(** MV of DecimalDigits. *)
Definition digitsValue (ds : list ascii) : Z :=
  fold_left (fun acc c => 10 * acc + digitVal c) ds 0.

Definition scanSign (l : list ascii) : bool * list ascii :=
  match l with
  | c :: r =>
      if code c =? 45 then (true, r)
      else if code c =? 43 then (false, r)
      else (false, l)
  | [] => (false, [])
  end.

(** The value of the ExponentPart at the front of [l], 0 when there is
    none ([e] or [E], an optional sign, at least one digit). *)
Definition scanExponent (l : list ascii) : Z :=
  match l with
  | c :: r =>
      if isExponentIndicator c then
        let '(sg, r') := scanSign r in
        match fst (takeDigits r') with
        | [] => 0
        | ds => if sg then - digitsValue ds else digitsValue ds
        end
      else 0
  | [] => 0
  end.

Fixpoint prefixb (pat l : list ascii) : bool :=
  match pat, l with
  | [], _ => true
  | p :: pat', c :: l' => Ascii.eqb p c && prefixb pat' l'
  | _ :: _, [] => false
  end.

Definition Infinity_word : list ascii := list_ascii_of_string "Infinity".

(** The longest prefix of [l] that is a StrUnsignedDecimalLiteral, as its
    number value; [None] when no prefix is one. *)
Definition scanUnsigned (l : list ascii) : option number :=
  if prefixb Infinity_word l then Some Infinity
  else
    let '(ip, r1) := takeDigits l in
    match r1 with
    | c :: r2 =>
        if isDot c then
          let '(fp, r3) := takeDigits r2 in
          match ip ++ fp with
          | [] => None
          | ds => Some (ofDecimal false (digitsValue ds)
                          (scanExponent r3 - Z.of_nat (length fp)))
          end
        else
          match ip with
          | [] => None
          | _ => Some (ofDecimal false (digitsValue ip) (scanExponent r1))
          end
    | [] =>
        match ip with
        | [] => None
        | _ => Some (ofDecimal false (digitsValue ip) 0)
        end
    end.

Definition parseFloat_chars (l : list ascii) : number :=
  let '(sg, r) := scanSign (skipWhiteSpace l) in
  match scanUnsigned r with
  | Some v => if sg then neg v else v
  | None => NaN
  end.

(** [parseFloat(string)]. *)
Definition parseFloat (s : string) : number :=
  parseFloat_chars (list_ascii_of_string s).

(** ** Number::toString, radix 10 *)

Definition decimalString (n : Z) : string :=
  NilZero.string_of_uint (N.to_uint (Z.to_N n)).

Definition decimalLength (n : Z) : Z :=
  Z.of_nat (String.length (decimalString n)).

(** The exact value of a positive finite float as a fraction. *)
Definition fraction (m : positive) (e : Z) : Z * Z :=
  if 0 <=? e then (Zpos m * 2 ^ e, 1) else (Zpos m, 2 ^ (- e)).

(** [n] with [10^(n-1) <= P/Q < 10^n]. *)
Definition decimalExponent (P Q : Z) : Z :=
  let d := decimalLength P - decimalLength Q in
  if (if 0 <=? d then Q * 10 ^ d <=? P else Q <=? P * 10 ^ (- d))
  then d + 1 else d.

(** A candidate digit string [s] with [k] digits at decimal exponent [n]
    stands for [s * 10^(n-k)]. *)
Definition candidateFraction (s n k : Z) : Z * Z :=
  if 0 <=? n - k then (s * 10 ^ (n - k), 1) else (s, 10 ^ (k - n)).

(** Numerator of [|s * 10^(n-k) - P/Q|] over the denominator
    [snd (candidateFraction s n k) * Q]. *)
Definition distance (P Q s n k : Z) : Z * Z :=
  let '(vn, vd) := candidateFraction s n k in
  (Z.abs (vn * Q - P * vd), vd * Q).

Definition closer (P Q n k : Z) (a b : Z * Z) : bool :=
  let '(na, da) := distance P Q (fst a) (snd a) k in
  let '(nb, db) := distance P Q (fst b) (snd b) k in
  (na * db <? nb * da) || ((na * db =? nb * da) && Z.even (fst a)).

Definition roundTrips (x : number) (k : Z) (c : Z * Z) : bool :=
  (10 ^ (k - 1) <=? fst c) && (fst c <? 10 ^ k) &&
  same (ofDecimal false (fst c) (snd c - k)) x.

(** The candidates with [k] digits around [P/Q]: the two neighbours at
    exponent [n0], and the power of ten just above. *)
Definition candidates (P Q n0 k : Z) : list (Z * Z) :=
  let s := if 0 <=? n0 - k then P / (Q * 10 ^ (n0 - k))
           else (P * 10 ^ (k - n0)) / Q in
  [(s, n0); (s + 1, n0); (10 ^ (k - 1), n0 + 1)].

Definition best (P Q n0 k : Z) (cs : list (Z * Z)) : option (Z * Z) :=
  fold_left (fun acc c =>
               match acc with
               | None => Some c
               | Some a => if closer P Q n0 k c a then Some c else Some a
               end) cs None.

Fixpoint shortest (x : number) (P Q n0 : Z) (fuel : nat) (k : Z)
  : option (Z * Z * Z) :=
  match fuel with
  | O => None
  | S fuel' =>
      match best P Q n0 k (List.filter (fun c => roundTrips x k c)
                                  (candidates P Q n0 k)) with
      | Some (s, n) => Some (s, n, k)
      | None => shortest x P Q n0 fuel' (k + 1)
      end
  end.

(** [(s, n, k)] of Number::toString step 5 for a positive finite float;
    seventeen digits always suffice for a binary64 value. *)
Definition digitsOf (m : positive) (e : Z) : Z * Z * Z :=
  let '(P, Q) := fraction m e in
  let n0 := decimalExponent P Q in
  match shortest (S754_finite false m e) P Q n0 17 1 with
  | Some r => r
  | None => (fst (hd (0, 0) (candidates P Q n0 17)), n0, 17)
  end.

Definition zeros (n : Z) : string :=
  string_of_list_ascii (repeat "0"%char (Z.to_nat n)).

Definition formatDigits (s n k : Z) : string :=
  let ds := decimalString s in
  if (k <=? n) && (n <=? 21) then (ds ++ zeros (n - k))%string
  else if (0 <? n) && (n <=? 21) then
    (substring 0 (Z.to_nat n) ds ++ "." ++
     substring (Z.to_nat n) (Z.to_nat (k - n)) ds)%string
  else if (-6 <? n) && (n <=? 0) then ("0." ++ zeros (- n) ++ ds)%string
  else
    let e := n - 1 in
    let sg := if e <? 0 then "-"%string else "+"%string in
    let es := (sg ++ decimalString (Z.abs e))%string in
    if k =? 1 then (ds ++ "e" ++ es)%string
    else (substring 0 1 ds ++ "." ++ substring 1 (Z.to_nat (k - 1)) ds
          ++ "e" ++ es)%string.

(** Number::toString(x, 10). *)
Definition NumberToString (x : number) : string :=
  match x with
  | S754_nan => "NaN"%string
  | S754_zero _ => "0"%string
  | S754_infinity sg => if sg then "-Infinity"%string else "Infinity"%string
  | S754_finite sg m e =>
      let '(s, n, k) := digitsOf m e in
      ((if sg then "-" else EmptyString) ++ formatDigits s n k)%string
  end.

End Text.

Export Text.

(* ===================================================================== *)
(** * The document and the host                                           *)
(* ===================================================================== *)

Module Dom.

(** What the script reads and writes on an element.  The geometry is what
    layout reports at the moment of the call. *)
Record Element : Type := mkElement {
  data_depth : option string;    (* getAttribute('data-depth'), null when absent *)
  rect_top : number;             (* getBoundingClientRect().top *)
  offsetHeight : Z;              (* offsetHeight, an integer *)
  style_transform : string       (* style.transform *)
}.

Definition set_transform (t : string) (el : Element) : Element :=
  {| data_depth := data_depth el;
     rect_top := rect_top el;
     offsetHeight := offsetHeight el;
     style_transform := t |}.

Definition set_geometry (top : number) (height : Z) (el : Element) : Element :=
  {| data_depth := data_depth el;
     rect_top := top;
     offsetHeight := height;
     style_transform := style_transform el |}.

Definition set_depth (a : option string) (el : Element) : Element :=
  {| data_depth := a;
     rect_top := rect_top el;
     offsetHeight := offsetHeight el;
     style_transform := style_transform el |}.

(** Functions the script hands to the host. *)
Inductive Callback : Type :=
| cbInit               (* init, on DOMContentLoaded *)
| cbRequestTick        (* requestTick, on scroll *)
| cbResize             (* the anonymous resize listener *)
| cbUpdateParallax.    (* updateParallax, from a frame or a timer *)

Record Timer : Type := mkTimer {
  timer_id : nat;
  timer_due : Z;                 (* milliseconds *)
  timer_callback : Callback
}.

(** The page: window and document, the host's queues, the variables of the
    script, and two counters kept for the statements only
    ([matchMediaCalls], [passes]).  Nodes are referred to by their index
    in [document]. *)
Record State : Type := mkState {
  (* window and document *)
  reducedMotion : bool;          (* matchMedia('(prefers-reduced-motion: reduce)').matches *)
  readyStateLoading : bool;      (* document.readyState === 'loading' *)
  scrollY : number;              (* window.scrollY *)
  innerHeight : Z;               (* window.innerHeight, an integer *)
  document : list Element;
  (* host queues *)
  domContentLoadedListeners : list Callback;
  scrollListeners : list Callback;
  resizeListeners : list Callback;
  frameCallbacks : list Callback;
  timers : list Timer;
  nextTimerId : nat;
  now : Z;
  (* variables of the script *)
  prefersReducedMotion : bool;
  parallaxElements : list nat;
  ticking : bool;
  lastScrollY : number;
  resizeTimeout : option nat;
  (* observations *)
  matchMediaCalls : nat;
  passes : list Z                (* time of every pass, latest first *)
}.

Definition set_reducedMotion (b : bool) (st : State) : State :=
  mkState b (readyStateLoading st) (scrollY st) (innerHeight st) (document st)
    (domContentLoadedListeners st) (scrollListeners st) (resizeListeners st)
    (frameCallbacks st) (timers st) (nextTimerId st) (now st)
    (prefersReducedMotion st) (parallaxElements st) (ticking st)
    (lastScrollY st) (resizeTimeout st) (matchMediaCalls st) (passes st).

Definition set_readyStateLoading (b : bool) (st : State) : State :=
  mkState (reducedMotion st) b (scrollY st) (innerHeight st) (document st)
    (domContentLoadedListeners st) (scrollListeners st) (resizeListeners st)
    (frameCallbacks st) (timers st) (nextTimerId st) (now st)
    (prefersReducedMotion st) (parallaxElements st) (ticking st)
    (lastScrollY st) (resizeTimeout st) (matchMediaCalls st) (passes st).

Definition set_scrollY (y : number) (st : State) : State :=
  mkState (reducedMotion st) (readyStateLoading st) y (innerHeight st) (document st)
    (domContentLoadedListeners st) (scrollListeners st) (resizeListeners st)
    (frameCallbacks st) (timers st) (nextTimerId st) (now st)
    (prefersReducedMotion st) (parallaxElements st) (ticking st)
    (lastScrollY st) (resizeTimeout st) (matchMediaCalls st) (passes st).

Definition set_innerHeight (h : Z) (st : State) : State :=
  mkState (reducedMotion st) (readyStateLoading st) (scrollY st) h (document st)
    (domContentLoadedListeners st) (scrollListeners st) (resizeListeners st)
    (frameCallbacks st) (timers st) (nextTimerId st) (now st)
    (prefersReducedMotion st) (parallaxElements st) (ticking st)
    (lastScrollY st) (resizeTimeout st) (matchMediaCalls st) (passes st).

Definition set_document (d : list Element) (st : State) : State :=
  mkState (reducedMotion st) (readyStateLoading st) (scrollY st) (innerHeight st) d
    (domContentLoadedListeners st) (scrollListeners st) (resizeListeners st)
    (frameCallbacks st) (timers st) (nextTimerId st) (now st)
    (prefersReducedMotion st) (parallaxElements st) (ticking st)
    (lastScrollY st) (resizeTimeout st) (matchMediaCalls st) (passes st).

Definition set_domContentLoadedListeners (l : list Callback) (st : State) : State :=
  mkState (reducedMotion st) (readyStateLoading st) (scrollY st) (innerHeight st) (document st)
    l (scrollListeners st) (resizeListeners st)
    (frameCallbacks st) (timers st) (nextTimerId st) (now st)
    (prefersReducedMotion st) (parallaxElements st) (ticking st)
    (lastScrollY st) (resizeTimeout st) (matchMediaCalls st) (passes st).

Definition set_scrollListeners (l : list Callback) (st : State) : State :=
  mkState (reducedMotion st) (readyStateLoading st) (scrollY st) (innerHeight st) (document st)
    (domContentLoadedListeners st) l (resizeListeners st)
    (frameCallbacks st) (timers st) (nextTimerId st) (now st)
    (prefersReducedMotion st) (parallaxElements st) (ticking st)
    (lastScrollY st) (resizeTimeout st) (matchMediaCalls st) (passes st).

Definition set_resizeListeners (l : list Callback) (st : State) : State :=
  mkState (reducedMotion st) (readyStateLoading st) (scrollY st) (innerHeight st) (document st)
    (domContentLoadedListeners st) (scrollListeners st) l
    (frameCallbacks st) (timers st) (nextTimerId st) (now st)
    (prefersReducedMotion st) (parallaxElements st) (ticking st)
    (lastScrollY st) (resizeTimeout st) (matchMediaCalls st) (passes st).

Definition set_frameCallbacks (l : list Callback) (st : State) : State :=
  mkState (reducedMotion st) (readyStateLoading st) (scrollY st) (innerHeight st) (document st)
    (domContentLoadedListeners st) (scrollListeners st) (resizeListeners st)
    l (timers st) (nextTimerId st) (now st)
    (prefersReducedMotion st) (parallaxElements st) (ticking st)
    (lastScrollY st) (resizeTimeout st) (matchMediaCalls st) (passes st).

Definition set_timers (l : list Timer) (st : State) : State :=
  mkState (reducedMotion st) (readyStateLoading st) (scrollY st) (innerHeight st) (document st)
    (domContentLoadedListeners st) (scrollListeners st) (resizeListeners st)
    (frameCallbacks st) l (nextTimerId st) (now st)
    (prefersReducedMotion st) (parallaxElements st) (ticking st)
    (lastScrollY st) (resizeTimeout st) (matchMediaCalls st) (passes st).

Definition set_nextTimerId (n : nat) (st : State) : State :=
  mkState (reducedMotion st) (readyStateLoading st) (scrollY st) (innerHeight st) (document st)
    (domContentLoadedListeners st) (scrollListeners st) (resizeListeners st)
    (frameCallbacks st) (timers st) n (now st)
    (prefersReducedMotion st) (parallaxElements st) (ticking st)
    (lastScrollY st) (resizeTimeout st) (matchMediaCalls st) (passes st).

Definition set_now (t : Z) (st : State) : State :=
  mkState (reducedMotion st) (readyStateLoading st) (scrollY st) (innerHeight st) (document st)
    (domContentLoadedListeners st) (scrollListeners st) (resizeListeners st)
    (frameCallbacks st) (timers st) (nextTimerId st) t
    (prefersReducedMotion st) (parallaxElements st) (ticking st)
    (lastScrollY st) (resizeTimeout st) (matchMediaCalls st) (passes st).

Definition set_prefersReducedMotion (b : bool) (st : State) : State :=
  mkState (reducedMotion st) (readyStateLoading st) (scrollY st) (innerHeight st) (document st)
    (domContentLoadedListeners st) (scrollListeners st) (resizeListeners st)
    (frameCallbacks st) (timers st) (nextTimerId st) (now st)
    b (parallaxElements st) (ticking st)
    (lastScrollY st) (resizeTimeout st) (matchMediaCalls st) (passes st).

Definition set_parallaxElements (l : list nat) (st : State) : State :=
  mkState (reducedMotion st) (readyStateLoading st) (scrollY st) (innerHeight st) (document st)
    (domContentLoadedListeners st) (scrollListeners st) (resizeListeners st)
    (frameCallbacks st) (timers st) (nextTimerId st) (now st)
    (prefersReducedMotion st) l (ticking st)
    (lastScrollY st) (resizeTimeout st) (matchMediaCalls st) (passes st).

Definition set_ticking (b : bool) (st : State) : State :=
  mkState (reducedMotion st) (readyStateLoading st) (scrollY st) (innerHeight st) (document st)
    (domContentLoadedListeners st) (scrollListeners st) (resizeListeners st)
    (frameCallbacks st) (timers st) (nextTimerId st) (now st)
    (prefersReducedMotion st) (parallaxElements st) b
    (lastScrollY st) (resizeTimeout st) (matchMediaCalls st) (passes st).

Definition set_lastScrollY (y : number) (st : State) : State :=
  mkState (reducedMotion st) (readyStateLoading st) (scrollY st) (innerHeight st) (document st)
    (domContentLoadedListeners st) (scrollListeners st) (resizeListeners st)
    (frameCallbacks st) (timers st) (nextTimerId st) (now st)
    (prefersReducedMotion st) (parallaxElements st) (ticking st)
    y (resizeTimeout st) (matchMediaCalls st) (passes st).

Definition set_resizeTimeout (t : option nat) (st : State) : State :=
  mkState (reducedMotion st) (readyStateLoading st) (scrollY st) (innerHeight st) (document st)
    (domContentLoadedListeners st) (scrollListeners st) (resizeListeners st)
    (frameCallbacks st) (timers st) (nextTimerId st) (now st)
    (prefersReducedMotion st) (parallaxElements st) (ticking st)
    (lastScrollY st) t (matchMediaCalls st) (passes st).

Definition set_matchMediaCalls (n : nat) (st : State) : State :=
  mkState (reducedMotion st) (readyStateLoading st) (scrollY st) (innerHeight st) (document st)
    (domContentLoadedListeners st) (scrollListeners st) (resizeListeners st)
    (frameCallbacks st) (timers st) (nextTimerId st) (now st)
    (prefersReducedMotion st) (parallaxElements st) (ticking st)
    (lastScrollY st) (resizeTimeout st) n (passes st).

Definition set_passes (l : list Z) (st : State) : State :=
  mkState (reducedMotion st) (readyStateLoading st) (scrollY st) (innerHeight st) (document st)
    (domContentLoadedListeners st) (scrollListeners st) (resizeListeners st)
    (frameCallbacks st) (timers st) (nextTimerId st) (now st)
    (prefersReducedMotion st) (parallaxElements st) (ticking st)
    (lastScrollY st) (resizeTimeout st) (matchMediaCalls st) l.

(** ** Host primitives *)

(** [window.matchMedia('(prefers-reduced-motion: reduce)').matches]. *)
Definition matchMedia_matches (st : State) : bool * State :=
  (reducedMotion st, set_matchMediaCalls (S (matchMediaCalls st)) st).

(** [document.querySelectorAll('[data-depth]')]: a static list of the
    nodes that carry the attribute, in document order. *)
Fixpoint querySelectorAll_from (i : nat) (d : list Element) : list nat :=
  match d with
  | el :: d' =>
      match data_depth el with
      | Some _ => i :: querySelectorAll_from (S i) d'
      | None => querySelectorAll_from (S i) d'
      end
  | [] => []
  end.

Definition querySelectorAll_data_depth (st : State) : list nat :=
  querySelectorAll_from 0 (document st).

Definition requestAnimationFrame (cb : Callback) (st : State) : State :=
  set_frameCallbacks (frameCallbacks st ++ [cb]) st.

Definition setTimeout (cb : Callback) (delay : Z) (st : State) : nat * State :=
  let id := nextTimerId st in
  (id, set_nextTimerId (S id)
         (set_timers (timers st ++ [mkTimer id (now st + delay) cb]) st)).

(** [clearTimeout(t)]; [undefined] and handles of timers that already
    fired are ignored. *)
Definition clearTimeout (t : option nat) (st : State) : State :=
  match t with
  | Some id =>
      set_timers (List.filter (fun tm => negb (Nat.eqb (timer_id tm) id)) (timers st)) st
  | None => st
  end.

End Dom.

Export Dom.

(* ===================================================================== *)
(** * The script                                                          *)
(* ===================================================================== *)

Module Parallax.

(** [parseFloat(element.getAttribute('data-depth'))]; a missing attribute
    is [null], which [parseFloat] reads as the string "null". *)
Definition parseFloat_attribute (a : option string) : number :=
  match a with
  | Some s => parseFloat s
  | None => parseFloat "null"
  end.

(** [parseFloat(element.getAttribute('data-depth')) || 0]. *)
Definition depthOf (element : Element) : number :=
  or_else (parseFloat_attribute (data_depth element)) (ofZ 0).

(** [element.getBoundingClientRect().top + scrollY]. *)
Definition elementTopOf (scrollY : number) (element : Element) : number :=
  add (rect_top element) scrollY.

(** [elementTop < scrollY + windowHeight + 200 &&
     elementTop + elementHeight > scrollY - 200]. *)
Definition isInViewport (scrollY windowHeight elementTop elementHeight : number)
  : bool :=
  lt elementTop (add (add scrollY windowHeight) (ofZ 200)) &&
  gt (add elementTop elementHeight) (sub scrollY (ofZ 200)).

(** [(scrollY - elementTop + windowHeight / 2) * depth]. *)
Definition offsetOf (scrollY windowHeight elementTop depth : number) : number :=
  mul (add (sub scrollY elementTop) (div windowHeight (ofZ 2))) depth.

(** [`translate3d(0, ${offset}px, 0)`]. *)
Definition translate3d (offset : number) : string :=
  ("translate3d(0, " ++ NumberToString offset ++ "px, 0)")%string.

(** The visibility test of the loop body on one element. *)
Definition active (scrollY windowHeight : number) (element : Element) : bool :=
  isInViewport scrollY windowHeight
    (elementTopOf scrollY element) (ofZ (offsetHeight element)).


(** The body of the [forEach] arrow function. *)
Definition updateElement (scrollY windowHeight : number) (element : Element)
  : Element :=
  let depth := depthOf element in
  let elementTop := elementTopOf scrollY element in
  let elementHeight := ofZ (offsetHeight element) in
  if isInViewport scrollY windowHeight elementTop elementHeight then
    let offset := offsetOf scrollY windowHeight elementTop depth in
    set_transform (translate3d offset) element
  else element.

(** One iteration on the node [i] of the shared document. *)
Definition updateNode (scrollY windowHeight : number)
    (d : list Element) (i : nat) : list Element :=
  match d !! i with
  | Some element => <[i := updateElement scrollY windowHeight element]> d
  | None => d
  end.

(** [updateParallax]. *)
Definition updateParallax (st : State) : State :=
  let scrollY := scrollY st in
  let windowHeight := ofZ (innerHeight st) in
  let d := fold_left (updateNode scrollY windowHeight)
             (parallaxElements st) (document st) in
  set_ticking false (set_passes (now st :: passes st) (set_document d st)).

(** [requestTick]. *)
Definition requestTick (st : State) : State :=
  if negb (ticking st)
  then set_ticking true (requestAnimationFrame cbUpdateParallax st)
  else st.

(** The resize listener:
    [clearTimeout(resizeTimeout); resizeTimeout = setTimeout(updateParallax, 150)]. *)
Definition onResize (st : State) : State :=
  let st1 := clearTimeout (resizeTimeout st) st in
  let '(id, st2) := setTimeout cbUpdateParallax 150 st1 in
  set_resizeTimeout (Some id) st2.

(** [initParallax]. *)
Definition initParallax (st : State) : State :=
  if prefersReducedMotion st then st
  else
    let st := set_parallaxElements (querySelectorAll_data_depth st) st in
    if (length (parallaxElements st) =? 0)%nat then st
    else
      let st := set_ticking false st in
      let st := set_lastScrollY (scrollY st) st in
      let st := set_scrollListeners (scrollListeners st ++ [cbRequestTick]) st in
      let st := updateParallax st in
      let st := set_resizeTimeout None st in
      set_resizeListeners (resizeListeners st ++ [cbResize]) st.

(** [init]; the other initialisers do not touch the state kept here. *)
Definition init (st : State) : State := initParallax st.

(** The body of the script: the preference is read once, then [init] runs
    now or is left for DOMContentLoaded. *)
Definition script (st : State) : State :=
  let '(m, st) := matchMedia_matches st in
  let st := set_prefersReducedMotion m st in
  if readyStateLoading st
  then set_domContentLoadedListeners (domContentLoadedListeners st ++ [cbInit]) st
  else init st.

Definition call (cb : Callback) (st : State) : State :=
  match cb with
  | cbInit => init st
  | cbRequestTick => requestTick st
  | cbResize => onResize st
  | cbUpdateParallax => updateParallax st
  end.

(** ** The host's event loop *)

Inductive Event : Type :=
| evDOMContentLoaded
| evScroll (y : number)                       (* scrolled to y; 'scroll' fires *)
| evResize (h : Z)                            (* resized to height h; 'resize' fires *)
| evFrame                                     (* a display refresh *)
| evElapse (dt : Z)                           (* dt milliseconds pass *)
| evPreference (b : bool)                     (* the user toggles reduce-motion *)
| evLayout (i : nat) (top : number) (height : Z) (* layout moves node i *)
| evAttribute (i : nat) (a : option string)   (* data-depth of node i changes *)
| evStyle (i : nat) (t : string).             (* other code sets node i's transform *)

Definition dispatch (cbs : list Callback) (st : State) : State :=
  fold_left (fun s cb => call cb s) cbs st.

(** Timers that are due by [t], earliest first (creation order on ties). *)
Fixpoint insertTimer (tm : Timer) (l : list Timer) : list Timer :=
  match l with
  | x :: l' =>
      if timer_due tm <=? timer_due x then tm :: l
      else x :: insertTimer tm l'
  | [] => [tm]
  end.

Definition dueTimers (t : Z) (l : list Timer) : list Timer :=
  fold_right insertTimer []
    (List.filter (fun tm => timer_due tm <=? t) l).

Definition pending (id : nat) (st : State) : bool :=
  existsb (fun tm => Nat.eqb (timer_id tm) id) (timers st).

(** A due timer fires at its due time, unless it was cleared meanwhile. *)
Definition fire (st : State) (tm : Timer) : State :=
  if pending (timer_id tm) st then
    let st := clearTimeout (Some (timer_id tm)) st in
    let st := set_now (Z.max (now st) (timer_due tm)) st in
    call (timer_callback tm) st
  else st.

Definition elapse (dt : Z) (st : State) : State :=
  let t := now st + Z.max 0 dt in
  set_now t (fold_left fire (dueTimers t (timers st)) st).

(** What the rest of the world does to the document on an event. *)
Definition environment (ev : Event) (d : list Element) : list Element :=
  match ev with
  | evLayout i top height =>
      match d !! i with
      | Some el => <[i := set_geometry top height el]> d
      | None => d
      end
  | evAttribute i a =>
      match d !! i with
      | Some el => <[i := set_depth a el]> d
      | None => d
      end
  | evStyle i t =>
      match d !! i with
      | Some el => <[i := set_transform t el]> d
      | None => d
      end
  | _ => d
  end.

Definition step (st : State) (ev : Event) : State :=
  match ev with
  | evDOMContentLoaded =>
      if readyStateLoading st
      then dispatch (domContentLoadedListeners st) (set_readyStateLoading false st)
      else st
  | evScroll y => dispatch (scrollListeners st) (set_scrollY y st)
  | evResize h => dispatch (resizeListeners st) (set_innerHeight h st)
  | evFrame =>
      dispatch (frameCallbacks st) (set_frameCallbacks [] st)
  | evElapse dt => elapse dt st
  | evPreference b => set_reducedMotion b st
  | evLayout _ _ _ | evAttribute _ _ | evStyle _ _ =>
      set_document (environment ev (document st)) st
  end.

Definition run (evs : list Event) (st : State) : State :=
  fold_left step evs st.

(** The page before the script runs. *)
Definition fresh (reduced loading : bool) (y : number) (h : Z)
    (d : list Element)
  : State :=
  {| reducedMotion := reduced;
     readyStateLoading := loading;
     scrollY := y;
     innerHeight := h;
     document := d;
     domContentLoadedListeners := [];
     scrollListeners := [];
     resizeListeners := [];
     frameCallbacks := [];
     timers := [];
     nextTimerId := 1;
     now := 0;
     prefersReducedMotion := false;
     parallaxElements := [];
     ticking := false;
     lastScrollY := NaN;
     resizeTimeout := None;
     matchMediaCalls := 0;
     passes := [] |}.

(** The states a page can be in once the script has run. *)
Inductive reachable : State -> Prop :=
| reach_script reduced loading y h d :
    reachable (script (fresh reduced loading y h d))
| reach_step st ev :
    reachable st -> reachable (step st ev).

End Parallax.

Export Parallax.


(* ===================================================================== *)
(** * Vocabulary for the statements                                       *)
(* ===================================================================== *)

Module Rounding.

(** A shift record with nothing shifted out yet. *)
Definition exact (m : Z) : shr_record := Build_shr_record m false false.

(** What [binary_round_aux] does once the first shift is done. *)
Definition finish (sx : bool) (r : shr_record * Z) : spec_float :=
  let '(mrs', e') := r in
  let '(mrs'', e'') :=
    shr_fexp prec emax
      (round_nearest_even (shr_m mrs') (loc_of_shr_record mrs')) e' loc_Exact in
  match shr_m mrs'' with
  | Z0 => S754_zero sx
  | Zpos m =>
      if e'' <=? emax - prec then S754_finite sx m e'' else S754_infinity sx
  | _ => S754_nan
  end.

(** The exponent of the binary64 value nearest to [a * 2^e]. *)
Definition bexp (a e : Z) : Z := fexp prec emax (Zdigits2 a + e).

(** Doubling a finite number: the exponent goes up by one, to infinity
    past the largest one. *)
Definition scale2 (x : number) : number :=
  match x with
  | S754_finite s m e =>
      if e + 1 <=? emax - prec then S754_finite s m (e + 1) else S754_infinity s
  | _ => x
  end.

Definition two : number := ofZ 2.

(** The exact product of two finite numbers is at least [2^-1022] in
    magnitude, so that it is rounded to 53 bits. *)
Definition noUnderflow (x d : number) : bool :=
  match x, d with
  | S754_finite _ mx ex, S754_finite _ md ed =>
      -1021 <=? Zpos (digits2_pos (mx * md)) + (ex + ed)
  | _, _ => true
  end.

(** The order of magnitude of a number: a finite [m * 2^e] with a [d]-bit
    mantissa lies in [[2^(d+e-1), 2^(d+e))].  [within k x] says that [x] is
    a zero or finite with [d + e <= k], so that [|x| < 2^k]; [beyond k x]
    that [x] is finite with [k < d + e], so that [|x| >= 2^k]. *)
Definition within (k : Z) (x : number) : bool :=
  match x with
  | S754_zero _ => true
  | S754_finite _ m e => Zpos (digits2_pos m) + e <=? k
  | _ => false
  end.

Definition beyond (k : Z) (x : number) : bool :=
  match x with
  | S754_finite _ m e => k <? Zpos (digits2_pos m) + e
  | _ => false
  end.

End Rounding.

Export Rounding.

(** Characters none of which is a decimal digit. *)
Definition nonNumeric (r : list ascii) : Prop :=
  Forall (fun c => isDigit c = false) r.

(** ** Invariants of the scheduler *)

(** The shape of what the script has handed to the host. *)
Record registered (st : State) : Prop := {
  reg_scroll : scrollListeners st = [] \/ scrollListeners st = [cbRequestTick];
  reg_resize : resizeListeners st = [] \/ resizeListeners st = [cbResize];
  reg_dom : domContentLoadedListeners st = [] \/
            domContentLoadedListeners st = [cbInit];
  reg_frame : Forall (fun cb => cb = cbUpdateParallax) (frameCallbacks st);
  reg_timers : timers st = [] \/
               exists id due,
                 timers st = [mkTimer id due cbUpdateParallax] /\
                 resizeTimeout st = Some id /\ now st < due;
  reg_loading : readyStateLoading st = true ->
                scrollListeners st = [] /\ resizeListeners st = [] /\
                frameCallbacks st = [] /\ timers st = [] /\
                ticking st = false /\ passes st = [];
  reg_media : matchMediaCalls st = 1%nat
}.

(** Nothing of the parallax component is in place. *)
Definition unstarted (st : State) : Prop :=
  scrollListeners st = [] /\ resizeListeners st = [] /\
  frameCallbacks st = [] /\ timers st = [] /\
  ticking st = false /\ passes st = [].

(** The script found reduced motion at startup: nothing is registered. *)
Definition inert (st : State) : Prop :=
  prefersReducedMotion st = true /\
  scrollListeners st = [] /\ resizeListeners st = [] /\
  frameCallbacks st = [] /\ timers st = [] /\ passes st = [] /\
  (domContentLoadedListeners st = [] \/ domContentLoadedListeners st = [cbInit]).

(** The flag is set exactly while one pass is queued for the next frame. *)
Definition coalesced (st : State) : Prop :=
  frameCallbacks st = if ticking st then [cbUpdateParallax] else [].

(** The event does not fire a timer while a pass is queued. *)
Definition calm (st : State) (ev : Event) : Prop :=
  match ev with
  | evElapse dt =>
      ticking st = true ->
      dueTimers (now st + Z.max 0 dt) (timers st) = []
  | _ => True
  end.

(** The states reached when no event fires a timer while a pass is queued. *)
Inductive calmly : State -> Prop :=
| calmly_script reduced loading y h d :
    calmly (script (fresh reduced loading y h d))
| calmly_step st ev :
    calmly st -> calm st ev -> calmly (step st ev).



(** A burst of resize notifications after a first one: each comes [dt]
    milliseconds after the one before. *)
Fixpoint resizeBurst (rest : list (Z * Z)) : list Event :=
  match rest with
  | (dt, h) :: rest' => evElapse dt :: evResize h :: resizeBurst rest'
  | [] => []
  end.

Fixpoint burstDuration (rest : list (Z * Z)) : Z :=
  match rest with
  | (dt, _) :: rest' => dt + burstDuration rest'
  | [] => 0
  end.

(** A resize was notified at time [t] and its timer is the one pending. *)
Definition armed (t : Z) (st : State) : Prop :=
  resizeListeners st = [cbResize] /\ now st = t /\
  exists id, timers st = [mkTimer id (t + 150) cbUpdateParallax] /\
             resizeTimeout st = Some id.

(** ** Sample pages *)

Module Sample.

(** An element at document position 1000, of height 100, seen at scroll
    offset 500: its viewport-relative top is 500. *)
Definition layer (depth : option string) (transform : string) : Element :=
  {| data_depth := depth;
     rect_top := ofZ 500;
     offsetHeight := 100;
     style_transform := transform |}.

(** A page scrolled to 500 in a viewport of height 800. *)
Definition page (reduced loading : bool) (d : list Element) : State :=
  fresh reduced loading (ofZ 500) 800 d.

Definition hero : Element := layer (Some "0.5"%string) EmptyString.
Definition plain : Element := layer None "rotate(3deg)"%string.
Definition muted : Element := layer (Some "none"%string) EmptyString.
Definition tagged : Element := layer (Some "1.5abc"%string) EmptyString.

Definition started : State :=
  script (page false false [hero; plain; muted; tagged]).

(** Other code has rotated the third element since the last pass. *)
Definition restyled : State :=
  run [evStyle 2 "rotate(3deg)"%string] started.

End Sample.

Module Trace.


(** Three resize notifications, 100 and 149 milliseconds apart. *)
Definition dragging : list (Z * Z) :=
  [(100, 900); (149, 1000)].

End Trace.

(* ===================================================================== *)
(** * The other features of the script                                    *)
(* ===================================================================== *)

(** [initSmoothScroll], [initButtonEffects], [initCardTilt],
    [initScrollAnimations] and the [init] that runs all five, over the
    page of the parallax component.  Style properties hold the last value
    that was assigned.  The host's part:
    - a click or a mouse move propagates along a path of nodes, target
      first, and runs the listeners of each node in the order they were
      added; a mouseleave does not propagate;
    - [document.querySelector] is the host's answer at the time of the
      click: a node, [null], or a SyntaxError that ends the listener;
    - [preventDefault], [scrollIntoView], [history.pushState] and [focus]
      are recorded in the order they are called; the scrolling itself
      arrives as scroll notifications;
    - the IntersectionObserver reports on targets it observes when the
      report starts;
    - the timers of the buttons and the timer of the resize listener run
      in the order they are due, and in the order they were set when due
      together. *)
Module Site.

(** What these features read and write on a node, beside [Element]. *)
Record Facts : Type := mkFacts {
  localName : string;            (* 'a', 'div', ... *)
  href : option string;          (* getAttribute('href'), null when absent *)
  classList : list string;
  rect_left : number;            (* getBoundingClientRect().left *)
  rect_width : number;           (* getBoundingClientRect().width *)
  rect_height : number;          (* getBoundingClientRect().height *)
  style_opacity : string;        (* style.opacity *)
  style_transition : string      (* style.transition *)
}.

Definition set_opacity (o : string) (f : Facts) : Facts :=
  mkFacts (localName f) (href f) (classList f)
    (rect_left f) (rect_width f) (rect_height f) o (style_transition f).

Definition set_transition (t : string) (f : Facts) : Facts :=
  mkFacts (localName f) (href f) (classList f)
    (rect_left f) (rect_width f) (rect_height f) (style_opacity f) t.

Definition set_attributes (h : option string) (cs : list string) (f : Facts)
  : Facts :=
  mkFacts (localName f) h cs
    (rect_left f) (rect_width f) (rect_height f)
    (style_opacity f) (style_transition f).

Definition set_box (x width height : number) (f : Facts) : Facts :=
  mkFacts (localName f) (href f) (classList f)
    x width height (style_opacity f) (style_transition f).

(** What [document.querySelector(selector)] does: a node, [null], or a
    SyntaxError when the string is not a selector. *)
Inductive Query : Type :=
| found (target : nat)
| missing
| syntaxError.

(** What a click handler asks of the host. *)
Inductive Effect : Type :=
| PreventDefault
| ScrollIntoView (target : nat) (smooth : bool)   (* block: 'start' *)
| PushState (url : option string)                 (* history.pushState(null, null, url) *)
| Focus (target : nat).                           (* focus({ preventScroll: true }) *)

(** The two click listeners of the script. *)
Inductive Listener : Type :=
| onAnchorClick
| onButtonClick.

(** A pending [setTimeout(() => { this.style.transform = ''; }, 150)].
    The script drops the handle; [reset_stamp] is the next timer handle at
    the time of the call, which places the timer among those of the
    resize listener. *)
Record Reset : Type := mkReset {
  reset_stamp : nat;
  reset_due : Z;
  reset_node : nat
}.

Record Page : Type := mkPage {
  core : Dom.State;              (* the page of the parallax component *)
  facts : list Facts;            (* node by node, beside [document core] *)
  innerWidth : Z;                (* window.innerWidth *)
  scrollBehavior : bool;         (* 'scrollBehavior' in document.documentElement.style *)
  pushState : bool;              (* history.pushState is there *)
  intersectionObserver : bool;   (* 'IntersectionObserver' in window *)
  clickListeners : list (nat * Listener);   (* in the order they were added *)
  mousemoveListeners : list nat;
  mouseleaveListeners : list nat;
  observed : list nat;           (* targets of the IntersectionObserver *)
  resets : list Reset;
  effects : list Effect          (* latest first *)
}.

Definition set_core (st : Dom.State) (P : Page) : Page :=
  mkPage st (facts P) (innerWidth P) (scrollBehavior P) (pushState P)
    (intersectionObserver P) (clickListeners P) (mousemoveListeners P)
    (mouseleaveListeners P) (observed P) (resets P) (effects P).

Definition set_facts (fs : list Facts) (P : Page) : Page :=
  mkPage (core P) fs (innerWidth P) (scrollBehavior P) (pushState P)
    (intersectionObserver P) (clickListeners P) (mousemoveListeners P)
    (mouseleaveListeners P) (observed P) (resets P) (effects P).

Definition set_innerWidth (w : Z) (P : Page) : Page :=
  mkPage (core P) (facts P) w (scrollBehavior P) (pushState P)
    (intersectionObserver P) (clickListeners P) (mousemoveListeners P)
    (mouseleaveListeners P) (observed P) (resets P) (effects P).

Definition set_clickListeners (l : list (nat * Listener)) (P : Page) : Page :=
  mkPage (core P) (facts P) (innerWidth P) (scrollBehavior P) (pushState P)
    (intersectionObserver P) l (mousemoveListeners P)
    (mouseleaveListeners P) (observed P) (resets P) (effects P).

Definition set_mousemoveListeners (l : list nat) (P : Page) : Page :=
  mkPage (core P) (facts P) (innerWidth P) (scrollBehavior P) (pushState P)
    (intersectionObserver P) (clickListeners P) l
    (mouseleaveListeners P) (observed P) (resets P) (effects P).

Definition set_mouseleaveListeners (l : list nat) (P : Page) : Page :=
  mkPage (core P) (facts P) (innerWidth P) (scrollBehavior P) (pushState P)
    (intersectionObserver P) (clickListeners P) (mousemoveListeners P)
    l (observed P) (resets P) (effects P).

Definition set_observed (l : list nat) (P : Page) : Page :=
  mkPage (core P) (facts P) (innerWidth P) (scrollBehavior P) (pushState P)
    (intersectionObserver P) (clickListeners P) (mousemoveListeners P)
    (mouseleaveListeners P) l (resets P) (effects P).

Definition set_resets (l : list Reset) (P : Page) : Page :=
  mkPage (core P) (facts P) (innerWidth P) (scrollBehavior P) (pushState P)
    (intersectionObserver P) (clickListeners P) (mousemoveListeners P)
    (mouseleaveListeners P) (observed P) l (effects P).

Definition set_effects (l : list Effect) (P : Page) : Page :=
  mkPage (core P) (facts P) (innerWidth P) (scrollBehavior P) (pushState P)
    (intersectionObserver P) (clickListeners P) (mousemoveListeners P)
    (mouseleaveListeners P) (observed P) (resets P) l.

(** ** Writing styles *)

(** [node.style.transform = t]. *)
Definition writeTransform (i : nat) (t : string) (P : Page) : Page :=
  match document (core P) !! i with
  | Some el => set_core (set_document (<[i := set_transform t el]> (document (core P)))
                           (core P)) P
  | None => P
  end.

Definition writeFacts (i : nat) (g : Facts -> Facts) (P : Page) : Page :=
  match facts P !! i with
  | Some f => set_facts (<[i := g f]> (facts P)) P
  | None => P
  end.

(** ** Selectors *)

Definition hasClass (c : string) (f : Facts) : bool :=
  existsb (String.eqb c) (classList f).

(** [a[href^="#"]]. *)
Definition isAnchorLink (f : Facts) : bool :=
  String.eqb (localName f) "a" &&
  match href f with
  | Some h => String.prefix "#" h
  | None => false
  end.

(** [.btn]. *)
Definition isButton (f : Facts) : bool := hasClass "btn" f.

(** [.card]. *)
Definition isCard (f : Facts) : bool := hasClass "card" f.

(** [.card, .principle-item, .future-content]. *)
Definition isAnimated (f : Facts) : bool :=
  hasClass "card" f || hasClass "principle-item" f ||
  hasClass "future-content" f.

(** [document.querySelectorAll(selector)]: the matching nodes in document
    order, as a static list. *)
Fixpoint select_from (p : Facts -> bool) (i : nat) (fs : list Facts)
  : list nat :=
  match fs with
  | f :: fs' =>
      if p f then i :: select_from p (S i) fs' else select_from p (S i) fs'
  | [] => []
  end.

Definition querySelectorAll (p : Facts -> bool) (P : Page) : list nat :=
  select_from p 0 (facts P).

(** ** Smooth scrolling *)

(** The selector string a handler passes on: ToString of the attribute. *)
Definition selectorOf (targetId : option string) : string :=
  match targetId with
  | Some s => s
  | None => "null"
  end.

(** The click listener of an anchor link; [querySelector] is the host's
    [document.querySelector] at the time of the click. *)
Definition anchorClick (querySelector : string -> Query) (this : nat)
    (P : Page) : Page :=
  match facts P !! this with
  | Some f =>
      let targetId := href f in
      if match targetId with
         | Some s => String.eqb s "#" || String.eqb s "#!"
         | None => false
         end
      then P
      else
        match querySelector (selectorOf targetId) with
        | found target =>
            let smooth :=
              scrollBehavior P && negb (prefersReducedMotion (core P)) in
            let e1 := PreventDefault :: effects P in
            let e2 := ScrollIntoView target smooth :: e1 in
            let e3 := if pushState P then PushState targetId :: e2 else e2 in
            set_effects (Focus target :: e3) P
        | missing => P
        | syntaxError => P
        end
  | None => P
  end.

Definition initSmoothScroll (P : Page) : Page :=
  let anchorLinks := querySelectorAll isAnchorLink P in
  set_clickListeners
    (clickListeners P ++ map (fun i => (i, onAnchorClick)) anchorLinks) P.

(** ** Button feedback *)

Definition buttonClick (this : nat) (P : Page) : Page :=
  let P := writeTransform this "scale(0.98)" P in
  let st := core P in
  set_resets (resets P ++ [mkReset (nextTimerId st) (now st + 150) this]) P.

Definition initButtonEffects (P : Page) : Page :=
  let buttons := querySelectorAll isButton P in
  set_clickListeners
    (clickListeners P ++ map (fun i => (i, onButtonClick)) buttons) P.

(** ** Card tilt *)

Definition tiltTransform (rotateX rotateY : number) : string :=
  ("perspective(1000px) rotateX(" ++ NumberToString rotateX ++
   "deg) rotateY(" ++ NumberToString rotateY ++ "deg) translateY(-4px)")%string.

Definition rotateXOf (clientY top height : number) : number :=
  let y := sub clientY top in
  let centerY := div height (ofZ 2) in
  div (sub y centerY) (ofZ 20).

Definition rotateYOf (clientX left width : number) : number :=
  let x := sub clientX left in
  let centerX := div width (ofZ 2) in
  div (sub centerX x) (ofZ 20).

(** The mousemove listener of a card. *)
Definition tiltMove (clientX clientY : number) (this : nat) (P : Page)
  : Page :=
  match document (core P) !! this, facts P !! this with
  | Some el, Some f =>
      writeTransform this
        (tiltTransform (rotateXOf clientY (rect_top el) (rect_height f))
                       (rotateYOf clientX (rect_left f) (rect_width f))) P
  | _, _ => P
  end.

(** The mouseleave listener of a card. *)
Definition tiltLeave (this : nat) (P : Page) : Page :=
  writeTransform this EmptyString P.

Definition initCardTilt (P : Page) : Page :=
  if prefersReducedMotion (core P) || (innerWidth P <? 768) then P
  else
    let cards := querySelectorAll isCard P in
    set_mouseleaveListeners (mouseleaveListeners P ++ cards)
      (set_mousemoveListeners (mousemoveListeners P ++ cards) P).

(** ** Fade-in on scroll *)

(** The literal [0.1]. *)
Definition tenth : number := ofDecimal false 1 (-1).

Definition transitionOf (index : nat) : string :=
  let delay := NumberToString (mul (ofZ (Z.of_nat index)) tenth) in
  ("opacity 0.6s ease " ++ delay ++ "s, transform 0.6s ease " ++ delay ++ "s")%string.

Definition observe (i : nat) (P : Page) : Page :=
  if existsb (Nat.eqb i) (observed P) then P
  else set_observed (observed P ++ [i]) P.

Definition unobserve (i : nat) (P : Page) : Page :=
  set_observed (List.filter (fun j => negb (Nat.eqb i j)) (observed P)) P.

(** The callback of the observer on one entry. *)
Definition reveal (P : Page) (entry : nat * bool) : Page :=
  let '(target, isIntersecting) := entry in
  if isIntersecting then
    let P := writeFacts target (set_opacity "1") P in
    let P := writeTransform target "translateY(0)" P in
    unobserve target P
  else P.

Definition observerCallback (entries : list (nat * bool)) (P : Page) : Page :=
  fold_left reveal entries P.

(** The body of [animatedElements.forEach((element, index) => ...)]. *)
Definition hide (P : Page) (entry : nat * nat) : Page :=
  let '(index, element) := entry in
  let P := writeFacts element (set_opacity "0") P in
  let P := writeTransform element "translateY(20px)" P in
  let P := writeFacts element (set_transition (transitionOf index)) P in
  observe element P.

Fixpoint enumerate_from {A : Type} (k : nat) (l : list A) : list (nat * A) :=
  match l with
  | x :: l' => (k, x) :: enumerate_from (S k) l'
  | [] => []
  end.

Definition initScrollAnimations (P : Page) : Page :=
  if prefersReducedMotion (core P) then P
  else if negb (intersectionObserver P) then P
  else
    let animatedElements := querySelectorAll isAnimated P in
    fold_left hide (enumerate_from 0 animatedElements) P.

(** ** Initialisation *)

(** [init]. *)
Definition init (P : Page) : Page :=
  let P := set_core (initParallax (core P)) P in
  let P := initSmoothScroll P in
  let P := initButtonEffects P in
  let P := initCardTilt P in
  initScrollAnimations P.

(** The body of the script. *)
Definition script (P : Page) : Page :=
  let '(m, st) := matchMedia_matches (core P) in
  let st := set_prefersReducedMotion m st in
  if readyStateLoading st
  then set_core (set_domContentLoadedListeners
                   (domContentLoadedListeners st ++ [cbInit]) st) P
  else init (set_core st P).

(** A function of the script called by the host. *)
Definition call (cb : Callback) (P : Page) : Page :=
  match cb with
  | cbInit => init P
  | _ => set_core (Parallax.call cb (core P)) P
  end.

Definition dispatch (cbs : list Callback) (P : Page) : Page :=
  fold_left (fun P cb => call cb P) cbs P.

(** ** The host's event loop *)

Inductive Event : Type :=
| evWindow (ev : Parallax.Event)
    (* what the window and the rest of the world do, as before *)
| evClick (path : list nat) (querySelector : string -> Query)
    (* a click that propagates along [path], target first *)
| evMouseMove (path : list nat) (clientX clientY : number)
| evMouseLeave (i : nat)
| evIntersection (entries : list (nat * bool))
    (* the observer reports (target, isIntersecting) *)
| evInnerWidth (w : Z)
| evAttributes (i : nat) (h : option string) (cs : list string)
    (* other code changes href or class of node i *)
| evBox (i : nat) (x width height : number).
    (* layout changes the box of node i *)

Definition listen (querySelector : string -> Query) (this : nat)
    (P : Page) (l : nat * Listener) : Page :=
  if Nat.eqb (fst l) this then
    match snd l with
    | onAnchorClick => anchorClick querySelector this P
    | onButtonClick => buttonClick this P
    end
  else P.

(** The click listeners of one node, in the order they were added. *)
Definition clickAt (querySelector : string -> Query) (P : Page) (this : nat)
  : Page :=
  fold_left (listen querySelector this) (clickListeners P) P.

Definition moveAt (clientX clientY : number) (P : Page) (this : nat) : Page :=
  if existsb (Nat.eqb this) (mousemoveListeners P)
  then tiltMove clientX clientY this P else P.

(** Timers of both kinds that are due.  All delays are 150 ms, so they
    run in the order they were set. *)
Inductive Job : Type :=
| jobTimer (tm : Timer)
| jobReset (r : Reset).

Definition job_due (j : Job) : Z :=
  match j with
  | jobTimer tm => timer_due tm
  | jobReset r => reset_due r
  end.

(** Among timers due at the same time: was [a] set before [b]? *)
Definition setBefore (a b : Job) : bool :=
  match a, b with
  | jobTimer tm, jobReset r => (timer_id tm <? reset_stamp r)%nat
  | jobReset r, jobTimer tm => (reset_stamp r <=? timer_id tm)%nat
  | _, _ => true
  end.

Definition earlier (a b : Job) : bool :=
  (job_due a <? job_due b) || ((job_due a =? job_due b) && setBefore a b).

Fixpoint insertJob (j : Job) (l : list Job) : list Job :=
  match l with
  | x :: l' => if earlier j x then j :: l else x :: insertJob j l'
  | [] => [j]
  end.

Definition dueJobs (t : Z) (P : Page) : list Job :=
  fold_right insertJob []
    (map jobTimer (List.filter (fun tm => timer_due tm <=? t) (timers (core P))) ++
     map jobReset (List.filter (fun r => reset_due r <=? t) (resets P))).

(** A due timer runs at its due time. *)
Definition fireJob (P : Page) (j : Job) : Page :=
  match j with
  | jobTimer tm =>
      if pending (timer_id tm) (core P) then
        let st := clearTimeout (Some (timer_id tm)) (core P) in
        let st := set_now (Z.max (now st) (timer_due tm)) st in
        call (timer_callback tm) (set_core st P)
      else P
  | jobReset r =>
      let st := core P in
      let P := set_core (set_now (Z.max (now st) (reset_due r)) st) P in
      writeTransform (reset_node r) EmptyString P
  end.

Definition elapse (dt : Z) (P : Page) : Page :=
  let t := now (core P) + Z.max 0 dt in
  let P := fold_left fireJob (dueJobs t P) P in
  set_resets (List.filter (fun r => negb (reset_due r <=? t)) (resets P))
    (set_core (set_now t (core P)) P).

Definition step (P : Page) (ev : Event) : Page :=
  match ev with
  | evWindow evDOMContentLoaded =>
      if readyStateLoading (core P)
      then dispatch (domContentLoadedListeners (core P))
             (set_core (set_readyStateLoading false (core P)) P)
      else P
  | evWindow (evScroll y) =>
      dispatch (scrollListeners (core P)) (set_core (set_scrollY y (core P)) P)
  | evWindow (evResize h) =>
      dispatch (resizeListeners (core P))
        (set_core (set_innerHeight h (core P)) P)
  | evWindow evFrame =>
      dispatch (frameCallbacks (core P))
        (set_core (set_frameCallbacks [] (core P)) P)
  | evWindow (evElapse dt) => elapse dt P
  | evWindow ev => set_core (Parallax.step (core P) ev) P
  | evClick path querySelector => fold_left (clickAt querySelector) path P
  | evMouseMove path clientX clientY =>
      fold_left (moveAt clientX clientY) path P
  | evMouseLeave i =>
      if existsb (Nat.eqb i) (mouseleaveListeners P) then tiltLeave i P else P
  | evIntersection entries =>
      observerCallback
        (List.filter (fun e => existsb (Nat.eqb (fst e)) (observed P)) entries) P
  | evInnerWidth w => set_innerWidth w P
  | evAttributes i h cs => writeFacts i (set_attributes h cs) P
  | evBox i x width height => writeFacts i (set_box x width height) P
  end.

Definition run (evs : list Event) (P : Page) : Page :=
  fold_left step evs P.

(** The page before the script runs. *)
Definition fresh (reduced loading : bool) (y : number) (h w : Z)
    (smooth history observer : bool) (nodes : list (Element * Facts))
  : Page :=
  {| core := Parallax.fresh reduced loading y h (map fst nodes);
     facts := map snd nodes;
     innerWidth := w;
     scrollBehavior := smooth;
     pushState := history;
     intersectionObserver := observer;
     clickListeners := [];
     mousemoveListeners := [];
     mouseleaveListeners := [];
     observed := [];
     resets := [];
     effects := [] |}.

Inductive reachable : Page -> Prop :=
| reach_script reduced loading y h w smooth history observer nodes :
    reachable (script (fresh reduced loading y h w smooth history observer nodes))
| reach_step P ev :
    reachable P -> reachable (step P ev).

End Site.

(** [st'] comes after [st] in an execution of the parallax component. *)
Definition follows (st st' : State) : Prop :=
  exists evs : list Event, st' = run evs st.

(** The listeners of a page, and what the host offers. *)
Definition wiring (P : Site.Page) :=
  (Site.clickListeners P, Site.mousemoveListeners P,
   Site.mouseleaveListeners P,
   (Site.scrollBehavior P, Site.pushState P, Site.intersectionObserver P)).

(** What the fade-in feature keeps: the styles it writes and the targets
    it observes. *)
Definition shown (P : Site.Page) := (Site.facts P, Site.observed P).

(** Is [l] the button listener of node [this]? *)
Definition isButtonListener (this : nat) (l : nat * Site.Listener) : bool :=
  Nat.eqb (fst l) this &&
  match snd l with
  | Site.onButtonClick => true
  | Site.onAnchorClick => false
  end.

(** Is [j] a reset of node [i]? *)
Definition resetsNode (i : nat) (j : Site.Job) : bool :=
  match j with
  | Site.jobReset r => Nat.eqb (Site.reset_node r) i
  | Site.jobTimer _ => false
  end.

(** Is a reset of node [i] pending that is due by [t]? *)
Definition resetDue (i : nat) (t : Z) (P : Site.Page) : bool :=
  existsb (fun r => Nat.eqb (Site.reset_node r) i && (Site.reset_due r <=? t))
    (Site.resets P).

(** Does a click along [path] reach a button listener of node [i]? *)
Definition pressed (path : list nat) (P : Site.Page) (i : nat) : bool :=
  existsb (Nat.eqb i) path &&
  existsb (isButtonListener i) (Site.clickListeners P).

(** [style.transform] of node [i], when the node exists. *)
Definition transformAt (i : nat) (P : Site.Page) : option string :=
  style_transform <$> document (Site.core P) !! i.

Module SitePage.

(** A button that is no parallax layer, in a page that has finished
    loading. *)
Definition button : Site.Facts :=
  Site.mkFacts "button" None ["btn"%string]
    (ofZ 0) (ofZ 120) (ofZ 40) EmptyString EmptyString.

Definition withButton : Site.Page :=
  Site.script
    (Site.fresh false false (ofZ 0) 800 1024 true true true
       [(Sample.plain, button)]).

(** A card, and the page it is alone in. *)
Definition card : Site.Facts :=
  Site.mkFacts "div" None ["card"%string]
    (ofZ 0) (ofZ 300) (ofZ 200) EmptyString EmptyString.

Definition withCard : Site.Page :=
  Site.script
    (Site.fresh false false (ofZ 0) 800 1024 true true true
       [(Sample.plain, card)]).

(** A link to a section of the page. *)
Definition link : Site.Facts :=
  Site.mkFacts "a" (Some "#about"%string) []
    (ofZ 0) (ofZ 80) (ofZ 20) EmptyString EmptyString.

Definition section : Site.Facts :=
  Site.mkFacts "section" None []
    (ofZ 0) (ofZ 1024) (ofZ 600) EmptyString EmptyString.

(** [document.querySelector] of a page whose second node has the id
    [about]. *)
Definition byId (selector : string) : Site.Query :=
  if String.eqb selector "#about" then Site.found 1 else Site.missing.

End SitePage.

(** What the anchor listener reads and writes. *)
Definition seenByAnchor (P : Site.Page) :=
  (Site.facts P, Site.effects P,
   (Site.scrollBehavior P, Site.pushState P, prefersReducedMotion (Site.core P))).
(* ===================================================================== *)
(** * Facts about one pass                                                *)
(* ===================================================================== *)

Section Pass.

Variables scrollY windowHeight : number.


Lemma updateElement_active (el : Element) :
  active scrollY windowHeight el = true ->
  updateElement scrollY windowHeight el =
  set_transform
    (translate3d (offsetOf scrollY windowHeight
                    (elementTopOf scrollY el) (depthOf el))) el.
Proof.
  unfold active, updateElement. intros ->. reflexivity.
Qed.

Lemma updateElement_inactive (el : Element) :
  active scrollY windowHeight el = false ->
  updateElement scrollY windowHeight el = el.
Proof.
  unfold active, updateElement. intros ->. reflexivity.
Qed.

Lemma active_set_transform (t : string) (el : Element) :
  active scrollY windowHeight (set_transform t el) =
  active scrollY windowHeight el.
Proof. reflexivity. Qed.

Lemma updateElement_idem (el : Element) :
  updateElement scrollY windowHeight (updateElement scrollY windowHeight el) =
  updateElement scrollY windowHeight el.
Proof.
  destruct (active scrollY windowHeight el) eqn:Ha.
  - rewrite (updateElement_active el Ha).
    rewrite updateElement_active by (rewrite active_set_transform; exact Ha).
    reflexivity.
  - rewrite (updateElement_inactive el Ha).
    apply updateElement_inactive, Ha.
Qed.


Lemma updateNode_lookup (d : list Element) (i j : nat) :
  updateNode scrollY windowHeight d i !! j =
  if decide (i = j) then updateElement scrollY windowHeight <$> d !! j
  else d !! j.
Proof.
  unfold updateNode. destruct (decide (i = j)) as [->|Hne].
  - destruct (d !! j) as [el|] eqn:Hj; simpl.
    + apply list_lookup_insert_eq. eapply lookup_lt_Some, Hj.
    + exact Hj.
  - destruct (d !! i); [apply list_lookup_insert_ne, Hne | reflexivity].
Qed.

(** After the loop, a node that was iterated over carries the result of
    the loop body, and every other node is as it was. *)
Lemma forEach_lookup (ids : list nat) (d : list Element) (j : nat) :
  fold_left (updateNode scrollY windowHeight) ids d !! j =
  if decide (j ∈ ids) then updateElement scrollY windowHeight <$> d !! j
  else d !! j.
Proof.
  revert d. induction ids as [|i ids IH]; intros d; simpl.
  - destruct (decide (j ∈ [])) as [H|_]; [inversion H | reflexivity].
  - rewrite IH, updateNode_lookup.
    destruct (decide (i = j)) as [->|Hne].
    + destruct (decide (j ∈ j :: ids)) as [_|Hn]; [|exfalso; apply Hn; left].
      destruct (decide (j ∈ ids)); [|reflexivity].
      destruct (d !! j); simpl; [|reflexivity].
      now rewrite updateElement_idem.
    + destruct (decide (j ∈ ids)) as [Hin|Hnin].
      * destruct (decide (j ∈ i :: ids)) as [_|Hn]; [reflexivity|].
        exfalso; apply Hn; now right.
      * destruct (decide (j ∈ i :: ids)) as [Hin|_]; [|reflexivity].
        apply elem_of_cons in Hin as [->|Hin]; contradiction.
Qed.


End Pass.

Lemma updateParallax_document (st : State) :
  document (updateParallax st) =
  fold_left (updateNode (scrollY st) (ofZ (innerHeight st)))
    (parallaxElements st) (document st).
Proof. reflexivity. Qed.

Lemma updateParallax_lookup (st : State) (j : nat) :
  document (updateParallax st) !! j =
  if decide (j ∈ parallaxElements st)
  then updateElement (scrollY st) (ofZ (innerHeight st)) <$> document st !! j
  else document st !! j.
Proof. rewrite updateParallax_document. apply forEach_lookup. Qed.

(** With depth zero the offset is a zero, written [0], as soon as the
    other factor is finite. *)
Lemma offsetOf_zero (s v elementTop d : number) :
  is_zero d = true ->
  is_finite (add (sub s elementTop) (div v (ofZ 2))) = true ->
  Number.eqb (offsetOf s v elementTop d) (ofZ 0) = true /\
  translate3d (offsetOf s v elementTop d) = "translate3d(0, 0px, 0)"%string.
Proof.
  intros Hd Hx. unfold offsetOf.
  destruct (add (sub s elementTop) (div v (ofZ 2))) as [sx|sx| |sx mx ex];
    try discriminate; destruct d as [sd|sd| |sd md ed]; try discriminate.
  - split; reflexivity.
  - split; reflexivity.
Qed.

(* ===================================================================== *)
(** * Facts about binary64 arithmetic                                     *)
(* ===================================================================== *)

Lemma digits2_pos_size p : digits2_pos p = Pos.size p.
Proof. induction p; simpl; congruence. Qed.

Lemma digits2_pos_bounds p :
  2 ^ (Zpos (digits2_pos p) - 1) <= Zpos p < 2 ^ Zpos (digits2_pos p).
Proof.
  rewrite digits2_pos_size.
  pose proof (Pos.size_gt p) as Hgt. pose proof (Pos.size_le p) as Hle.
  assert (H2 : forall q, Zpos (2 ^ q) = 2 ^ Zpos q).
  { intros q. now rewrite Pos2Z.inj_pow. }
  split.
  - assert (2 ^ Zpos (Pos.size p) <= 2 * Zpos p) by (rewrite <- H2; lia).
    replace (Zpos (Pos.size p)) with (Z.succ (Zpos (Pos.size p) - 1)) in H by lia.
    rewrite Z.pow_succ_r in H by lia. lia.
  - rewrite <- H2. lia.
Qed.

Lemma iter_pos_iter {A} (f : A -> A) p x : SpecFloat.iter_pos f p x = Pos.iter f x p.
Proof.
  revert x. induction p; intros x; simpl.
  - rewrite !IHp. now rewrite !Pos.iter_swap.
  - now rewrite !IHp.
  - reflexivity.
Qed.

Lemma iter_xO_val m k : Zpos (Pos.iter xO m k) = Zpos m * 2 ^ Zpos k.
Proof.
  change (Pos.iter xO m k) with (shift_pos k m).
  rewrite shift_pos_correct, Zpower_pos_nat, Zpower_nat_Z, positive_nat_Z. lia.
Qed.

Lemma digits_iter_xO m k :
  Zpos (digits2_pos (Pos.iter xO m k)) = Zpos (digits2_pos m) + Zpos k.
Proof.
  induction k using Pos.peano_ind.
  - simpl. lia.
  - rewrite Pos.iter_succ. simpl. lia.
Qed.

Lemma shr_exact_iter k : forall m,
  Pos.iter shr_1 (exact (Zpos (Pos.iter xO m k))) k = exact (Zpos m).
Proof.
  induction k using Pos.peano_ind; intros m.
  - reflexivity.
  - rewrite (Pos.iter_succ_r k _ xO), (Pos.iter_succ k _ shr_1), IHk. reflexivity.
Qed.

Section Round.

Lemma binary_round_aux_finish sx mx ex lx :
  binary_round_aux prec emax sx mx ex lx = finish sx (shr_fexp prec emax mx ex lx).
Proof. reflexivity. Qed.

Lemma shr_iter mrs e n :
  shr mrs e (Zpos n) = (Pos.iter shr_1 mrs n, e + Zpos n).
Proof. simpl. now rewrite iter_pos_iter. Qed.

(** Shifting [m * 2^k] right by [k] more places than [m]. *)
Lemma shr_scale m k e n :
  0 <= n ->
  shr (exact (Zpos (Pos.iter xO m k))) (e - Zpos k) (n + Zpos k) =
  shr (exact (Zpos m)) e n.
Proof.
  intros Hn. destruct n as [|n|n]; [| |lia].
  - rewrite Z.add_0_l, shr_iter, shr_exact_iter. simpl. f_equal. lia.
  - change (Zpos n + Zpos k) with (Zpos (n + k)).
    rewrite !shr_iter, Pos.iter_add, shr_exact_iter. f_equal. lia.
Qed.

Lemma binary_round_scale sx m k e :
  binary_round prec emax sx (Pos.iter xO m k) (e - Zpos k) =
  binary_round prec emax sx m e.
Proof.
  unfold binary_round.
  rewrite digits_iter_xO.
  replace (Zpos (digits2_pos m) + Zpos k + (e - Zpos k))
    with (Zpos (digits2_pos m) + e) by lia.
  set (f := fexp prec emax (Zpos (digits2_pos m) + e)).
  unfold shl_align.
  destruct (f - (e - Zpos k)) as [|n|n] eqn:Hl.
  - (* the scaled mantissa is aligned as it is *)
    assert (He : f - e = Zneg k) by lia. rewrite He.
    replace (e - Zpos k) with f by lia. reflexivity.
  - (* the scaled mantissa must be shifted right *)
    rewrite binary_round_aux_finish. unfold shr_fexp.
    cbn [Zdigits2 shr_record_of_loc]. rewrite digits_iter_xO.
    replace (Zpos (digits2_pos m) + Zpos k + (e - Zpos k))
      with (Zpos (digits2_pos m) + e) by lia.
    fold f. rewrite Hl.
    destruct (f - e) as [|j|j] eqn:Hr.
    + rewrite binary_round_aux_finish. unfold shr_fexp.
      cbn [Zdigits2 shr_record_of_loc]. fold f. rewrite Hr.
      replace (Zpos n) with (0 + Zpos k) by lia.
      fold (exact (Zpos (Pos.iter xO m k))). now rewrite shr_scale by lia.
    + rewrite binary_round_aux_finish. unfold shr_fexp.
      cbn [Zdigits2 shr_record_of_loc]. fold f. rewrite Hr.
      replace (Zpos n) with (Zpos j + Zpos k) by lia.
      fold (exact (Zpos (Pos.iter xO m k))). now rewrite shr_scale by lia.
    + (* m is shifted left by j <= k places, the scaled one right by k - j *)
      rewrite !binary_round_aux_finish. unfold shr_fexp.
      cbn [Zdigits2 shr_record_of_loc]. rewrite digits_iter_xO.
      replace (Zpos (digits2_pos m) + Zpos j + f)
        with (Zpos (digits2_pos m) + e) by lia.
      fold f. rewrite Z.sub_diag. cbn [shr].
      assert (Hk : (k = j + n)%positive) by lia. subst k.
      rewrite Pos.add_comm, Pos.iter_add.
      fold (exact (Zpos (Pos.iter xO (Pos.iter xO m j) n))).
      rewrite iter_pos_iter, shr_exact_iter. unfold exact. do 2 f_equal. lia.
  - (* both are shifted left *)
    destruct (f - e) as [|j|j] eqn:Hr; try lia.
    assert (Hj : (j = n + k)%positive) by lia. subst j.
    now rewrite Pos.iter_add.
Qed.
End Round.

Section Exact.

Lemma binary_normalize_scale v k e sz :
  0 <= k ->
  binary_normalize prec emax (v * 2 ^ k) (e - k) sz =
  binary_normalize prec emax v e sz.
Proof.
  intros Hk. destruct k as [|k|k]; [| |lia].
  - now rewrite Z.pow_0_r, Z.mul_1_r, Z.sub_0_r.
  - destruct v as [|m|m].
    + reflexivity.
    + rewrite <- iter_xO_val. apply (binary_round_scale false).
    + change (Zneg m) with (- Zpos m).
      rewrite Z.mul_opp_l, <- iter_xO_val. apply (binary_round_scale true).
Qed.

Lemma ofDyadic_scale v k e :
  0 <= k -> ofDyadic (v * 2 ^ k) (e - k) = ofDyadic v e.
Proof. apply binary_normalize_scale. Qed.

Lemma binary_round_aux_aligned sx m e :
  fexp prec emax (Zpos (digits2_pos m) + e) = e -> e <= 971 ->
  binary_round_aux prec emax sx (Zpos m) e loc_Exact = S754_finite sx m e.
Proof.
  intros Hf He.
  assert (Hs : shr_fexp prec emax (Zpos m) e loc_Exact = (exact (Zpos m), e)).
  { unfold shr_fexp. cbn [Zdigits2 shr_record_of_loc].
    rewrite Hf, Z.sub_diag. reflexivity. }
  rewrite binary_round_aux_finish, Hs. unfold finish.
  cbn [exact loc_of_shr_record shr_m round_nearest_even].
  rewrite Hs. cbn [exact shr_m].
  replace (e <=? emax - prec) with true; [reflexivity|].
  symmetry; apply Z.leb_le. unfold emax, prec. lia.
Qed.

(** A mantissa of at most 53 bits on a grid inside the exponent range is
    represented exactly. *)
Lemma binary_round_repr sx m e :
  Zpos m < 2 ^ 53 -> -1074 <= e <= 971 ->
  binary_round prec emax sx m e =
  S754_finite sx (Z.to_pos (Zpos m * 2 ^ (e - bexp (Zpos m) e))) (bexp (Zpos m) e).
Proof.
  intros Hm He. unfold bexp. cbn [Zdigits2].
  pose proof (digits2_pos_bounds m) as Hd.
  assert (Hdig : Zpos (digits2_pos m) <= 53).
  { destruct (Z.le_gt_cases (Zpos (digits2_pos m)) 53) as [H|H]; [exact H|].
    exfalso. assert (2 ^ 53 <= 2 ^ (Zpos (digits2_pos m) - 1))
      by (apply Z.pow_le_mono_r; lia). lia. }
  unfold binary_round.
  set (f := fexp prec emax (Zpos (digits2_pos m) + e)).
  assert (Hf : f <= e /\ f <= 971).
  { unfold f, fexp, SpecFloat.emin, prec, emax. lia. }
  unfold shl_align.
  destruct (f - e) as [|j|j] eqn:Hj; [| lia |].
  - replace (e - f) with 0 by lia.
    rewrite Z.pow_0_r, Z.mul_1_r. cbn [Z.to_pos].
    replace f with e by lia.
    apply binary_round_aux_aligned; [fold f|]; lia.
  - replace (e - f) with (Zpos j) by lia.
    rewrite <- iter_xO_val. cbn [Z.to_pos].
    apply binary_round_aux_aligned; [|lia].
    rewrite digits_iter_xO.
    replace (Zpos (digits2_pos m) + Zpos j + f)
      with (Zpos (digits2_pos m) + e) by lia.
    reflexivity.
Qed.

Lemma ofDyadic_repr a e :
  a <> 0 -> Z.abs a < 2 ^ 53 -> -1074 <= e <= 971 ->
  ofDyadic a e =
  S754_finite (a <? 0) (Z.to_pos (Z.abs a * 2 ^ (e - bexp a e))) (bexp a e).
Proof.
  intros Ha Hb He. unfold ofDyadic, binary_normalize.
  destruct a as [|m|m]; [congruence| |].
  - apply binary_round_repr; [exact Hb | exact He].
  - apply (binary_round_repr true m e); [exact Hb | exact He].
Qed.
End Exact.

Section Arith.

Lemma Zdigits2_le_53 a : Z.abs a < 2 ^ 53 -> Zdigits2 a <= 53.
Proof.
  intros Ha. destruct a as [|m|m]; cbn [Zdigits2]; [lia| |].
  all: pose proof (digits2_pos_bounds m) as Hd;
    destruct (Z.le_gt_cases (Zpos (digits2_pos m)) 53) as [H|H]; [exact H|];
    exfalso; assert (2 ^ 53 <= 2 ^ (Zpos (digits2_pos m) - 1))
      by (apply Z.pow_le_mono_r; lia); simpl Z.abs in Ha; lia.
Qed.

Lemma bexp_le a e :
  Z.abs a < 2 ^ 53 -> -1074 <= e <= 971 -> -1074 <= bexp a e <= e.
Proof.
  intros Ha He. pose proof (Zdigits2_le_53 a Ha).
  unfold bexp, fexp, SpecFloat.emin, prec, emax. lia.
Qed.

Lemma shl_align_fst mx ex ex' :
  ex' <= ex -> Zpos (fst (shl_align mx ex ex')) = Zpos mx * 2 ^ (ex - ex').
Proof.
  intros H. unfold shl_align.
  destruct (ex' - ex) as [|j|j] eqn:Hj; [| lia |]; cbn [fst].
  - replace (ex - ex') with 0 by lia. lia.
  - rewrite iter_xO_val. f_equal. f_equal. lia.
Qed.

Lemma Zpos_mantissa a k :
  a <> 0 -> 0 <= k -> Zpos (Z.to_pos (Z.abs a * 2 ^ k)) = Z.abs a * 2 ^ k.
Proof.
  intros Ha Hk. apply Z2Pos.id.
  assert (0 < 2 ^ k) by (apply Z.pow_pos_nonneg; lia). nia.
Qed.

Lemma cond_Zopp_abs a x : cond_Zopp (a <? 0) (Z.abs a * x) = a * x.
Proof.
  unfold cond_Zopp. destruct (Z.ltb_spec a 0); nia.
Qed.

Lemma cond_Zopp_negb_abs a x : cond_Zopp (negb (a <? 0)) (Z.abs a * x) = - (a * x).
Proof.
  unfold cond_Zopp. destruct (Z.ltb_spec a 0); simpl; nia.
Qed.

(** The scaled sum of two grid points, as [SFadd] and [SFsub] form it. *)
Lemma aligned_sum a b e (sgn : Z) :
  a <> 0 -> b <> 0 -> Z.abs a < 2 ^ 53 -> Z.abs b < 2 ^ 53 ->
  -1074 <= e <= 971 ->
  let ez := Z.min (bexp a e) (bexp b e) in
  a * 2 ^ (e - bexp a e) * 2 ^ (bexp a e - ez) +
  sgn * (b * 2 ^ (e - bexp b e) * 2 ^ (bexp b e - ez)) =
  (a + sgn * b) * 2 ^ (e - ez).
Proof.
  intros Ha Hb Ba Bb He ez.
  pose proof (bexp_le a e Ba He). pose proof (bexp_le b e Bb He).
  rewrite <- !Z.mul_assoc, <- !Z.pow_add_r by lia.
  replace (e - bexp a e + (bexp a e - ez)) with (e - ez) by lia.
  replace (e - bexp b e + (bexp b e - ez)) with (e - ez) by lia.
  ring.
Qed.

Theorem add_ofDyadic a b e :
  Z.abs a < 2 ^ 53 -> Z.abs b < 2 ^ 53 -> -1074 <= e <= 971 ->
  add (ofDyadic a e) (ofDyadic b e) = ofDyadic (a + b) e.
Proof.
  intros Ba Bb He.
  destruct (Z.eq_dec a 0) as [->|Ha]; destruct (Z.eq_dec b 0) as [->|Hb].
  - reflexivity.
  - rewrite Z.add_0_l, (ofDyadic_repr b e Hb Bb He). reflexivity.
  - rewrite Z.add_0_r, (ofDyadic_repr a e Ha Ba He). reflexivity.
  - rewrite (ofDyadic_repr a e Ha Ba He), (ofDyadic_repr b e Hb Bb He).
    pose proof (bexp_le a e Ba He). pose proof (bexp_le b e Bb He).
    unfold add, SFadd.
    rewrite !shl_align_fst by lia.
    rewrite !Zpos_mantissa by lia.
    rewrite <- !Z.mul_assoc, !cond_Zopp_abs, !Z.mul_assoc.
    pose proof (aligned_sum a b e 1 Ha Hb Ba Bb He) as Hs. cbv zeta in Hs.
    rewrite !Z.mul_1_l in Hs. rewrite Hs.
    set (ez := Z.min (bexp a e) (bexp b e)).
    replace ez with (e - (e - ez)) at 2 by lia.
    apply binary_normalize_scale. lia.
Qed.

Theorem sub_ofDyadic a b e :
  Z.abs a < 2 ^ 53 -> Z.abs b < 2 ^ 53 -> -1074 <= e <= 971 ->
  sub (ofDyadic a e) (ofDyadic b e) = ofDyadic (a - b) e.
Proof.
  intros Ba Bb He.
  destruct (Z.eq_dec a 0) as [->|Ha]; destruct (Z.eq_dec b 0) as [->|Hb].
  - reflexivity.
  - assert (Hb' : - b <> 0) by lia.
    assert (Bb' : Z.abs (- b) < 2 ^ 53) by (rewrite Z.abs_opp; exact Bb).
    rewrite Z.sub_0_l, (ofDyadic_repr b e Hb Bb He), (ofDyadic_repr (- b) e Hb' Bb' He).
    unfold bexp. rewrite Z.abs_opp.
    replace (Zdigits2 (- b)) with (Zdigits2 b) by (now destruct b).
    replace (- b <? 0) with (negb (b <? 0))
      by (destruct (Z.ltb_spec b 0), (Z.ltb_spec (- b) 0); simpl; lia).
    reflexivity.
  - rewrite Z.sub_0_r, (ofDyadic_repr a e Ha Ba He). reflexivity.
  - rewrite (ofDyadic_repr a e Ha Ba He), (ofDyadic_repr b e Hb Bb He).
    pose proof (bexp_le a e Ba He). pose proof (bexp_le b e Bb He).
    unfold sub, SFsub.
    rewrite !shl_align_fst by lia.
    rewrite !Zpos_mantissa by lia.
    rewrite <- !Z.mul_assoc, !cond_Zopp_abs, !Z.mul_assoc.
    pose proof (aligned_sum a b e (-1) Ha Hb Ba Bb He) as Hs. cbv zeta in Hs.
    set (ez := Z.min (bexp a e) (bexp b e)) in *.
    match goal with |- binary_normalize _ _ ?x _ _ = _ =>
      replace x with ((a - b) * 2 ^ (e - ez))
        by (replace (a - b) with (a + -1 * b) by lia; rewrite <- Hs; lia) end.
    replace ez with (e - (e - ez)) at 2 by lia.
    apply binary_normalize_scale. lia.
Qed.
End Arith.

Section Compare.

Lemma Zdigits2_bounds x :
  0 < x -> 2 ^ (Zdigits2 x - 1) <= x < 2 ^ Zdigits2 x.
Proof.
  intros Hx. destruct x as [|m|m]; try lia. apply digits2_pos_bounds.
Qed.

Lemma Zdigits2_abs a : Zdigits2 (Z.abs a) = Zdigits2 a.
Proof. now destruct a. Qed.





End Compare.

(** ** Pixel grids

    A length that is a multiple of [2^-g] pixels, [n * 2^-g], is
    [ofDyadic n (-g)]; whole pixels are the grid [g = 0]. *)




(** ** Doubling commutes with rounding in the normal range *)

Lemma Zdigits2_unique x k :
  0 < x -> 2 ^ (k - 1) <= x < 2 ^ k -> Zdigits2 x = k.
Proof.
  intros Hx [Hl Hu]. pose proof (Zdigits2_bounds x Hx) as [Dl Du].
  assert (Hk : 0 < k).
  { destruct (Z.lt_trichotomy k 0) as [H|[H|H]]; [| |exact H]; exfalso.
    - rewrite Z.pow_neg_r in Hu by exact H. lia.
    - subst k. simpl in Hu. lia. }
  assert (Hd : 0 < Zdigits2 x) by (destruct x; simpl; lia).
  destruct (Z.lt_trichotomy (Zdigits2 x) k) as [H|[H|H]]; [|exact H|].
  - exfalso. assert (2 ^ Zdigits2 x <= 2 ^ (k - 1))
      by (apply Z.pow_le_mono_r; lia). lia.
  - exfalso. assert (2 ^ k <= 2 ^ (Zdigits2 x - 1))
      by (apply Z.pow_le_mono_r; lia). lia.
Qed.

Lemma Zdigits2_mono x y : 0 < x <= y -> Zdigits2 x <= Zdigits2 y.
Proof.
  intros [Hx Hxy].
  pose proof (Zdigits2_bounds x Hx) as [Dl _].
  pose proof (Zdigits2_bounds y ltac:(lia)) as [_ Du].
  destruct (Z.le_gt_cases (Zdigits2 x) (Zdigits2 y)) as [H|H]; [exact H|].
  exfalso. assert (2 ^ Zdigits2 y <= 2 ^ (Zdigits2 x - 1))
    by (apply Z.pow_le_mono_r; [lia|lia]). lia.
Qed.

Lemma Zdigits2_mul_le x y :
  0 < x -> 0 < y -> Zdigits2 (x * y) <= Zdigits2 x + Zdigits2 y.
Proof.
  intros Hx Hy.
  pose proof (Zdigits2_bounds x Hx) as [_ Xu].
  pose proof (Zdigits2_bounds y Hy) as [_ Yu].
  pose proof (Zdigits2_bounds (x * y) ltac:(nia)) as [Pl _].
  assert (Hdx : 0 < Zdigits2 x) by (destruct x; simpl; lia).
  assert (Hdy : 0 < Zdigits2 y) by (destruct y; simpl; lia).
  assert (Hp : x * y < 2 ^ (Zdigits2 x + Zdigits2 y)).
  { rewrite Z.pow_add_r by lia. nia. }
  destruct (Z.le_gt_cases (Zdigits2 (x * y)) (Zdigits2 x + Zdigits2 y))
    as [H|H]; [exact H|].
  exfalso. assert (2 ^ (Zdigits2 x + Zdigits2 y) <= 2 ^ (Zdigits2 (x * y) - 1))
    by (apply Z.pow_le_mono_r; lia). lia.
Qed.

Lemma Zdigits2_div_pow2 x n :
  0 < x -> 0 <= n < Zdigits2 x -> Zdigits2 (x / 2 ^ n) = Zdigits2 x - n.
Proof.
  intros Hx Hn. pose proof (Zdigits2_bounds x Hx) as [Dl Du].
  assert (Hp : 0 < 2 ^ n) by (apply Z.pow_pos_nonneg; lia).
  assert (Hl : 2 ^ (Zdigits2 x - n - 1) <= x / 2 ^ n).
  { apply Z.div_le_lower_bound; [exact Hp|].
    rewrite <- Z.pow_add_r by lia.
    now replace (n + (Zdigits2 x - n - 1)) with (Zdigits2 x - 1) by lia. }
  assert (Hu : x / 2 ^ n < 2 ^ (Zdigits2 x - n)).
  { apply Z.div_lt_upper_bound; [exact Hp|].
    rewrite <- Z.pow_add_r by lia.
    now replace (n + (Zdigits2 x - n)) with (Zdigits2 x) by lia. }
  apply Zdigits2_unique; [|split; [exact Hl | exact Hu]].
  assert (0 < 2 ^ (Zdigits2 x - n - 1)) by (apply Z.pow_pos_nonneg; lia). lia.
Qed.

Lemma shr_1_m r : 0 <= shr_m r -> shr_m (shr_1 r) = shr_m r / 2.
Proof.
  destruct r as [m b s]. cbn [shr_m]. intros Hm.
  destruct m as [|[p|p|]|p]; cbn [shr_1 shr_m]; try lia.
  - reflexivity.
  - apply (Z.div_unique _ _ _ 1); lia.
  - apply (Z.div_unique _ _ _ 0); lia.
  - reflexivity.
Qed.

Lemma shr_1_nonneg r : 0 <= shr_m r -> 0 <= shr_m (shr_1 r).
Proof.
  intros H. rewrite shr_1_m by exact H. apply Z.div_pos; lia.
Qed.

Lemma shr_iter_m n : forall r,
  0 <= shr_m r -> shr_m (Pos.iter shr_1 r n) = shr_m r / 2 ^ Zpos n.
Proof.
  induction n using Pos.peano_ind; intros r Hr.
  - simpl Pos.iter. now rewrite shr_1_m.
  - rewrite Pos.iter_succ_r, IHn by now apply shr_1_nonneg.
    rewrite shr_1_m by exact Hr.
    rewrite Pos2Z.inj_succ, Z.pow_succ_r by lia.
    rewrite Z.div_div by (try apply Z.pow_pos_nonneg; lia). reflexivity.
Qed.

Lemma round_nearest_even_bounds m l :
  m <= round_nearest_even m l <= m + 1.
Proof.
  destruct l as [|[| |]]; simpl; try lia. destruct (Z.even m); lia.
Qed.

Lemma fexp_normal k : -1021 <= k -> fexp prec emax k = k - 53.
Proof. intros H. unfold fexp, SpecFloat.emin, prec, emax. lia. Qed.

Lemma fexp_ge k : -1074 <= fexp prec emax k /\ k - 53 <= fexp prec emax k.
Proof. unfold fexp, SpecFloat.emin, prec, emax. lia. Qed.

Lemma shr_fexp_succ m e l :
  -1021 <= Zdigits2 m + e ->
  shr_fexp prec emax m (e + 1) l =
  (fst (shr_fexp prec emax m e l), snd (shr_fexp prec emax m e l) + 1).
Proof.
  intros Hn. unfold shr_fexp.
  rewrite (fexp_normal (Zdigits2 m + (e + 1))) by lia.
  rewrite (fexp_normal (Zdigits2 m + e)) by lia.
  replace (Zdigits2 m + (e + 1) - 53 - (e + 1)) with (Zdigits2 m + e - 53 - e)
    by lia.
  unfold shr. destruct (Zdigits2 m + e - 53 - e); simpl; f_equal; lia.
Qed.

Lemma finish_succ s r e :
  -1021 <= Zdigits2 (round_nearest_even (shr_m r) (loc_of_shr_record r)) + e ->
  finish s (r, e + 1) = scale2 (finish s (r, e)).
Proof.
  intros Hn. unfold finish. rewrite shr_fexp_succ by exact Hn.
  destruct (shr_fexp prec emax _ e loc_Exact) as [r2 e2]. cbn [fst snd].
  destruct (shr_m r2) as [|p|p]; [reflexivity| |reflexivity].
  destruct (Z.leb_spec e2 (emax - prec)); simpl.
  - reflexivity.
  - destruct (Z.leb_spec (e2 + 1) (emax - prec)); [lia | reflexivity].
Qed.

(** After the first shift of a product in the normal range. *)
Lemma first_shift M E :
  -1021 <= Zpos (digits2_pos M) + E ->
  let r := fst (shr_fexp prec emax (Zpos M) E loc_Exact) in
  let e := snd (shr_fexp prec emax (Zpos M) E loc_Exact) in
  let m1 := round_nearest_even (shr_m r) (loc_of_shr_record r) in
  -1021 <= Zdigits2 m1 + e /\
  (53 <= Zpos (digits2_pos M) ->
   e = Zpos (digits2_pos M) + E - 53 /\ 2 ^ 52 <= m1 <= 2 ^ 53).
Proof.
  intros Hn r e m1.
  pose proof (digits2_pos_bounds M) as HM.
  subst m1 e r. unfold shr_fexp. cbn [Zdigits2 shr_record_of_loc].
  rewrite (fexp_normal _ Hn).
  remember (Zpos (digits2_pos M)) as d eqn:Hd0.
  replace (d + E - 53 - E) with (d - 53) by lia.
  destruct (d - 53) as [|n|n] eqn:Hd; cbn [shr fst snd].
  - cbn [shr_m loc_of_shr_record round_nearest_even Zdigits2]. rewrite <- Hd0.
    split; [lia|]. intros _. split; [lia|].
    replace d with 53 in HM by lia. simpl in HM. simpl. lia.
  - rewrite iter_pos_iter.
    set (r := Pos.iter shr_1 _ n).
    assert (Hq : shr_m r = Zpos M / 2 ^ Zpos n).
    { unfold r. now rewrite shr_iter_m. }
    assert (Hdq : Zdigits2 (shr_m r) = 53).
    { rewrite Hq, Zdigits2_div_pow2; cbn [Zdigits2]; rewrite <- ?Hd0; lia. }
    assert (Hpos : 0 < shr_m r).
    { assert (0 <= shr_m r).
      { rewrite Hq. apply Z.div_pos; [lia | apply Z.pow_pos_nonneg; lia]. }
      destruct (shr_m r); simpl in Hdq; lia. }
    pose proof (Zdigits2_bounds _ Hpos) as Hb. rewrite Hdq in Hb.
    pose proof (round_nearest_even_bounds (shr_m r) (loc_of_shr_record r)) as Hr.
    assert (Hm : 53 <= Zdigits2 (round_nearest_even (shr_m r) (loc_of_shr_record r))).
    { rewrite <- Hdq. apply Zdigits2_mono. lia. }
    split; [lia|]. intros _. split; [lia|].
    change (2 ^ (53 - 1)) with (2 ^ 52) in Hb. lia.
  - cbn [shr_m loc_of_shr_record round_nearest_even Zdigits2]. rewrite <- Hd0.
    split; [lia|]. intros H53. lia.
Qed.

Lemma binary_round_aux_succ s M E :
  -1021 <= Zpos (digits2_pos M) + E ->
  binary_round_aux prec emax s (Zpos M) (E + 1) loc_Exact =
  scale2 (binary_round_aux prec emax s (Zpos M) E loc_Exact).
Proof.
  intros Hn. rewrite !binary_round_aux_finish.
  rewrite shr_fexp_succ by exact Hn.
  destruct (first_shift M E Hn) as [Hm _].
  destruct (shr_fexp prec emax (Zpos M) E loc_Exact) as [r e].
  cbn [fst snd] in *. now apply finish_succ.
Qed.

(** A mantissa that is aligned on its exponent is kept; the result is an
    infinity past the largest exponent. *)
Lemma binary_round_aux_kept sx m e :
  fexp prec emax (Zpos (digits2_pos m) + e) = e ->
  binary_round_aux prec emax sx (Zpos m) e loc_Exact =
  if e <=? emax - prec then S754_finite sx m e else S754_infinity sx.
Proof.
  intros Hf.
  assert (Hs : shr_fexp prec emax (Zpos m) e loc_Exact = (exact (Zpos m), e)).
  { unfold shr_fexp. cbn [Zdigits2 shr_record_of_loc].
    rewrite Hf, Z.sub_diag. reflexivity. }
  rewrite binary_round_aux_finish, Hs. unfold finish.
  cbn [exact loc_of_shr_record shr_m round_nearest_even].
  rewrite Hs. reflexivity.
Qed.

(** The product of mantissas in the normal range, with at least 53 bits,
    rounds to a normal number or to an infinity. *)
Lemma binary_round_aux_normal s M E :
  -1021 <= Zpos (digits2_pos M) + E -> 53 <= Zpos (digits2_pos M) ->
  binary_round_aux prec emax s (Zpos M) E loc_Exact = S754_infinity s \/
  exists m e,
    binary_round_aux prec emax s (Zpos M) E loc_Exact = S754_finite s m e /\
    Zpos (digits2_pos m) = 53 /\ -1074 <= e <= 971.
Proof.
  intros Hn Hd. rewrite binary_round_aux_finish.
  destruct (first_shift M E Hn) as [_ H]. destruct (H Hd) as [He Hm]. clear H.
  destruct (shr_fexp prec emax (Zpos M) E loc_Exact) as [r e1].
  cbn [fst snd] in *. unfold finish.
  set (m1 := round_nearest_even (shr_m r) (loc_of_shr_record r)) in *.
  change (2 ^ 52) with 4503599627370496 in Hm.
  change (2 ^ 53) with 9007199254740992 in Hm.
  destruct (Z.eq_dec m1 9007199254740992) as [E53|N53].
  - (* the rounding carried into the next binade *)
    rewrite E53. unfold shr_fexp. cbn [Zdigits2 shr_record_of_loc].
    change (Zpos (digits2_pos 9007199254740992)) with 54.
    rewrite (fexp_normal (54 + e1)) by lia.
    replace (54 + e1 - 53 - e1) with 1 by lia. cbn [shr SpecFloat.iter_pos].
    cbn [shr_1 shr_m].
    destruct (Z.leb_spec (e1 + 1) (emax - prec)) as [Hle|Hgt].
    + right. exists 4503599627370496%positive, (e1 + 1).
      split; [reflexivity|]. split; [reflexivity|].
      unfold emax, prec in Hle. lia.
    + now left.
  - assert (Hp : 0 < m1) by lia.
    assert (Hd1 : Zdigits2 m1 = 53).
    { apply Zdigits2_unique; [exact Hp|].
      change (2 ^ (53 - 1)) with 4503599627370496.
      change (2 ^ 53) with 9007199254740992. lia. }
    unfold shr_fexp. rewrite Hd1, (fexp_normal (53 + e1)) by lia.
    replace (53 + e1 - 53 - e1) with 0 by lia. cbn [shr shr_record_of_loc shr_m].
    destruct m1 as [|p|p]; try lia.
    destruct (Z.leb_spec e1 (emax - prec)) as [Hle|Hgt].
    + right. exists p, e1. split; [reflexivity|]. split; [exact Hd1|].
      unfold emax, prec in Hle. lia.
    + now left.
Qed.

Lemma binary_round_no_shift s m e :
  e <= fexp prec emax (Zpos (digits2_pos m) + e) ->
  binary_round prec emax s m e =
  binary_round_aux prec emax s (Zpos m) e loc_Exact.
Proof.
  intros H. unfold binary_round, shl_align.
  destruct (fexp prec emax (Zpos (digits2_pos m) + e) - e) eqn:Hd;
    try reflexivity; lia.
Qed.

Lemma binary_round_aux_scaled s m k e :
  e - Zpos k <= fexp prec emax (Zpos (digits2_pos m) + e) ->
  binary_round_aux prec emax s (Zpos (Pos.iter xO m k)) (e - Zpos k) loc_Exact =
  binary_round prec emax s m e.
Proof.
  intros H. rewrite <- (binary_round_scale s m k e).
  symmetry. apply binary_round_no_shift.
  rewrite digits_iter_xO.
  now replace (Zpos (digits2_pos m) + Zpos k + (e - Zpos k))
    with (Zpos (digits2_pos m) + e) by lia.
Qed.

(** The shape of a valid finite number: 53 bits, or fewer at the lowest
    exponent. *)
Lemma valid_finite s m e :
  valid (S754_finite s m e) = true ->
  -1074 <= e <= 971 /\
  (Zpos (digits2_pos m) = 53 \/ (Zpos (digits2_pos m) < 53 /\ e = -1074)).
Proof.
  unfold valid, valid_binary, bounded, canonical_mantissa.
  intros H. apply andb_true_iff in H as [Hc Hb].
  apply Z.eqb_eq in Hc. apply Z.leb_le in Hb.
  unfold fexp, SpecFloat.emin, prec, emax in *. lia.
Qed.

(** Twice a valid finite number. *)
Lemma mul_two_finite s m e :
  valid (S754_finite s m e) = true ->
  mul two (S754_finite s m e) =
  if Zpos (digits2_pos m) =? 53 then scale2 (S754_finite s m e)
  else S754_finite s (m~0) e.
Proof.
  intros Hv. destruct (valid_finite s m e Hv) as [He Hd].
  change (mul two (S754_finite s m e)) with
    (binary_round_aux prec emax s (Zpos (4503599627370496 * m)) (-51 + e) loc_Exact).
  assert (Hm : (4503599627370496 * m = Pos.iter xO m 52)%positive).
  { apply Pos2Z.inj. rewrite iter_xO_val, Pos2Z.inj_mul. 
    change (2 ^ 52) with 4503599627370496. lia. }
  rewrite Hm. replace (-51 + e) with ((e + 1) - 52) by lia.
  pose proof (fexp_ge (Zpos (digits2_pos m) + (e + 1))) as Hf.
  rewrite binary_round_aux_scaled by lia.
  destruct Hd as [Hd|[Hd He']].
  - rewrite Hd. cbn [Z.eqb Pos.eqb scale2].
    rewrite binary_round_no_shift
      by (rewrite Hd, (fexp_normal (53 + (e + 1))); lia).
    apply binary_round_aux_kept.
    rewrite Hd, (fexp_normal (53 + (e + 1))); lia.
  - destruct (Z.eqb_spec (Zpos (digits2_pos m)) 53) as [E|_]; [lia|].
    subst e.
    assert (Hx : fexp prec emax (Zpos (digits2_pos m) + (-1074 + 1)) = -1074).
    { unfold fexp, SpecFloat.emin, prec, emax. lia. }
    unfold binary_round, shl_align. rewrite Hx.
    change (-1074 - (-1074 + 1)) with (Zneg 1). cbn [Pos.iter].
    rewrite binary_round_aux_kept; [reflexivity|].
    cbn [digits2_pos]. rewrite Pos2Z.inj_succ.
    unfold fexp, SpecFloat.emin, prec, emax. lia.
Qed.

Lemma product_digits sx mx ex sd md ed :
  valid (S754_finite sx mx ex) = true ->
  valid (S754_finite sd md ed) = true ->
  -1021 <= Zpos (digits2_pos (mx * md)) + (ex + ed) ->
  53 <= Zpos (digits2_pos (mx * md)).
Proof.
  intros Hx Hd Hn.
  destruct (valid_finite _ _ _ Hx) as [Hex Hdx].
  destruct (valid_finite _ _ _ Hd) as [Hed Hdd].
  assert (Hmx : Zdigits2 (Zpos mx) <= Zdigits2 (Zpos (mx * md))).
  { apply Zdigits2_mono. rewrite Pos2Z.inj_mul. nia. }
  assert (Hmd : Zdigits2 (Zpos md) <= Zdigits2 (Zpos (mx * md))).
  { apply Zdigits2_mono. rewrite Pos2Z.inj_mul. nia. }
  pose proof (Zdigits2_mul_le (Zpos mx) (Zpos md) ltac:(lia) ltac:(lia)) as Hu.
  rewrite <- Pos2Z.inj_mul in Hu.
  cbn [Zdigits2] in *. lia.
Qed.

Lemma valid_normal s m e :
  Zpos (digits2_pos m) = 53 -> -1074 <= e <= 971 ->
  valid (S754_finite s m e) = true.
Proof.
  intros Hd He. unfold valid, valid_binary, bounded, canonical_mantissa.
  rewrite Hd. apply andb_true_iff. split.
  - apply Z.eqb_eq. unfold fexp, SpecFloat.emin, prec, emax. lia.
  - apply Z.leb_le. unfold prec, emax. lia.
Qed.

Theorem mul_doubling (x d : number) :
  valid x = true -> valid d = true ->
  is_finite (mul two d) = true -> noUnderflow x d = true ->
  mul x (mul two d) = mul two (mul x d).
Proof.
  intros Hx Hd Hf Hn.
  destruct d as [sd|sd| |sd md ed]; try discriminate.
  - destruct x as [sx|sx| |sx mx ex]; reflexivity.
  - rewrite (mul_two_finite sd md ed Hd) in *.
    destruct x as [sx|sx| |sx mx ex].
    + destruct (Zpos (digits2_pos md) =? 53); [|reflexivity].
      cbn [scale2] in *. destruct (ed + 1 <=? emax - prec);
        [reflexivity | discriminate].
    + destruct (Zpos (digits2_pos md) =? 53); [|reflexivity].
      cbn [scale2] in *. destruct (ed + 1 <=? emax - prec);
        [reflexivity | discriminate].
    + reflexivity.
    + cbn [noUnderflow] in Hn. apply Z.leb_le in Hn.
      pose proof (product_digits _ _ _ _ _ _ Hx Hd Hn) as H53.
      set (s := xorb sx sd). set (M := (mx * md)%positive) in *.
      set (E := ex + ed) in *.
      (* the right-hand side is the product with its exponent raised *)
      assert (Hr : mul two (mul (S754_finite sx mx ex) (S754_finite sd md ed))
                   = scale2 (binary_round_aux prec emax s (Zpos M) E loc_Exact)).
      { change (mul (S754_finite sx mx ex) (S754_finite sd md ed))
          with (binary_round_aux prec emax s (Zpos M) E loc_Exact).
        destruct (binary_round_aux_normal s M E Hn H53)
          as [Hi|(m & e & Hm & Hdm & He)].
        - rewrite Hi. now destruct s.
        - rewrite Hm, (mul_two_finite s m e (valid_normal s m e Hdm He)).
          now rewrite Hdm. }
      rewrite Hr. clear Hr.
      destruct (Z.eqb_spec (Zpos (digits2_pos md)) 53) as [Edd|Ndd].
      * cbn [scale2] in *.
        destruct (ed + 1 <=? emax - prec); [|discriminate].
        change (mul (S754_finite sx mx ex) (S754_finite sd md (ed + 1)))
          with (binary_round_aux prec emax s (Zpos M) (ex + (ed + 1)) loc_Exact).
        replace (ex + (ed + 1)) with (E + 1) by (unfold E; lia).
        now apply binary_round_aux_succ.
      * change (mul (S754_finite sx mx ex) (S754_finite sd md~0 ed))
          with (binary_round_aux prec emax s (Zpos (mx * md~0)) E loc_Exact).
        rewrite Pos.mul_xO_r. fold M.
        change (M~0)%positive with (Pos.iter xO M 1).
        replace E with ((E + 1) - 1) at 1 by lia.
        rewrite binary_round_aux_scaled
          by (rewrite (fexp_normal (Zpos (digits2_pos M) + (E + 1))); lia).
        rewrite binary_round_no_shift
          by (rewrite (fexp_normal (Zpos (digits2_pos M) + (E + 1))); lia).
        now apply binary_round_aux_succ.
Qed.

(** ** Results of the operations are values of the format *)

Lemma valid_kept s m e :
  fexp prec emax (Zpos (digits2_pos m) + e) = e ->
  valid (if e <=? emax - prec then S754_finite s m e else S754_infinity s) = true.
Proof.
  intros Hf. destruct (Z.leb_spec e (emax - prec)) as [Hle|Hgt]; [|reflexivity].
  unfold valid, valid_binary, bounded, canonical_mantissa.
  apply andb_true_iff. split; [now apply Z.eqb_eq | now apply Z.leb_le].
Qed.

(** Below the normal range the kept mantissa has at most 53 bits at the
    lowest exponent. *)
Lemma binary_round_aux_subnormal s m e n :
  Zpos (digits2_pos m) + e < -1021 -> -1074 - e = Zpos n ->
  binary_round_aux prec emax s (Zpos m) e loc_Exact = S754_zero s \/
  exists p,
    binary_round_aux prec emax s (Zpos m) e loc_Exact = S754_finite s p (-1074) /\
    Zpos (digits2_pos p) <= 53.
Proof.
  intros Hs Hd.
  assert (Hf : fexp prec emax (Zpos (digits2_pos m) + e) = -1074).
  { unfold fexp, SpecFloat.emin, prec, emax. lia. }
  rewrite binary_round_aux_finish. unfold shr_fexp.
  cbn [Zdigits2 shr_record_of_loc]. rewrite Hf, Hd. cbn [shr].
  rewrite iter_pos_iter.
  set (r := Pos.iter shr_1 _ n).
  assert (Hq : shr_m r = Zpos m / 2 ^ Zpos n).
  { unfold r. now rewrite shr_iter_m. }
  pose proof (digits2_pos_bounds m) as [_ Hu].
  assert (Hp : 0 < 2 ^ Zpos n) by (apply Z.pow_pos_nonneg; lia).
  assert (Hq0 : 0 <= shr_m r).
  { rewrite Hq. apply Z.div_pos; lia. }
  assert (Hq1 : shr_m r < 2 ^ 52).
  { rewrite Hq. apply Z.div_lt_upper_bound; [exact Hp|].
    rewrite <- Z.pow_add_r by lia.
    assert (2 ^ Zpos (digits2_pos m) <= 2 ^ (Zpos n + 52))
      by (apply Z.pow_le_mono_r; lia). lia. }
  pose proof (round_nearest_even_bounds (shr_m r) (loc_of_shr_record r)) as Hr.
  unfold finish.
  set (m1 := round_nearest_even (shr_m r) (loc_of_shr_record r)) in *.
  replace (e + Zpos n) with (-1074) by lia.
  destruct m1 as [|p|p] eqn:Hm1; [now left| |lia].
  assert (Hdp : Zpos (digits2_pos p) <= 53).
  { destruct (Z.le_gt_cases (Zpos (digits2_pos p)) 53) as [H|H]; [exact H|].
    exfalso. pose proof (digits2_pos_bounds p) as [Hl _].
    assert (2 ^ 53 <= 2 ^ (Zpos (digits2_pos p) - 1))
      by (apply Z.pow_le_mono_r; lia).
    change (2 ^ 53) with 9007199254740992 in *.
    change (2 ^ 52) with 4503599627370496 in *. lia. }
  assert (Hfp : fexp prec emax (Zpos (digits2_pos p) + -1074) = -1074).
  { unfold fexp, SpecFloat.emin, prec, emax. lia. }
  unfold shr_fexp. cbn [Zdigits2 shr_record_of_loc].
  rewrite Hfp. cbn [Z.sub Z.opp Z.add Z.pos_sub shr shr_m].
  replace (-1074 - -1074) with 0 by lia. cbn [shr shr_m].
  right. exists p. split; [reflexivity | exact Hdp].
Qed.

(** Every result of [binary_round] is a value of the format. *)
Lemma binary_round_valid s m e : valid (binary_round prec emax s m e) = true.
Proof.
  unfold binary_round, shl_align.
  set (f := fexp prec emax (Zpos (digits2_pos m) + e)).
  destruct (f - e) as [|n|j] eqn:Hd.
  - assert (Hf : fexp prec emax (Zpos (digits2_pos m) + e) = e) by (fold f; lia).
    rewrite (binary_round_aux_kept s m e Hf). now apply valid_kept.
  - (* the mantissa is shifted right and rounded *)
    destruct (Z.le_gt_cases (-1021) (Zpos (digits2_pos m) + e)) as [Hn|Hs].
    + assert (H53 : 53 <= Zpos (digits2_pos m)).
      { unfold f in Hd. rewrite (fexp_normal _ Hn) in Hd. lia. }
      destruct (binary_round_aux_normal s m e Hn H53)
        as [-> | (m' & e' & -> & Hdm & He)]; [reflexivity|].
      now apply valid_normal.
    + assert (Hx : -1074 - e = Zpos n)
        by (unfold f, fexp, SpecFloat.emin, prec, emax in Hd; lia).
      destruct (binary_round_aux_subnormal s m e n Hs Hx)
        as [-> | (p & -> & Hp)]; [reflexivity|].
      unfold valid, valid_binary, bounded, canonical_mantissa.
      apply andb_true_iff. split; [apply Z.eqb_eq | reflexivity].
      unfold fexp, SpecFloat.emin, prec, emax. lia.
  - assert (Hf : fexp prec emax (Zpos (digits2_pos (Pos.iter xO m j)) + f) = f).
    { rewrite digits_iter_xO.
      replace (Zpos (digits2_pos m) + Zpos j + f)
        with (Zpos (digits2_pos m) + e) by lia. reflexivity. }
    rewrite (binary_round_aux_kept s _ f Hf). now apply valid_kept.
Qed.

Lemma binary_normalize_valid m e sz :
  valid (binary_normalize prec emax m e sz) = true.
Proof. destruct m; [reflexivity | |]; apply binary_round_valid. Qed.

Lemma add_valid a b : valid a = true -> valid b = true -> valid (add a b) = true.
Proof.
  intros Ha Hb.
  destruct a as [sa|sa| |sa ma ea], b as [sb|sb| |sb mb eb];
    try reflexivity; try assumption;
    try (destruct sa, sb; reflexivity).
  apply binary_normalize_valid.
Qed.

Lemma sub_valid a b : valid a = true -> valid b = true -> valid (sub a b) = true.
Proof.
  intros Ha Hb.
  destruct a as [sa|sa| |sa ma ea], b as [sb|sb| |sb mb eb];
    try reflexivity; try assumption;
    try (destruct sa, sb; reflexivity).
  apply binary_normalize_valid.
Qed.

(** The mantissa of a grid point in the normal range has 53 bits. *)
Lemma repr_digits a e :
  a <> 0 -> Z.abs a < 2 ^ 53 -> -1021 <= e <= 971 ->
  bexp a e = Zdigits2 a + e - 53 /\
  Zpos (digits2_pos (Z.to_pos (Z.abs a * 2 ^ (e - bexp a e)))) = 53.
Proof.
  intros Ha Hb He.
  assert (Hd1 : 1 <= Zdigits2 a) by (destruct a; simpl; lia).
  pose proof (Zdigits2_le_53 a Hb) as Hd2.
  assert (Hx : bexp a e = Zdigits2 a + e - 53).
  { unfold bexp. apply fexp_normal. lia. }
  split; [exact Hx|]. rewrite Hx.
  replace (e - (Zdigits2 a + e - 53)) with (53 - Zdigits2 a) by lia.
  assert (Hp : 0 < Z.abs a) by lia.
  pose proof (Zdigits2_bounds _ Hp) as [Hl Hu]. rewrite Zdigits2_abs in Hl, Hu.
  assert (Hk : 0 < 2 ^ (53 - Zdigits2 a)) by (apply Z.pow_pos_nonneg; lia).
  change (Zpos (digits2_pos ?p)) with (Zdigits2 (Zpos p)).
  rewrite Z2Pos.id by nia.
  apply Zdigits2_unique; [nia|]. split.
  - replace (53 - 1) with ((Zdigits2 a - 1) + (53 - Zdigits2 a)) by lia.
    rewrite Z.pow_add_r by lia. nia.
  - replace 53 with (Zdigits2 a + (53 - Zdigits2 a)) at 2 by lia.
    rewrite Z.pow_add_r by lia. nia.
Qed.

(** Halving a grid point is exact. *)
Lemma half_ofDyadic a e :
  Z.abs a < 2 ^ 53 -> -1000 <= e <= 971 ->
  div (ofDyadic a e) (ofZ 2) = ofDyadic a (e - 1).
Proof.
  intros Hb He. destruct (Z.eq_dec a 0) as [->|Ha]; [reflexivity|].
  rewrite (ofDyadic_repr a e Ha Hb ltac:(lia)).
  destruct (repr_digits a e Ha Hb ltac:(lia)) as [Hx Hd].
  set (m := Z.to_pos (Z.abs a * 2 ^ (e - bexp a e))) in *.
  set (f := bexp a e) in *.
  assert (Hd1 : 1 <= Zdigits2 a) by (destruct a; simpl; lia).
  pose proof (Zdigits2_le_53 a Hb) as Hd2.
  (* the quotient of the mantissas is 2 m, exactly *)
  assert (Hcore : SFdiv_core_binary prec emax (Zpos m) f 4503599627370496 (-51)
                  = (Zpos m~0, f - 2, loc_Exact)).
  { unfold SFdiv_core_binary. cbn [Zdigits2]. rewrite Hd.
    change (Zpos (digits2_pos 4503599627370496)) with 53.
    replace (53 + f - (53 + -51)) with (f + 51) by lia.
    rewrite (fexp_normal (f + 51)) by lia.
    replace (Z.min (f + 51 - 53) (f - -51)) with (f - 2) by lia.
    replace (f - -51 - (f - 2)) with 53 by lia.
    rewrite Z.shiftl_mul_pow2 by lia.
    assert (Hq : Z.div_eucl (Zpos m * 2 ^ 53) 4503599627370496 = (Zpos m~0, 0)).
    { pose proof (Z.div_eucl_eq (Zpos m * 2 ^ 53) 4503599627370496 ltac:(lia)) as E.
      pose proof (Z.mod_pos_bound (Zpos m * 2 ^ 53) 4503599627370496 ltac:(lia)) as B.
      unfold Z.modulo in B.
      destruct (Z.div_eucl (Zpos m * 2 ^ 53) 4503599627370496) as [q r].
      change (2 ^ 53) with 9007199254740992 in E.
      assert (q = Zpos m~0 /\ r = 0) as [-> ->] by (rewrite Pos2Z.inj_xO; lia).
      reflexivity. }
    rewrite Hq. reflexivity. }
  change (div (S754_finite (a <? 0) m f) (ofZ 2)) with
    (let '(mz, ez, lz) :=
       SFdiv_core_binary prec emax (Zpos m) f 4503599627370496 (-51) in
     binary_round_aux prec emax (xorb (a <? 0) false) mz ez lz).
  rewrite Hcore. cbv iota beta. rewrite xorb_false_r.
  change (m~0)%positive with (Pos.iter xO m 1).
  replace (f - 2) with ((f - 1) - 1) by lia.
  rewrite binary_round_aux_scaled
    by (rewrite Hd, (fexp_normal (53 + (f - 1))); lia).
  (* and m * 2^(f-1) is a * 2^(e-1) *)
  assert (Hm : Zpos m = Z.abs a * 2 ^ (e - f)).
  { unfold m. apply Zpos_mantissa; [exact Ha | lia]. }
  unfold ofDyadic, binary_normalize.
  destruct (Z.eq_dec (e - f) 0) as [E0|N0].
  - rewrite E0, Z.mul_1_r in Hm. replace f with e by lia.
    destruct a as [|p|p]; [congruence| |]; simpl in Hm; inversion Hm; reflexivity.
  - assert (Hk : exists k, e - f = Zpos k).
    { destruct (e - f) as [|k|k] eqn:Ek; [lia | now exists k | lia]. }
    destruct Hk as [k Hk]. rewrite Hk in Hm.
    replace (f - 1) with ((e - 1) - Zpos k) by lia.
    destruct a as [|p|p]; [congruence| |];
      [change (Z.abs (Zpos p)) with (Zpos p) in Hm
      |change (Z.abs (Zneg p)) with (Zpos p) in Hm];
      rewrite <- iter_xO_val in Hm; inversion Hm as [Hm']; rewrite Hm';
      apply binary_round_scale.
Qed.

Lemma half_valid (v : Z) :
  Z.abs v < 2 ^ 53 -> valid (div (ofZ v) (ofZ 2)) = true.
Proof.
  intros Hv. change (ofZ v) with (ofDyadic v 0).
  rewrite half_ofDyadic by (try exact Hv; lia).
  apply binary_normalize_valid.
Qed.

(** A grid point with a mantissa of at most 53 bits is finite. *)
Lemma ofDyadic_finite a e :
  Z.abs a < 2 ^ 53 -> -1074 <= e <= 971 -> is_finite (ofDyadic a e) = true.
Proof.
  intros Hb He. destruct (Z.eq_dec a 0) as [->|Ha]; [reflexivity|].
  now rewrite (ofDyadic_repr a e Ha Hb He).
Qed.

(** On a pixel grid the factor [s - elementTop + v/2] is computed exactly;
    in particular it is finite. *)
Lemma grid_factor (g ns nt v : Z) :
  0 <= g <= 20 -> Z.abs ns <= 2 ^ 50 -> Z.abs nt <= 2 ^ 50 ->
  Z.abs v <= 2 ^ 31 ->
  add (sub (ofDyadic ns (- g)) (ofDyadic nt (- g))) (div (ofZ v) (ofZ 2)) =
  ofDyadic (2 * (ns - nt) + v * 2 ^ g) (- g - 1) /\
  is_finite (add (sub (ofDyadic ns (- g)) (ofDyadic nt (- g)))
               (div (ofZ v) (ofZ 2))) = true.
Proof.
  intros Hg Hs Ht Hv.
  change (2 ^ 50) with 1125899906842624 in *.
  change (2 ^ 31) with 2147483648 in *.
  assert (H53 : 2 ^ 53 = 9007199254740992) by reflexivity.
  assert (HG : 1 <= 2 ^ g <= 1048576).
  { split.
    - change 1 with (2 ^ 0). apply Z.pow_le_mono_r; lia.
    - change 1048576 with (2 ^ 20). apply Z.pow_le_mono_r; lia. }
  assert (E : add (sub (ofDyadic ns (- g)) (ofDyadic nt (- g)))
                (div (ofZ v) (ofZ 2)) =
              ofDyadic (2 * (ns - nt) + v * 2 ^ g) (- g - 1)).
  { rewrite sub_ofDyadic by (rewrite ?H53; lia).
    change (ofZ v) with (ofDyadic v 0).
    rewrite half_ofDyadic by (rewrite ?H53; lia).
    rewrite <- (ofDyadic_scale (ns - nt) 1 (- g)) by lia.
    rewrite <- (ofDyadic_scale v g (0 - 1)) by lia.
    replace (0 - 1 - g) with (- g - 1) by lia.
    set (G := 2 ^ g) in *.
    rewrite add_ofDyadic by (rewrite ?H53; change (2 ^ 1) with 2; nia).
    f_equal. change (2 ^ 1) with 2. lia. }
  split; [exact E|]. rewrite E.
  apply ofDyadic_finite; [|lia].
  set (G := 2 ^ g) in *. rewrite H53. nia.
Qed.

(* ===================================================================== *)
(** * Orders of magnitude                                                 *)
(* ===================================================================== *)

(** ** What is shifted out decides the rounding *)

Lemma shr_1_fields r :
  0 <= shr_m r ->
  shr_1 r = Build_shr_record (shr_m r / 2) (Z.odd (shr_m r)) (shr_r r || shr_s r).
Proof.
  destruct r as [m b s]. cbn [shr_m shr_r shr_s]. intros Hm.
  destruct m as [|[p|p|]|p]; cbn [shr_1 Z.odd]; try lia; f_equal;
    try reflexivity.
  - apply (Z.div_unique _ _ _ 1); lia.
  - apply (Z.div_unique _ _ _ 0); lia.
Qed.

(** After [n] shifts the record holds the quotient by [2^n], the last bit
    shifted out, and whether anything was shifted out before it. *)
Lemma shr_iter_fields M n :
  0 <= M ->
  let r := Pos.iter shr_1 (exact M) n in
  shr_m r = M / 2 ^ Zpos n /\
  shr_r r = Z.odd (M / 2 ^ (Zpos n - 1)) /\
  (shr_s r = false <-> M mod 2 ^ (Zpos n - 1) = 0).
Proof.
  intros HM. induction n using Pos.peano_ind.
  - cbn [Pos.iter]. rewrite shr_1_fields by exact HM.
    cbn [exact shr_m shr_r shr_s orb]. change (2 ^ (1 - 1)) with 1.
    rewrite Z.div_1_r, Z.mod_1_r. change (2 ^ 1) with 2. tauto.
  - rewrite Pos.iter_succ. cbn zeta in *.
    destruct IHn as (Hm & Hr & Hs).
    set (r := Pos.iter shr_1 (exact M) n) in *.
    assert (Hp : 0 < 2 ^ Zpos n) by (apply Z.pow_pos_nonneg; lia).
    assert (Hp1 : 0 < 2 ^ (Zpos n - 1)) by (apply Z.pow_pos_nonneg; lia).
    assert (H0 : 0 <= shr_m r) by (rewrite Hm; apply Z.div_pos; lia).
    rewrite shr_1_fields by exact H0. cbn [shr_m shr_r shr_s].
    rewrite Pos2Z.inj_succ.
    replace (Z.succ (Zpos n) - 1) with (Zpos n) by lia.
    split; [|split].
    + rewrite Hm. replace (2 ^ Z.succ (Zpos n)) with (2 ^ Zpos n * 2).
      2:{ rewrite Z.pow_succ_r by lia. lia. }
      now rewrite Z.div_div by lia.
    + now rewrite Hm.
    + replace (2 ^ Zpos n) with (2 ^ (Zpos n - 1) * 2)
        by (rewrite Z.mul_comm, <- Z.pow_succ_r by lia; f_equal; lia).
      rewrite Z.rem_mul_r by lia.
      rewrite Hr, orb_false_iff, Hs, Zmod_odd.
      pose proof (Z.mod_pos_bound M (2 ^ (Zpos n - 1)) Hp1).
      destruct (Z.odd (M / 2 ^ (Zpos n - 1))); split; intros; try split;
        try tauto; try discriminate; try nia; try lia.
Qed.

(** The kept mantissa is within half a unit of the exact quotient. *)
Lemma shr_nearest M n :
  0 <= M ->
  let r := Pos.iter shr_1 (exact M) n in
  let m1 := round_nearest_even (shr_m r) (loc_of_shr_record r) in
  2 * Z.abs (m1 * 2 ^ Zpos n - M) <= 2 ^ Zpos n.
Proof.
  intros HM r m1. destruct (shr_iter_fields M n HM) as (Hm & Hr & Hs).
  fold r in Hm, Hr, Hs.
  assert (Hp1 : 0 < 2 ^ (Zpos n - 1)) by (apply Z.pow_pos_nonneg; lia).
  assert (Hp : 2 ^ Zpos n = 2 ^ (Zpos n - 1) * 2)
    by (rewrite Z.mul_comm, <- Z.pow_succ_r by lia; f_equal; lia).
  pose proof (Z.div_mod M (2 ^ Zpos n) ltac:(lia)) as Hdm.
  assert (Hrem : M mod 2 ^ Zpos n =
                 M mod 2 ^ (Zpos n - 1) +
                 2 ^ (Zpos n - 1) * ((M / 2 ^ (Zpos n - 1)) mod 2)).
  { rewrite Hp at 1. apply Z.rem_mul_r; lia. }
  rewrite Zmod_odd, <- Hr in Hrem.
  pose proof (Z.mod_pos_bound M (2 ^ (Zpos n - 1)) Hp1) as Hb.
  subst m1. rewrite <- Hm in Hdm.
  destruct r as [q b s]. cbn [shr_m shr_r shr_s] in *.
  destruct b, s; cbn [loc_of_shr_record round_nearest_even].
  - assert (M mod 2 ^ (Zpos n - 1) <> 0) by (intros E; apply Hs in E; discriminate).
    nia.
  - assert (M mod 2 ^ (Zpos n - 1) = 0) by now apply Hs.
    destruct (Z.even q); nia.
  - nia.
  - assert (M mod 2 ^ (Zpos n - 1) = 0) by now apply Hs. nia.
Qed.

(** The last step of a rounding whose kept mantissa has 53 bits, or has
    carried into [2^53]. *)
Lemma finish_normal s r e1 :
  let m1 := round_nearest_even (shr_m r) (loc_of_shr_record r) in
  2 ^ 52 <= m1 <= 2 ^ 53 -> -1074 <= e1 ->
  finish s (r, e1) =
  if m1 <? 2 ^ 53
  then (if e1 <=? 971 then S754_finite s (Z.to_pos m1) e1 else S754_infinity s)
  else (if e1 + 1 <=? 971 then S754_finite s 4503599627370496 (e1 + 1)
        else S754_infinity s).
Proof.
  intros m1 Hm He. unfold finish. fold m1.
  change (2 ^ 52) with 4503599627370496 in Hm.
  change (2 ^ 53) with 9007199254740992 in *.
  destruct (Z.ltb_spec m1 9007199254740992) as [Hlt|Hge].
  - assert (Hp : 0 < m1) by lia.
    assert (Hd1 : Zdigits2 m1 = 53).
    { apply Zdigits2_unique; [exact Hp|].
      change (2 ^ (53 - 1)) with 4503599627370496.
      change (2 ^ 53) with 9007199254740992. lia. }
    unfold shr_fexp. rewrite Hd1, (fexp_normal (53 + e1)) by lia.
    replace (53 + e1 - 53 - e1) with 0 by lia. cbn [shr shr_record_of_loc shr_m].
    destruct m1 as [|p|p]; try lia. reflexivity.
  - assert (E53 : m1 = 9007199254740992) by lia.
    rewrite E53. unfold shr_fexp. cbn [Zdigits2 shr_record_of_loc].
    change (Zpos (digits2_pos 9007199254740992)) with 54.
    rewrite (fexp_normal (54 + e1)) by lia.
    replace (54 + e1 - 53 - e1) with 1 by lia. cbn [shr SpecFloat.iter_pos].
    cbn [shr_1 shr_m]. reflexivity.
Qed.

(** Rounding a mantissa of [d >= 53] bits in the normal range: the kept
    mantissa [m1] is the nearest multiple of [2^(d-53)]. *)
Lemma round_shape s M E :
  let d := Zpos (digits2_pos M) in
  -1021 <= d + E -> 53 <= d ->
  exists m1 : Z,
    2 * Z.abs (m1 * 2 ^ (d - 53) - Zpos M) <= 2 ^ (d - 53) /\
    2 ^ 52 <= m1 <= 2 ^ 53 /\
    binary_round_aux prec emax s (Zpos M) E loc_Exact =
    if m1 <? 2 ^ 53
    then (if d + E - 53 <=? 971 then S754_finite s (Z.to_pos m1) (d + E - 53)
          else S754_infinity s)
    else (if d + E - 52 <=? 971
          then S754_finite s 4503599627370496 (d + E - 52)
          else S754_infinity s).
Proof.
  intros d Hn Hd. rewrite binary_round_aux_finish.
  destruct (first_shift M E Hn) as [_ H]. destruct (H Hd) as [He Hm]. clear H.
  fold d in He.
  assert (Hnear :
    2 * Z.abs (round_nearest_even
                 (shr_m (fst (shr_fexp prec emax (Zpos M) E loc_Exact)))
                 (loc_of_shr_record (fst (shr_fexp prec emax (Zpos M) E loc_Exact)))
               * 2 ^ (d - 53) - Zpos M) <= 2 ^ (d - 53)).
  { unfold shr_fexp. cbn [Zdigits2 shr_record_of_loc]. fold d.
    rewrite (fexp_normal _ Hn).
    replace (d + E - 53 - E) with (d - 53) by lia.
    destruct (d - 53) as [|n|n] eqn:Hd53; [| |lia].
    - cbn [shr fst shr_m loc_of_shr_record round_nearest_even].
      change (2 ^ 0) with 1. lia.
    - cbn [shr fst]. rewrite iter_pos_iter.
      apply (shr_nearest (Zpos M) n). lia. }
  destruct (shr_fexp prec emax (Zpos M) E loc_Exact) as [r e1].
  cbn [fst snd] in *.
  exists (round_nearest_even (shr_m r) (loc_of_shr_record r)).
  split; [exact Hnear|]. split; [exact Hm|].
  rewrite finish_normal by (try exact Hm; lia).
  subst e1. replace (d + E - 53 + 1) with (d + E - 52) by lia. reflexivity.
Qed.

Lemma digits_below m k : Zpos m < 2 ^ k -> Zpos (digits2_pos m) <= k.
Proof.
  intros H. pose proof (digits2_pos_bounds m) as [Hl _].
  destruct (Z.le_gt_cases (Zpos (digits2_pos m)) k) as [Hk|Hk]; [exact Hk|].
  exfalso. assert (2 ^ k <= 2 ^ (Zpos (digits2_pos m) - 1))
    by (apply Z.pow_le_mono_r; lia). lia.
Qed.

(** Rounding does not raise the order of magnitude by more than one, and
    does not overflow below [2^1023]. *)
Lemma binary_round_within s m e j :
  Zpos m < 2 ^ (j - e) -> 0 <= j <= 1023 ->
  within (j + 1) (binary_round prec emax s m e) = true.
Proof.
  intros Hm Hj. pose proof (digits_below m (j - e) Hm) as Hd.
  pose proof (fexp_ge (Zpos (digits2_pos m) + e)) as Hfe.
  unfold binary_round, shl_align.
  set (f := fexp prec emax (Zpos (digits2_pos m) + e)) in *.
  assert (Hf : f <= 970) by (unfold f, fexp, SpecFloat.emin, prec, emax; lia).
  destruct (f - e) as [|n|k] eqn:Hfd.
  - assert (Hk : fexp prec emax (Zpos (digits2_pos m) + e) = e) by (fold f; lia).
    rewrite (binary_round_aux_kept s m e Hk).
    destruct (Z.leb_spec e (emax - prec)) as [_|Hgt];
      [|unfold emax, prec in Hgt; lia].
    cbn [within]. apply Z.leb_le. lia.
  - destruct (Z.le_gt_cases (-1021) (Zpos (digits2_pos m) + e)) as [Hn|Hs].
    + assert (H53 : 53 <= Zpos (digits2_pos m)).
      { unfold f in Hfd. rewrite (fexp_normal _ Hn) in Hfd. lia. }
      destruct (round_shape s m e Hn H53) as (m1 & _ & Hb & ->).
      destruct (Z.ltb_spec m1 (2 ^ 53)) as [Hlt|_].
      * destruct (Z.leb_spec (Zpos (digits2_pos m) + e - 53) 971); [|lia].
        cbn [within]. apply Z.leb_le.
        assert (Zpos (digits2_pos (Z.to_pos m1)) <= 53).
        { apply digits_below. rewrite Z2Pos.id by lia. exact Hlt. }
        lia.
      * destruct (Z.leb_spec (Zpos (digits2_pos m) + e - 52) 971); [|lia].
        cbn [within]. apply Z.leb_le.
        change (Zpos (digits2_pos 4503599627370496)) with 53. lia.
    + assert (Hx : -1074 - e = Zpos n)
        by (unfold f, fexp, SpecFloat.emin, prec, emax in Hfd; lia).
      destruct (binary_round_aux_subnormal s m e n Hs Hx)
        as [-> | (p & -> & Hp)]; [reflexivity|].
      cbn [within]. apply Z.leb_le. lia.
  - assert (Hk : fexp prec emax (Zpos (digits2_pos (Pos.iter xO m k)) + f) = f).
    { rewrite digits_iter_xO.
      replace (Zpos (digits2_pos m) + Zpos k + f)
        with (Zpos (digits2_pos m) + e) by lia. reflexivity. }
    rewrite (binary_round_aux_kept s _ f Hk).
    destruct (Z.leb_spec f (emax - prec)) as [_|Hgt];
      [|unfold emax, prec in Hgt; lia].
    cbn [within]. apply Z.leb_le. rewrite digits_iter_xO. lia.
Qed.

Lemma binary_normalize_within M e j sz :
  Z.abs M < 2 ^ (j - e) -> 0 <= j <= 1023 ->
  within (j + 1) (binary_normalize prec emax M e sz) = true.
Proof.
  intros HM Hj. destruct M as [|m|m]; cbn [binary_normalize];
    [reflexivity | |]; now apply binary_round_within.
Qed.

Lemma within_le k k' x : within k x = true -> k <= k' -> within k' x = true.
Proof.
  destruct x as [| | |s m e]; cbn [within]; try easy.
  rewrite !Z.leb_le. lia.
Qed.

Lemma within_finite k x : within k x = true -> is_finite x = true.
Proof. now destruct x. Qed.

(** A number of order at most [k], written at a lower exponent. *)
Lemma within_magnitude s m e k ez :
  within k (S754_finite s m e) = true -> ez <= e ->
  0 < Zpos m * 2 ^ (e - ez) < 2 ^ (k - ez).
Proof.
  cbn [within]. rewrite Z.leb_le. intros Hk He.
  pose proof (digits2_pos_bounds m) as [_ Hu].
  assert (Hp : 0 < 2 ^ (e - ez)) by (apply Z.pow_pos_nonneg; lia).
  assert (Hle : 2 ^ Zpos (digits2_pos m) <= 2 ^ (k - e))
    by (apply Z.pow_le_mono_r; lia).
  replace (k - ez) with ((k - e) + (e - ez)) by lia.
  rewrite Z.pow_add_r by lia. nia.
Qed.

(** Sums and differences of numbers of order at most [k] have order at
    most [k + 2]; in particular they are finite. *)
Lemma add_sub_within x y k :
  within k x = true -> within k y = true -> 0 <= k <= 1021 ->
  within (k + 2) (add x y) = true /\ within (k + 2) (sub x y) = true.
Proof.
  intros Hx Hy Hk.
  destruct x as [sx| | |sx mx ex], y as [sy| | |sy my ey];
    try discriminate Hx; try discriminate Hy.
  - destruct sx, sy; split; reflexivity.
  - split; cbn [add sub SFadd SFsub]; apply (within_le k); cbn [within] in *;
      try assumption; lia.
  - split; cbn [add sub SFadd SFsub]; apply (within_le k); cbn [within] in *;
      try assumption; lia.
  - set (ez := Z.min ex ey).
    pose proof (within_magnitude sx mx ex k ez Hx ltac:(lia)) as Ha.
    pose proof (within_magnitude sy my ey k ez Hy ltac:(lia)) as Hb.
    assert (Hp : 2 ^ (k + 1 - ez) = 2 * 2 ^ (k - ez)).
    { replace (k + 1 - ez) with (Z.succ (k - ez)) by lia.
      apply Z.pow_succ_r.
      destruct (Z.le_gt_cases 0 (k - ez)) as [H|H]; [exact H|].
      rewrite (Z.pow_neg_r 2 (k - ez)) in Ha by lia. lia. }
    replace (k + 2) with ((k + 1) + 1) by lia.
    split; cbn [add sub SFadd SFsub]; fold ez;
      apply binary_normalize_within; try lia;
      rewrite !shl_align_fst by lia; rewrite Hp;
      destruct sx, sy; cbn [cond_Zopp]; lia.
Qed.

(** ** Absorption *)

(** A 53-bit mantissa at exponent [ex], perturbed by less than a quarter
    of its last place, rounds back to itself. *)
Lemma binary_round_absorb s (mx p : positive) ex ey (delta : Z) :
  Zpos (digits2_pos mx) = 53 -> -1074 <= ey -> ey + 2 <= ex <= 971 ->
  4 * Z.abs delta < 2 ^ (ex - ey) ->
  Zpos p = Zpos mx * 2 ^ (ex - ey) + delta ->
  binary_round prec emax s p ey = S754_finite s mx ex.
Proof.
  intros Hdx Hey Hex Hdelta Hp.
  set (T := 2 ^ (ex - ey - 2)).
  assert (HT : 0 < T) by (apply Z.pow_pos_nonneg; lia).
  assert (Ha : 2 ^ (ex - ey) = 4 * T).
  { unfold T. replace (ex - ey) with (2 + (ex - ey - 2)) at 1 by lia.
    rewrite Z.pow_add_r by lia. reflexivity. }
  rewrite Ha in Hdelta, Hp.
  pose proof (digits2_pos_bounds mx) as Hmx. rewrite Hdx in Hmx.
  change (2 ^ (53 - 1)) with 4503599627370496 in Hmx.
  change (2 ^ 53) with 9007199254740992 in Hmx.
  set (d := Zpos (digits2_pos p)).
  assert (Hlow : 2 ^ (51 + (ex - ey)) < Zpos p).
  { rewrite Z.pow_add_r, Ha by lia.
    change (2 ^ 51) with 2251799813685248. nia. }
  assert (Hupp : Zpos p < 2 ^ (53 + (ex - ey))).
  { rewrite Z.pow_add_r, Ha by lia.
    change (2 ^ 53) with 9007199254740992. nia. }
  assert (Hd : d = 52 + (ex - ey) \/ d = 53 + (ex - ey)).
  { pose proof (digits_below p _ Hupp) as Hle. fold d in Hle.
    pose proof (digits2_pos_bounds p) as [_ Hu]. fold d in Hu.
    destruct (Z.le_gt_cases d (51 + (ex - ey))) as [H|H]; [|lia].
    exfalso. assert (2 ^ d <= 2 ^ (51 + (ex - ey)))
      by (apply Z.pow_le_mono_r; lia). lia. }
  assert (Hn : -1021 <= d + ey) by lia.
  rewrite binary_round_no_shift
    by (fold d; rewrite (fexp_normal _ Hn); lia).
  destruct (round_shape s p ey Hn ltac:(fold d; lia)) as (m1 & Hnear & Hb & ->).
  fold d in Hnear |- *.
  change (2 ^ 52) with 4503599627370496 in Hb.
  change (2 ^ 53) with 9007199254740992 in *.
  destruct Hd as [Hd|Hd].
  - (* the perturbation took a bit off a power of two *)
    replace (d - 53) with (1 + (ex - ey - 2)) in Hnear by lia.
    rewrite Z.pow_add_r in Hnear by lia. fold T in Hnear.
    change (2 ^ 1) with 2 in Hnear.
    assert (Hpow : Zpos p < 4 * T * 4503599627370496).
    { pose proof (digits2_pos_bounds p) as [_ Hu]. fold d in Hu.
      rewrite Hd in Hu. replace (52 + (ex - ey)) with (54 + (ex - ey - 2)) in Hu by lia.
      rewrite Z.pow_add_r in Hu by lia. fold T in Hu.
      change (2 ^ 54) with 18014398509481984 in Hu. lia. }
    assert (Emx : Zpos mx = 4503599627370496) by nia.
    assert (Em1 : m1 = 9007199254740992) by nia.
    rewrite Em1. cbn [Z.ltb Z.compare Pos.compare Pos.compare_cont].
    replace (d + ey - 52) with ex by lia.
    destruct (Z.leb_spec ex 971); [|lia].
    f_equal. apply Pos2Z.inj. now rewrite Emx.
  - replace (d - 53) with (2 + (ex - ey - 2)) in Hnear by lia.
    rewrite Z.pow_add_r in Hnear by lia. fold T in Hnear.
    change (2 ^ 2) with 4 in Hnear.
    assert (Em1 : m1 = Zpos mx) by nia.
    rewrite Em1. destruct (Z.ltb_spec (Zpos mx) 9007199254740992); [|lia].
    replace (d + ey - 53) with ex by lia.
    destruct (Z.leb_spec ex 971); [|lia].
    now rewrite Pos2Z.id.
Qed.

Lemma binary_normalize_signed s P e sz :
  0 < P ->
  binary_normalize prec emax (cond_Zopp s P) e sz =
  binary_round prec emax s (Z.to_pos P) e.
Proof. intros HP. destruct P as [|p|p]; try lia. now destruct s. Qed.

(** A number beyond [2^100] absorbs the addition or subtraction of a
    number below [2^40]. *)
Lemma add_sub_absorb x y :
  valid x = true -> valid y = true ->
  beyond 100 x = true -> within 40 y = true ->
  add x y = x /\ sub x y = x.
Proof.
  intros Vx Vy Bx Wy.
  destruct x as [| | |sx mx ex]; try discriminate Bx.
  destruct y as [sy| | |sy my ey]; try discriminate Wy; [now split|].
  cbn [beyond] in Bx. apply Z.ltb_lt in Bx.
  destruct (valid_finite _ _ _ Vx) as [Hex [Hdx|[Hdx ?]]]; [|lia].
  destruct (valid_finite _ _ _ Vy) as [Hey _].
  pose proof (within_magnitude sy my ey 40 ey Wy ltac:(lia)) as Hmy.
  rewrite Z.sub_diag, Z.mul_1_r in Hmy.
  cbn [within] in Wy. apply Z.leb_le in Wy.
  pose proof (digits2_pos_bounds my) as [Hmy1 _].
  assert (Hey' : ey <= 39) by lia.
  assert (Hq : 4 * Zpos my < 2 ^ (ex - ey)).
  { assert (2 ^ (42 - ey) <= 2 ^ (ex - ey)) by (apply Z.pow_le_mono_r; lia).
    replace (42 - ey) with (2 + (40 - ey)) in H by lia.
    rewrite Z.pow_add_r in H by lia. change (2 ^ 2) with 4 in H. lia. }
  assert (HA : 4503599627370496 * 2 ^ (ex - ey) <= Zpos mx * 2 ^ (ex - ey)).
  { pose proof (digits2_pos_bounds mx) as [Hl _]. rewrite Hdx in Hl.
    change (2 ^ (53 - 1)) with 4503599627370496 in Hl.
    apply Z.mul_le_mono_nonneg_r; [apply Z.pow_nonneg|]; lia. }
  cbn [add sub SFadd SFsub].
  replace (Z.min ex ey) with ey by lia.
  rewrite !shl_align_fst by lia.
  rewrite Z.sub_diag, Z.mul_1_r.
  set (A := Zpos mx * 2 ^ (ex - ey)) in *.
  assert (Eadd : cond_Zopp sx A + cond_Zopp sy (Zpos my) =
                 cond_Zopp sx (A + (if Bool.eqb sx sy then Zpos my else - Zpos my))).
  { destruct sx, sy; cbn [cond_Zopp Bool.eqb]; lia. }
  assert (Esub : cond_Zopp sx A - cond_Zopp sy (Zpos my) =
                 cond_Zopp sx (A + (if Bool.eqb sx sy then - Zpos my else Zpos my))).
  { destruct sx, sy; cbn [cond_Zopp Bool.eqb]; lia. }
  rewrite Eadd, Esub.
  split; (rewrite binary_normalize_signed by (destruct (Bool.eqb sx sy); lia)).
  - apply (binary_round_absorb sx mx _ ex ey
             (if Bool.eqb sx sy then Zpos my else - Zpos my));
      try assumption; try lia; destruct (Bool.eqb sx sy); lia.
  - apply (binary_round_absorb sx mx _ ex ey
             (if Bool.eqb sx sy then - Zpos my else Zpos my));
      try assumption; try lia; destruct (Bool.eqb sx sy); lia.
Qed.

(** ** Order *)

Lemma lt_asym x y : lt x y = true -> lt y x = true -> False.
Proof.
  unfold lt, SFltb.
  destruct x as [sx|sx| |sx mx ex], y as [sy|sy| |sy my ey];
    cbn [SFcompare]; try discriminate;
    try (destruct sx; discriminate); try (destruct sy; discriminate);
    try (destruct sx, sy; discriminate).
  destruct sx, sy; try discriminate;
    rewrite (Z.compare_antisym ex ey);
    destruct (ex ?= ey); cbn [CompOpp]; try discriminate;
    change (Pos.compare_cont Eq my mx) with (my ?= mx)%positive;
    change (Pos.compare_cont Eq mx my) with (mx ?= my)%positive;
    rewrite (Pos.compare_antisym mx my);
    destruct (mx ?= my)%positive; discriminate.
Qed.

(** A number beyond [2^k] does not lie between two numbers below [2^k]. *)
Lemma lt_between x y z k :
  0 <= k -> valid x = true -> valid y = true -> valid z = true ->
  beyond k x = true -> within k y = true -> within k z = true ->
  lt y x = true -> lt x z = true -> False.
Proof.
  intros Hk Vx Vy Vz Bx Wy Wz.
  destruct x as [| | |sx mx ex]; try discriminate Bx.
  cbn [beyond] in Bx. apply Z.ltb_lt in Bx.
  destruct (valid_finite _ _ _ Vx) as [Hex [Hdx|[Hdx ?]]]; [|lia].
  assert (Hlow : forall s m e,
             valid (S754_finite s m e) = true ->
             within k (S754_finite s m e) = true -> e < ex).
  { intros s m e V W. cbn [within] in W. apply Z.leb_le in W.
    destruct (valid_finite _ _ _ V) as [He [Hd|[Hd ?]]]; lia. }
  unfold lt, SFltb. destruct sx.
  - intros Hy _. revert Hy.
    destruct y as [sy| | |sy my ey]; try discriminate Wy; cbn [SFcompare];
      [discriminate|].
    destruct sy; [|discriminate].
    pose proof (Hlow _ _ _ Vy Wy) as Hlt.
    apply Z.compare_lt_iff in Hlt. rewrite Hlt. discriminate.
  - intros _. 
    destruct z as [sz| | |sz mz ez]; try discriminate Wz; cbn [SFcompare];
      [discriminate|].
    destruct sz; [discriminate|].
    pose proof (Hlow _ _ _ Vz Wz) as Hlt.
    apply Z.compare_gt_iff in Hlt. rewrite Hlt. discriminate.
Qed.

Lemma within_or_beyond k x :
  is_finite x = true -> within k x = true \/ beyond k x = true.
Proof.
  destruct x as [| | |s m e]; try discriminate; intros _; [now left|].
  cbn [within beyond].
  destruct (Z.leb_spec (Zpos (digits2_pos m) + e) k); [now left|right].
  now apply Z.ltb_lt.
Qed.

Lemma beyond_le k k' x : beyond k x = true -> k' <= k -> beyond k' x = true.
Proof.
  destruct x as [| | |s m e]; cbn [beyond]; try easy.
  rewrite !Z.ltb_lt. lia.
Qed.

(** Integers of the range of a [long], and their halves. *)
Lemma ofDyadic_within a e :
  Z.abs a <= 2 ^ 31 -> -1 <= e <= 0 ->
  valid (ofDyadic a e) = true /\ within 40 (ofDyadic a e) = true.
Proof.
  intros Ha He. split; [apply binary_normalize_valid|].
  apply (binary_normalize_within a e 39); [|lia].
  assert (2 ^ 39 <= 2 ^ (39 - e)) by (apply Z.pow_le_mono_r; lia).
  change (2 ^ 31) with 2147483648 in Ha.
  change (2 ^ 39) with 549755813888 in H. lia.
Qed.

Lemma infinite_absorb x y k :
  is_finite x = false -> within k y = true -> add x y = x /\ sub x y = x.
Proof.
  destruct x as [| sx | |]; try discriminate; intros _;
    destruct y as [| | |]; try discriminate; intros _; now split.
Qed.

(** ** An element that passes the visibility test is near the viewport *)

Theorem active_factor_finite (s t : number) (v h : Z) :
  valid s = true -> valid t = true ->
  Z.abs v <= 2 ^ 31 -> Z.abs h <= 2 ^ 31 ->
  isInViewport s (ofZ v) t (ofZ h) = true ->
  is_finite (add (sub s t) (div (ofZ v) (ofZ 2))) = true.
Proof.
  intros Vs Vt Hv Hh Hact.
  destruct (ofDyadic_within v 0 Hv ltac:(lia)) as [VV WV].
  destruct (ofDyadic_within h 0 Hh ltac:(lia)) as [VH WH].
  destruct (ofDyadic_within 200 0 ltac:(simpl; lia) ltac:(lia)) as [V2 W2].
  destruct (ofDyadic_within v (-1) Hv ltac:(lia)) as [Vhalf Whalf].
  assert (Eh : div (ofDyadic v 0) (ofZ 2) = ofDyadic v (-1)).
  { apply (half_ofDyadic v 0); [|lia].
    change (2 ^ 31) with 2147483648 in Hv.
    change (2 ^ 53) with 9007199254740992. lia. }
  rewrite <- Eh in Vhalf, Whalf. clear Eh.
  change (ofDyadic v 0) with (ofZ v) in *.
  change (ofDyadic h 0) with (ofZ h) in *.
  change (ofDyadic 200 0) with (ofZ 200) in *.
  unfold isInViewport, gt in Hact. fold (lt (sub s (ofZ 200)) (add t (ofZ h))) in Hact.
  apply andb_true_iff in Hact as [H1 H2].
  set (V := ofZ v) in *. set (H := ofZ h) in *. set (c := ofZ 200) in *.
  set (half := div V (ofZ 2)) in *.
  (* the scroll offset is finite *)
  destruct (is_finite s) eqn:Fs.
  2:{ exfalso.
      destruct (infinite_absorb s V 40 Fs WV) as [E1 _].
      destruct (infinite_absorb s c 40 Fs W2) as [E2 E3].
      rewrite E1, E2 in H1. rewrite E3 in H2.
      destruct s as [|[|]| |]; try discriminate Fs.
      - now destruct t as [|[|]| |].
      - now destruct (add t H) as [|[|]| |].
      - now destruct t. }
  (* and so is the position of the element *)
  destruct (is_finite t) eqn:Ft.
  2:{ exfalso.
      destruct (infinite_absorb t H 40 Ft WH) as [E1 _].
      rewrite E1 in H2.
      destruct t as [|[|]| |]; try discriminate Ft.
      - now destruct (sub s c) as [|[|]| |].
      - now destruct (add (add s V) c) as [|[|]| |].
      - discriminate H1. }
  destruct (within_or_beyond 200 s Fs) as [Ws|Bs];
    destruct (within_or_beyond 200 t Ft) as [Wt|Bt].
  - (* both are moderate: nothing overflows *)
    destruct (add_sub_within s t 200 Ws Wt ltac:(lia)) as [_ Wd].
    destruct (add_sub_within (sub s t) half 202 Wd
                (within_le 40 202 _ Whalf ltac:(lia)) ltac:(lia)) as [Wf _].
    exact (within_finite _ _ Wf).
  - (* a huge position absorbs the height *)
    exfalso.
    destruct (add_sub_absorb t H Vt VH (beyond_le 200 100 _ Bt ltac:(lia)) WH)
      as [E1 _].
    rewrite E1 in H2.
    destruct (within_or_beyond 100 s Fs) as [Ws'|Bs'].
    + destruct (add_sub_within s V 100 Ws' (within_le 40 100 _ WV ltac:(lia))
                  ltac:(lia)) as [Wa _].
      destruct (add_sub_within (add s V) c 102 Wa (within_le 40 102 _ W2 ltac:(lia))
                  ltac:(lia)) as [Wb _].
      destruct (add_sub_within s c 100 Ws' (within_le 40 100 _ W2 ltac:(lia))
                  ltac:(lia)) as [_ Wc].
      apply (lt_between t (sub s c) (add (add s V) c) 200); try assumption;
        try lia.
      * now apply sub_valid.
      * apply add_valid; [now apply add_valid | assumption].
      * apply (within_le 102); [assumption | lia].
      * apply (within_le 104); [assumption | lia].
    + destruct (add_sub_absorb s V Vs VV Bs' WV) as [E2 _].
      destruct (add_sub_absorb s c Vs V2 Bs' W2) as [E3 E4].
      rewrite E2, E3 in H1. rewrite E4 in H2.
      exact (lt_asym _ _ H1 H2).
  - (* a huge scroll offset absorbs the viewport and the margins *)
    exfalso.
    pose proof (beyond_le 200 100 _ Bs ltac:(lia)) as Bs'.
    destruct (add_sub_absorb s V Vs VV Bs' WV) as [E2 _].
    destruct (add_sub_absorb s c Vs V2 Bs' W2) as [E3 E4].
    rewrite E2, E3 in H1. rewrite E4 in H2.
    destruct (within_or_beyond 100 t Ft) as [Wt'|Bt'].
    + destruct (add_sub_within t H 100 Wt' (within_le 40 100 _ WH ltac:(lia))
                  ltac:(lia)) as [Wa _].
      apply (lt_between s t (add t H) 200); try assumption; try lia.
      * now apply add_valid.
      * apply (within_le 102); [assumption | lia].
    + destruct (add_sub_absorb t H Vt VH Bt' WH) as [E1 _].
      rewrite E1 in H2.
      exact (lt_asym _ _ H1 H2).
  - exfalso.
    pose proof (beyond_le 200 100 _ Bs ltac:(lia)) as Bs'.
    pose proof (beyond_le 200 100 _ Bt ltac:(lia)) as Bt'.
    destruct (add_sub_absorb s V Vs VV Bs' WV) as [E2 _].
    destruct (add_sub_absorb s c Vs V2 Bs' W2) as [E3 E4].
    destruct (add_sub_absorb t H Vt VH Bt' WH) as [E1 _].
    rewrite E2, E3 in H1. rewrite E4, E1 in H2.
    exact (lt_asym _ _ H1 H2).
Qed.


(* ===================================================================== *)
(** * Facts about [parseFloat]                                            *)
(* ===================================================================== *)

Lemma takeDigits_nonNumeric (l : list ascii) :
  nonNumeric l -> takeDigits l = ([], l).
Proof.
  intros [|c l' Hc _]; [reflexivity|]. simpl. now rewrite Hc.
Qed.

Lemma scanSign_nonNumeric (l : list ascii) :
  nonNumeric l -> nonNumeric (snd (scanSign l)).
Proof.
  intros [|c l' Hc Hl']; simpl; [constructor|].
  destruct (code c =? 45); [exact Hl'|].
  destruct (code c =? 43); [exact Hl'|].
  now constructor.
Qed.

Lemma scanExponent_nonNumeric (l : list ascii) :
  nonNumeric l -> scanExponent l = 0.
Proof.
  intros Hl. destruct l as [|c l']; [reflexivity|]. simpl.
  destruct (isExponentIndicator c); [|reflexivity].
  inversion Hl as [|? ? _ Hl']; subst.
  pose proof (scanSign_nonNumeric l' Hl') as Hs.
  destruct (scanSign l') as [sg l'']. simpl in Hs.
  now rewrite (takeDigits_nonNumeric l'' Hs).
Qed.

Lemma list_ascii_of_string_app (a b : string) :
  list_ascii_of_string (a ++ b) =
  list_ascii_of_string a ++ list_ascii_of_string b.
Proof. induction a as [|c a IH]; simpl; [reflexivity | now rewrite IH]. Qed.

Section Suffix.

(** What follows the literal: characters with no digit among them. *)
Variable r : list ascii.
Hypothesis Hr : nonNumeric r.

Lemma takeDigits_app (x : list ascii) :
  takeDigits (x ++ r) = (fst (takeDigits x), snd (takeDigits x) ++ r).
Proof.
  induction x as [|c x IH]; simpl.
  - now apply takeDigits_nonNumeric.
  - destruct (isDigit c); [|reflexivity].
    rewrite IH. now destruct (takeDigits x).
Qed.

Lemma scanSign_app (x : list ascii) :
  x <> [] ->
  scanSign (x ++ r) = (fst (scanSign x), snd (scanSign x) ++ r).
Proof.
  destruct x as [|c x]; [congruence|]. intros _. simpl.
  destruct (code c =? 45); [reflexivity|].
  destruct (code c =? 43); reflexivity.
Qed.

Lemma scanExponent_app (x : list ascii) :
  scanExponent (x ++ r) = scanExponent x.
Proof.
  destruct x as [|c x]; [now apply scanExponent_nonNumeric|]. simpl.
  destruct (isExponentIndicator c); [|reflexivity].
  destruct x as [|d x].
  - simpl. pose proof (scanSign_nonNumeric r Hr) as Hs.
    destruct (scanSign r) as [sg r'']. simpl in Hs.
    now rewrite (takeDigits_nonNumeric r'' Hs).
  - rewrite scanSign_app by congruence.
    destruct (scanSign (d :: x)) as [sg x']. simpl fst. simpl snd.
    rewrite takeDigits_app. reflexivity.
Qed.

Lemma prefixb_app (pat x : list ascii) :
  prefixb pat x = true -> prefixb pat (x ++ r) = true.
Proof.
  revert x. induction pat as [|p pat IH]; intros [|c x]; simpl; try easy.
  intros H. apply andb_true_iff in H as [-> H]. now apply IH.
Qed.

(** A literal found in [x] is not changed by appending [r]: a longer
    literal would need a digit of [r], or the rest of "Infinity" after a
    strict prefix of it, which is no literal. *)
Lemma scanUnsigned_app (x : list ascii) :
  scanUnsigned x <> None -> scanUnsigned (x ++ r) = scanUnsigned x.
Proof.
  intros Hx. unfold scanUnsigned in *.
  destruct (prefixb Infinity_word x) eqn:Hp.
  - now rewrite (prefixb_app _ _ Hp).
  - destruct (prefixb Infinity_word (x ++ r)) eqn:Hp'.
    + exfalso. apply Hx.
      destruct x as [|c x]; [reflexivity|].
      unfold Infinity_word in Hp'. cbn [list_ascii_of_string] in Hp'.
      change ((c :: x) ++ r) with (c :: (x ++ r)) in Hp'.
      cbn [prefixb] in Hp'. apply andb_true_iff in Hp' as [Hc _].
      apply Ascii.eqb_eq in Hc. subst c. reflexivity.
    + rewrite takeDigits_app.
      destruct (takeDigits x) as [ip r1]. simpl fst. simpl snd.
      destruct r1 as [|c r2].
      * (* the digits run up to the end of x *)
        cbn [app].
        destruct ip as [|i ip]; [congruence|].
        destruct r as [|c r2]; [reflexivity|].
        inversion Hr as [|? ? Hc Hr2]; subst.
        destruct (isDot c).
        -- rewrite (takeDigits_nonNumeric r2 Hr2), app_nil_r.
           now rewrite (scanExponent_nonNumeric r2 Hr2).
        -- now rewrite (scanExponent_nonNumeric (c :: r2) Hr).
      * cbn [app]. destruct (isDot c).
        -- rewrite takeDigits_app.
           destruct (takeDigits r2) as [fp r3]. simpl fst. simpl snd.
           now rewrite scanExponent_app.
        -- destruct ip; [reflexivity|].
           change (c :: r2 ++ r) with ((c :: r2) ++ r).
           now rewrite scanExponent_app.
Qed.

Lemma skipWhiteSpace_app (x : list ascii) :
  skipWhiteSpace x <> [] ->
  skipWhiteSpace (x ++ r) = skipWhiteSpace x ++ r.
Proof.
  induction x as [|c x IH]; simpl; [congruence|].
  destruct (isWhiteSpace c); [exact IH | reflexivity].
Qed.

Lemma parseFloat_chars_app (x : list ascii) :
  is_nan (parseFloat_chars x) = false ->
  parseFloat_chars (x ++ r) = parseFloat_chars x.
Proof.
  unfold parseFloat_chars. intros Hx.
  assert (Hne : skipWhiteSpace x <> []).
  { intros E. rewrite E in Hx. discriminate. }
  rewrite (skipWhiteSpace_app x Hne), (scanSign_app _ Hne).
  destruct (scanSign (skipWhiteSpace x)) as [sg y]. simpl fst. simpl snd.
  rewrite scanUnsigned_app; [reflexivity|].
  intros E. rewrite E in Hx. discriminate.
Qed.

End Suffix.

Lemma parseFloat_app (p r : string) :
  nonNumeric (list_ascii_of_string r) ->
  is_nan (parseFloat p) = false ->
  parseFloat (p ++ r) = parseFloat p.
Proof.
  intros Hr Hp. unfold parseFloat.
  rewrite list_ascii_of_string_app. now apply parseFloat_chars_app.
Qed.

(** ** The fallback [|| 0] *)

Lemma eqb_refl (x : number) : is_nan x = false -> Number.eqb x x = true.
Proof.
  destruct x as [s|s| |s m e]; try easy; intros _; unfold Number.eqb, SFeqb; simpl.
  - now destruct s.
  - rewrite Z.compare_refl.
    change (Pos.compare_cont Eq m m) with (Pos.compare m m).
    rewrite Pos.compare_refl. now destruct s.
Qed.

Lemma or_else_nan (x y : number) : is_nan x = true -> or_else x y = y.
Proof. destruct x; easy. Qed.

Lemma or_else_zero (x y : number) : is_zero x = true -> or_else x y = y.
Proof. destruct x; easy. Qed.

Lemma or_else_number (x y : number) :
  is_nan x = false -> is_zero x = false -> or_else x y = x.
Proof. destruct x; easy. Qed.

Lemma or_else_eqb (x : number) :
  is_nan x = false -> Number.eqb (or_else x (ofZ 0)) x = true.
Proof.
  intros Hx. destruct (is_zero x) eqn:Hz.
  - rewrite or_else_zero by exact Hz. now destruct x as [[]| | |].
  - rewrite or_else_number by assumption. now apply eqb_refl.
Qed.

Lemma depthOf_not_nan (element : Element) : is_nan (depthOf element) = false.
Proof.
  unfold depthOf, or_else.
  destruct (parseFloat_attribute (data_depth element)); reflexivity.
Qed.

(* ===================================================================== *)
(** * Facts about the scheduler                                           *)
(* ===================================================================== *)

Lemma registered_updateParallax st :
  registered st -> readyStateLoading st = false -> registered (updateParallax st).
Proof.
  intros [H1 H2 H3 H4 H5 H6 H7] Hl. constructor; simpl; try assumption.
  intros E. congruence.
Qed.

Lemma registered_requestTick st :
  registered st -> readyStateLoading st = false -> registered (requestTick st).
Proof.
  intros R Hl. unfold requestTick. destruct (negb (ticking st)); [|exact R].
  destruct R as [H1 H2 H3 H4 H5 H6 H7]. constructor; simpl; try assumption.
  - apply Forall_app. split; [assumption | now constructor].
  - intros E. congruence.
Qed.

Lemma onResize_timers st :
  registered st ->
  timers (onResize st) = [mkTimer (nextTimerId st) (now st + 150) cbUpdateParallax] /\
  resizeTimeout (onResize st) = Some (nextTimerId st).
Proof.
  intros R. unfold onResize, setTimeout, clearTimeout.
  destruct (reg_timers st R) as [Ht|(id & due & Ht & Hr & _)].
  - destruct (resizeTimeout st); simpl; rewrite Ht; split; reflexivity.
  - rewrite Hr. simpl. rewrite Ht. simpl. rewrite Nat.eqb_refl. simpl.
    split; reflexivity.
Qed.

Lemma registered_onResize st :
  registered st -> readyStateLoading st = false -> registered (onResize st).
Proof.
  intros R Hl. pose proof (onResize_timers st R) as [Ht Hr].
  destruct R as [H1 H2 H3 H4 H5 H6 H7].
  constructor; try (right; exists (nextTimerId st), (now st + 150)).
  all: unfold onResize, setTimeout, clearTimeout in *;
    destruct (resizeTimeout st); simpl in *; try assumption;
    try (intros E; congruence).
  all: repeat split; try assumption; lia.
Qed.

Lemma registered_init st :
  unstarted st ->
  domContentLoadedListeners st = [] \/ domContentLoadedListeners st = [cbInit] ->
  matchMediaCalls st = 1%nat ->
  readyStateLoading st = false ->
  registered (init st).
Proof.
  intros (H1 & H2 & H3 & H4 & H5 & H6) Hd Hm Hl.
  unfold init, initParallax.
  destruct (prefersReducedMotion st).
  - constructor; rewrite ?H1, ?H2, ?H3, ?H4; auto. congruence.
  - cbn [parallaxElements set_parallaxElements].
    destruct (length (querySelectorAll_data_depth st) =? 0)%nat.
    + constructor; simpl; rewrite ?H1, ?H2, ?H3, ?H4; auto. congruence.
    + constructor; simpl; rewrite ?H1, ?H2, ?H3, ?H4; auto. congruence.
Qed.

Lemma registered_call st cb :
  registered st -> readyStateLoading st = false ->
  cb <> cbInit ->
  registered (call cb st) /\ readyStateLoading (call cb st) = false.
Proof.
  intros R Hl Hcb. destruct cb; [congruence| | |]; simpl.
  - split; [now apply registered_requestTick|].
    unfold requestTick. now destruct (negb (ticking st)).
  - split; [now apply registered_onResize|].
    unfold onResize, setTimeout, clearTimeout. now destruct (resizeTimeout st).
  - split; [now apply registered_updateParallax | exact Hl].
Qed.

Lemma registered_dispatch cbs st :
  Forall (fun cb => cb <> cbInit) cbs ->
  registered st -> readyStateLoading st = false ->
  registered (dispatch cbs st) /\ readyStateLoading (dispatch cbs st) = false.
Proof.
  unfold dispatch. revert st.
  induction cbs as [|cb cbs IH]; intros st Hc R Hl; simpl; [now split|].
  inversion Hc as [|? ? Hcb Hcbs]; subst.
  destruct (registered_call st cb R Hl Hcb) as [R' Hl'].
  now apply IH.
Qed.

Lemma dueTimers_nil t : dueTimers t [] = [].
Proof. reflexivity. Qed.

Lemma dueTimers_one t tm :
  dueTimers t [tm] = if timer_due tm <=? t then [tm] else [].
Proof. unfold dueTimers. simpl. now destruct (timer_due tm <=? t). Qed.

Lemma registered_set_now st t :
  registered st -> now st <= t ->
  (forall id due, timers st = [mkTimer id due cbUpdateParallax] -> t < due) ->
  registered (set_now t st).
Proof.
  intros [H1 H2 H3 H4 H5 H6 H7] Ht Hd. constructor; simpl; try assumption.
  destruct H5 as [H5|(id & due & H5 & Hr & Hn)]; [now left|].
  right. exists id, due. repeat split; try assumption. now apply (Hd id due).
Qed.

Lemma elapse_idle st dt :
  timers st = [] -> elapse dt st = set_now (now st + Z.max 0 dt) st.
Proof. intros H. unfold elapse. now rewrite H. Qed.

Lemma elapse_waiting st dt id due cb :
  timers st = [mkTimer id due cb] -> now st + Z.max 0 dt < due ->
  elapse dt st = set_now (now st + Z.max 0 dt) st.
Proof.
  intros H Hd. unfold elapse. rewrite H, dueTimers_one. simpl.
  destruct (Z.leb_spec due (now st + Z.max 0 dt)); [lia | reflexivity].
Qed.

Lemma elapse_firing st dt id due cb :
  timers st = [mkTimer id due cb] -> due <= now st + Z.max 0 dt ->
  elapse dt st =
  set_now (now st + Z.max 0 dt)
    (call cb (set_now (Z.max (now st) due) (set_timers [] st))).
Proof.
  intros H Hd. unfold elapse. rewrite H, dueTimers_one. simpl.
  destruct (Z.leb_spec due (now st + Z.max 0 dt)); [|lia].
  simpl. unfold fire, pending. rewrite H. simpl. rewrite Nat.eqb_refl. simpl.
  unfold clearTimeout. rewrite H. simpl. rewrite Nat.eqb_refl. reflexivity.
Qed.

Lemma registered_elapse st dt :
  registered st -> readyStateLoading st = false ->
  registered (elapse dt st) /\ readyStateLoading (elapse dt st) = false.
Proof.
  intros R Hl.
  destruct (reg_timers st R) as [Ht|(id & due & Ht & Hr & Hn)].
  - rewrite (elapse_idle st dt Ht). split; [|exact Hl].
    apply registered_set_now; [exact R | lia |].
    intros id due E. congruence.
  - destruct (Z.le_gt_cases due (now st + Z.max 0 dt)) as [Hd|Hd].
    + rewrite (elapse_firing st dt id due _ Ht Hd). split; [|exact Hl].
      destruct R as [H1 H2 H3 H4 H5 H6 H7].
      constructor; simpl; try assumption; [now left | congruence].
    + rewrite (elapse_waiting st dt id due _ Ht ltac:(lia)). split; [|exact Hl].
      apply registered_set_now; [exact R | lia |].
      intros id' due' E. rewrite Ht in E. inversion E; subst. lia.
Qed.

Lemma registered_listeners st :
  registered st ->
  Forall (fun cb => cb <> cbInit) (scrollListeners st) /\
  Forall (fun cb => cb <> cbInit) (resizeListeners st) /\
  Forall (fun cb => cb <> cbInit) (frameCallbacks st).
Proof.
  intros R. repeat split.
  - destruct (reg_scroll st R) as [->| ->]; repeat constructor; congruence.
  - destruct (reg_resize st R) as [->| ->]; repeat constructor; congruence.
  - eapply Forall_impl; [apply (reg_frame st R)|]. simpl. congruence.
Qed.

Ltac registered_fields R :=
  let R1 := fresh "R" in let R2 := fresh "R" in let R3 := fresh "R" in
  let R4 := fresh "R" in let R5 := fresh "R" in let R6 := fresh "R" in
  let R7 := fresh "R" in let E := fresh "E" in
  destruct R as [R1 R2 R3 R4 R5 R6 R7]; constructor; simpl; auto;
  try (intros E; try congruence;
       destruct (R6 E) as (? & ? & ? & ? & ? & ?); repeat split; auto).

Lemma registered_step st ev : registered st -> registered (step st ev).
Proof.
  intros R. destruct (registered_listeners st R) as (Ls & Lr & Lf).
  destruct (readyStateLoading st) eqn:Hl.
  - (* the document is still loading: nothing is registered but init *)
    destruct (reg_loading st R Hl) as (H1 & H2 & H3 & H4 & H5 & H6).
    destruct ev; simpl; rewrite ?Hl, ?H1, ?H2, ?H3; simpl.
    + destruct (reg_dom st R) as [Hd|Hd]; rewrite Hd; simpl.
      * registered_fields R.
      * apply registered_init; simpl.
        -- repeat split; assumption.
        -- now right.
        -- apply (reg_media st R).
        -- reflexivity.
    + registered_fields R.
    + registered_fields R.
    + registered_fields R.
    + rewrite (elapse_idle st dt H4).
      apply registered_set_now; [exact R | lia |]. intros ? ? E. congruence.
    + registered_fields R.
    + registered_fields R.
    + registered_fields R.
    + registered_fields R.
  - destruct ev; simpl; rewrite ?Hl.
    + exact R.
    + apply registered_dispatch; [exact Ls | | exact Hl]. registered_fields R.
    + apply registered_dispatch; [exact Lr | | exact Hl]. registered_fields R.
    + apply registered_dispatch; [exact Lf | | exact Hl]. registered_fields R.
    + now apply registered_elapse.
    + registered_fields R.
    + registered_fields R.
    + registered_fields R.
    + registered_fields R.
Qed.

Lemma registered_script reduced loading y h d :
  registered (script (fresh reduced loading y h d)).
Proof.
  unfold script. cbn [matchMedia_matches fresh].
  destruct loading.
  - constructor; simpl; auto; repeat split; reflexivity.
  - apply registered_init; simpl; auto.
    repeat split; reflexivity.
Qed.

Theorem reachable_registered st : reachable st -> registered st.
Proof.
  induction 1 as [reduced loading y h d | st ev _ IH].
  - apply registered_script.
  - now apply registered_step.
Qed.

(** ** Reduced motion *)

Lemma inert_step st ev :
  inert st ->
  inert (step st ev) /\ document (step st ev) = environment ev (document st).
Proof.
  intros (Hp & H1 & H2 & H3 & H4 & H5 & H6). unfold inert.
  destruct ev; cbn [step]; rewrite ?H1, ?H2, ?H3, ?(elapse_idle st _ H4); simpl.
  - destruct (readyStateLoading st); [|repeat split; auto].
    destruct H6 as [H6|H6]; rewrite H6; simpl.
    + repeat split; auto.
    + unfold init, initParallax. simpl. rewrite Hp. simpl.
      repeat split; auto.
  - repeat split; auto.
  - repeat split; auto.
  - repeat split; auto.
  - repeat split; auto.
  - repeat split; auto.
  - repeat split; auto.
  - repeat split; auto.
  - repeat split; auto.
Qed.

Lemma inert_run evs st :
  inert st ->
  inert (run evs st) /\
  document (run evs st) =
  fold_left (fun d ev => environment ev d) evs (document st).
Proof.
  unfold run. revert st. induction evs as [|ev evs IH]; intros st Hi; simpl.
  - now split.
  - destruct (inert_step st ev Hi) as [Hi' Hd].
    destruct (IH _ Hi') as [Hi'' Hd'']. split; [exact Hi''|].
    now rewrite Hd'', Hd.
Qed.

Lemma inert_script loading y h d :
  inert (script (fresh true loading y h d)) /\
  document (script (fresh true loading y h d)) = d.
Proof.
  unfold script, inert. simpl. destruct loading; simpl.
  - repeat split; auto.
  - unfold init, initParallax. simpl. repeat split; auto.
Qed.

(** The captured preference and the number of reads never change. *)
Lemma captured_call cb st :
  prefersReducedMotion (call cb st) = prefersReducedMotion st /\
  matchMediaCalls (call cb st) = matchMediaCalls st.
Proof.
  destruct cb; simpl.
  - unfold init, initParallax. destruct (prefersReducedMotion st) eqn:E; [auto|].
    cbn [parallaxElements set_parallaxElements].
    destruct (length (querySelectorAll_data_depth st) =? 0)%nat; simpl; auto.
  - unfold requestTick. destruct (negb (ticking st)); simpl; auto.
  - unfold onResize, setTimeout, clearTimeout.
    destruct (resizeTimeout st); simpl; auto.
  - auto.
Qed.

Lemma captured_dispatch cbs st :
  prefersReducedMotion (dispatch cbs st) = prefersReducedMotion st /\
  matchMediaCalls (dispatch cbs st) = matchMediaCalls st.
Proof.
  unfold dispatch. revert st. induction cbs as [|cb cbs IH]; intros st; simpl.
  - auto.
  - destruct (IH (call cb st)) as [-> ->]. apply captured_call.
Qed.

Lemma captured_fire tms st :
  prefersReducedMotion (fold_left fire tms st) = prefersReducedMotion st /\
  matchMediaCalls (fold_left fire tms st) = matchMediaCalls st.
Proof.
  revert st. induction tms as [|tm tms IH]; intros st; simpl; [auto|].
  destruct (IH (fire st tm)) as [-> ->]. unfold fire.
  destruct (pending (timer_id tm) st); [|auto].
  destruct (captured_call (timer_callback tm)
              (set_now (Z.max (now (clearTimeout (Some (timer_id tm)) st))
                          (timer_due tm))
                 (clearTimeout (Some (timer_id tm)) st))) as [-> ->].
  simpl. auto.
Qed.

Lemma captured_step st ev :
  prefersReducedMotion (step st ev) = prefersReducedMotion st /\
  matchMediaCalls (step st ev) = matchMediaCalls st.
Proof.
  destruct ev; simpl; auto.
  - destruct (readyStateLoading st); [|auto].
    destruct (captured_dispatch (domContentLoadedListeners st)
                (set_readyStateLoading false st)) as [-> ->]. auto.
  - destruct (captured_dispatch (scrollListeners st) (set_scrollY y st))
      as [-> ->]. auto.
  - destruct (captured_dispatch (resizeListeners st) (set_innerHeight h st))
      as [-> ->]. auto.
  - destruct (captured_dispatch (frameCallbacks st) (set_frameCallbacks [] st))
      as [-> ->]. auto.
  - unfold elapse. simpl. apply captured_fire.
Qed.

Lemma captured_run evs st :
  prefersReducedMotion (run evs st) = prefersReducedMotion st /\
  matchMediaCalls (run evs st) = matchMediaCalls st.
Proof.
  unfold run. revert st. induction evs as [|ev evs IH]; intros st; simpl.
  - auto.
  - destruct (IH (step st ev)) as [-> ->]. apply captured_step.
Qed.

Lemma captured_script reduced loading y h d :
  prefersReducedMotion (script (fresh reduced loading y h d)) = reduced /\
  matchMediaCalls (script (fresh reduced loading y h d)) = 1%nat.
Proof.
  unfold script. simpl. destruct loading; simpl; [auto|].
  apply (captured_call cbInit).
Qed.

(** ** Coalescing *)

Lemma calmly_reachable st : calmly st -> reachable st.
Proof. induction 1; now constructor. Qed.

Lemma coalesced_init st :
  unstarted st -> coalesced (init st).
Proof.
  intros (H1 & H2 & H3 & H4 & H5 & H6). unfold coalesced, init, initParallax.
  destruct (prefersReducedMotion st); [now rewrite H3, H5|].
  cbn [parallaxElements set_parallaxElements].
  destruct (length (querySelectorAll_data_depth st) =? 0)%nat; simpl;
    now rewrite H3, ?H5.
Qed.

Lemma coalesced_step st ev :
  registered st -> coalesced st -> calm st ev -> coalesced (step st ev).
Proof.
  intros R C Hc. unfold coalesced in *.
  destruct (readyStateLoading st) eqn:Hl.
  - destruct (reg_loading st R Hl) as (H1 & H2 & H3 & H4 & H5 & H6).
    destruct ev; cbn [step];
      rewrite ?Hl, ?H1, ?H2, ?H3, ?(elapse_idle st _ H4); simpl;
      try (now rewrite ?H3, ?H5).
    destruct (reg_dom st R) as [Hd|Hd]; rewrite Hd; simpl.
    + now rewrite H3, H5.
    + apply coalesced_init. repeat split; assumption.
  - destruct ev; cbn [step]; rewrite ?Hl; try exact C.
    + destruct (reg_scroll st R) as [Hs|Hs]; rewrite Hs; simpl; [exact C|].
      unfold requestTick. simpl.
      destruct (ticking st) eqn:Ht; simpl; rewrite ?Ht; [exact C|].
      now rewrite C.
    + destruct (reg_resize st R) as [Hs|Hs]; rewrite Hs; simpl; [exact C|].
      unfold onResize, setTimeout, clearTimeout.
      destruct (resizeTimeout st); simpl; exact C.
    + rewrite C. destruct (ticking st) eqn:Ht; simpl; [reflexivity|].
      now rewrite Ht.
    + destruct (reg_timers st R) as [Ht|(id & due & Ht & Hr & Hn)].
      * now rewrite (elapse_idle st dt Ht).
      * destruct (Z.le_gt_cases due (now st + Z.max 0 dt)) as [Hd|Hd].
        -- rewrite (elapse_firing st dt id due _ Ht Hd). simpl.
           destruct (ticking st) eqn:Hk; [|exact C].
           exfalso. specialize (Hc Hk).
           rewrite Ht, dueTimers_one in Hc. simpl in Hc.
           destruct (Z.leb_spec due (now st + Z.max 0 dt)); [discriminate | lia].
        -- now rewrite (elapse_waiting st dt id due _ Ht ltac:(lia)).
Qed.

Theorem calmly_coalesced st : calmly st -> coalesced st.
Proof.
  induction 1 as [reduced loading y h d | st ev Hs IH Hc].
  - unfold script. cbn [matchMedia_matches fresh]. destruct loading.
    + reflexivity.
    + apply coalesced_init. repeat split; reflexivity.
  - apply coalesced_step; [|exact IH|exact Hc].
    now apply reachable_registered, calmly_reachable.
Qed.





Lemma scroll_step st y :
  scrollListeners st = [cbRequestTick] -> coalesced st ->
  let st' := step st (evScroll y) in
  scrollListeners st' = [cbRequestTick] /\ coalesced st' /\
  ticking st' = true /\ passes st' = passes st /\ now st' = now st.
Proof.
  intros Hs C. unfold coalesced in *. cbn [step]. rewrite Hs.
  unfold dispatch. simpl. unfold requestTick. simpl.
  destruct (ticking st) eqn:Ht; simpl; rewrite ?Ht, ?C; auto.
Qed.

Lemma scroll_burst ys st :
  scrollListeners st = [cbRequestTick] -> coalesced st -> ys <> [] ->
  let st' := run (map evScroll ys) st in
  scrollListeners st' = [cbRequestTick] /\ coalesced st' /\
  ticking st' = true /\ passes st' = passes st /\ now st' = now st.
Proof.
  unfold run. revert st. induction ys as [|y ys IH]; intros st Hs C Hne;
    [congruence|].
  cbn [map fold_left].
  destruct (scroll_step st y Hs C) as (Hs' & C' & Ht' & Hp' & Hn').
  destruct ys as [|y' ys].
  - cbn [map fold_left]. auto.
  - assert (Hne' : y' :: ys <> []) by discriminate.
    destruct (IH (step st (evScroll y)) Hs' C' Hne')
      as (Hs'' & C'' & Ht'' & Hp'' & Hn'').
    repeat split; try assumption; congruence.
Qed.

Lemma frame_step st :
  coalesced st -> ticking st = true ->
  let st' := step st evFrame in
  passes st' = now st :: passes st /\ frameCallbacks st' = [] /\
  ticking st' = false.
Proof.
  intros C Ht. unfold coalesced in C. rewrite Ht in C.
  cbn [step]. rewrite C. simpl. auto.
Qed.

(** ** Debouncing *)

Lemma onResize_fields st :
  resizeListeners (onResize st) = resizeListeners st /\
  now (onResize st) = now st /\ passes (onResize st) = passes st.
Proof.
  unfold onResize, setTimeout, clearTimeout.
  destruct (resizeTimeout st); simpl; auto.
Qed.

Lemma resize_step st h :
  registered st -> resizeListeners st = [cbResize] ->
  let st' := step st (evResize h) in
  timers st' = [mkTimer (nextTimerId st) (now st + 150) cbUpdateParallax] /\
  armed (now st) st' /\ passes st' = passes st.
Proof.
  intros R Hr.
  assert (E : step st (evResize h) = onResize (set_innerHeight h st)).
  { cbn [step]. rewrite Hr. reflexivity. }
  cbv zeta. rewrite E.
  assert (R' : registered (set_innerHeight h st)) by registered_fields R.
  destruct (onResize_timers _ R') as [Ht Hid].
  destruct (onResize_fields (set_innerHeight h st)) as (F1 & F2 & F3).
  split; [exact Ht|]. split; [|exact F3].
  unfold armed. rewrite F1, F2. repeat split; [exact Hr|].
  exists (nextTimerId st). split; [exact Ht | exact Hid].
Qed.

Lemma armed_wait t st dt :
  armed t st -> 0 <= dt < 150 ->
  let st' := step st (evElapse dt) in
  resizeListeners st' = [cbResize] /\ now st' = t + dt /\
  timers st' = timers st /\ resizeTimeout st' = resizeTimeout st /\
  passes st' = passes st.
Proof.
  intros (Hr & Hn & id & Ht & Hid) Hdt. cbn [step].
  rewrite (elapse_waiting st dt id (t + 150) _ Ht) by lia. simpl.
  repeat split; auto. lia.
Qed.

Lemma armed_fire t st dt :
  armed t st -> 150 <= dt ->
  let st' := step st (evElapse dt) in
  passes st' = (t + 150) :: passes st /\ timers st' = [] /\ now st' = t + dt.
Proof.
  intros (Hr & Hn & id & Ht & Hid) Hdt. cbn [step].
  rewrite (elapse_firing st dt id (t + 150) _ Ht) by lia. simpl.
  repeat split; [f_equal|]; lia.
Qed.

Lemma armed_burst rest : forall t st,
  registered st -> armed t st ->
  Forall (fun p => 0 <= fst p < 150) rest ->
  let st' := run (resizeBurst rest) st in
  registered st' /\ armed (t + burstDuration rest) st' /\
  passes st' = passes st.
Proof.
  unfold run. induction rest as [|[dt h] rest IH]; intros t st R A Hg.
  - simpl. rewrite Z.add_0_r. auto.
  - inversion Hg as [|? ? Hdt Hg']; subst. simpl in Hdt.
    cbn [resizeBurst fold_left burstDuration].
    destruct (armed_wait t st dt A Hdt) as (Hr1 & Hn1 & Ht1 & Hid1 & Hp1).
    pose proof (registered_step st (evElapse dt) R) as R1.
    destruct (resize_step _ h R1 Hr1) as (_ & A2 & Hp2).
    pose proof (registered_step _ (evResize h) R1) as R2.
    rewrite Hn1 in A2.
    destruct (IH (t + dt) _ R2 A2 Hg') as (R3 & A3 & Hp3).
    split; [exact R3|]. split.
    + now rewrite Z.add_assoc.
    + congruence.
Qed.

(* ===================================================================== *)
(** * The offset computation                                              *)
(* ===================================================================== *)








(** C6.  A missing or non-numeric [data-depth] gives the depth
    coefficient 0.  With depth 0 the offset [(s - elementTop + v/2) * d] is
    zero, and is written [0px], whenever the other factor is finite.  That
    factor is finite whenever the offset is computed at all, that is for
    every element that passes the visibility test, whatever the scroll
    offset, the position and the heights are; it is also finite, active
    or not, for measurements on a pixel grid.  The depth coefficient is
    never [NaN]: nothing in the computation of a depth fails. *)
Theorem depth_zero_fallback :
  (forall element : Element,
      data_depth element = None -> depthOf element = ofZ 0) /\
  (forall element : Element,
      is_nan (parseFloat_attribute (data_depth element)) = true ->
      depthOf element = ofZ 0) /\
  (forall s v elementTop d : number,
      is_zero d = true ->
      is_finite (add (sub s elementTop) (div v (ofZ 2))) = true ->
      Number.eqb (offsetOf s v elementTop d) (ofZ 0) = true /\
      translate3d (offsetOf s v elementTop d) = "translate3d(0, 0px, 0)"%string) /\
  (forall (s elementTop d : number) (v h : Z),
      valid s = true -> valid elementTop = true ->
      Z.abs v <= 2 ^ 31 -> Z.abs h <= 2 ^ 31 ->
      is_zero d = true ->
      isInViewport s (ofZ v) elementTop (ofZ h) = true ->
      Number.eqb (offsetOf s (ofZ v) elementTop d) (ofZ 0) = true /\
      translate3d (offsetOf s (ofZ v) elementTop d)
      = "translate3d(0, 0px, 0)"%string) /\
  (forall (g ns nt v : Z) (d : number),
      0 <= g <= 20 -> Z.abs ns <= 2 ^ 50 -> Z.abs nt <= 2 ^ 50 ->
      Z.abs v <= 2 ^ 31 ->
      is_zero d = true ->
      let s := ofDyadic ns (- g) in
      let elementTop := ofDyadic nt (- g) in
      Number.eqb (offsetOf s (ofZ v) elementTop d) (ofZ 0) = true /\
      translate3d (offsetOf s (ofZ v) elementTop d)
      = "translate3d(0, 0px, 0)"%string) /\
  (forall element : Element, is_nan (depthOf element) = false).
Proof.
  split; [|split; [|split; [|split; [|split]]]].
  - intros element H. unfold depthOf. rewrite H. reflexivity.
  - intros element H. unfold depthOf. now apply or_else_nan.
  - apply offsetOf_zero.
  - intros s elementTop d v h Vs Vt Hv Hh Hd Hact.
    apply offsetOf_zero; [exact Hd|].
    now apply (active_factor_finite s elementTop v h).
  - intros g ns nt v d Hg Hs Ht Hv Hd s elementTop.
    apply offsetOf_zero; [exact Hd|].
    now apply grid_factor.
  - apply depthOf_not_nan.
Qed.

Lemma depth_zero_fallback_witness :
  depthOf Sample.plain = ofZ 0 /\
  depthOf (Sample.layer (Some "deep"%string) EmptyString) = ofZ 0 /\
  translate3d (offsetOf (ofZ 500) (ofZ 800) (ofZ 1000) (ofZ 0)) =
  "translate3d(0, 0px, 0)"%string.
Proof.
  destruct depth_zero_fallback as (Hmissing & Hnan & Hzero & _ & _ & _).
  split; [|split].
  - apply Hmissing. reflexivity.
  - apply Hnan. reflexivity.
  - apply Hzero; reflexivity.
Defined.

(** C9.  A tracked element that passes the visibility test has its
    transform assigned in the pass whatever it was before, also at depth
    0: a missing or unparseable attribute then gives
    [translate3d(0, 0px, 0)], for every scroll offset and position of the
    element and all heights in the range of a [long]. *)
Theorem active_transform_overwritten
    (st : State) (i : nat) (element : Element) :
  i ∈ parallaxElements st ->
  document st !! i = Some element ->
  let s := scrollY st in
  let v := ofZ (innerHeight st) in
  let elementTop := add (rect_top element) s in
  isInViewport s v elementTop (ofZ (offsetHeight element)) = true ->
  style_transform <$> document (updateParallax st) !! i =
  Some (translate3d (offsetOf s v elementTop (depthOf element))) /\
  (is_zero (depthOf element) = true ->
   valid s = true -> valid (rect_top element) = true ->
   Z.abs (innerHeight st) <= 2 ^ 31 ->
   Z.abs (offsetHeight element) <= 2 ^ 31 ->
   style_transform <$> document (updateParallax st) !! i =
   Some "translate3d(0, 0px, 0)"%string).
Proof.
  intros Hi Hl s v elementTop Hv.
  assert (H : style_transform <$> document (updateParallax st) !! i =
              Some (translate3d (offsetOf s v elementTop (depthOf element)))).
  { rewrite updateParallax_lookup.
    destruct (decide (i ∈ parallaxElements st)) as [_|Hn]; [|contradiction].
    rewrite Hl. simpl. rewrite updateElement_active by exact Hv. reflexivity. }
  split; [exact H|].
  intros Hz Vs Vr Hh Ho. rewrite H. f_equal.
  apply offsetOf_zero; [exact Hz|].
  apply (active_factor_finite s elementTop (innerHeight st)
           (offsetHeight element)); try assumption.
  now apply add_valid.
Qed.

Lemma active_transform_overwritten_witness :
  style_transform <$> document (updateParallax Sample.restyled) !! 2%nat =
  Some "translate3d(0, 0px, 0)"%string.
Proof.
  apply (active_transform_overwritten Sample.restyled 2%nat
           (set_transform "rotate(3deg)" Sample.muted)).
  - vm_compute. right. left.
  - reflexivity.
  - vm_compute. reflexivity.
  - reflexivity.
  - reflexivity.
  - reflexivity.
  - vm_compute. discriminate.
  - vm_compute. discriminate.
Defined.

(** C10.  When [data-depth] is a numeric prefix followed by characters
    none of which is a digit, the depth coefficient is the number the
    prefix denotes: "1.5abc" gives 1.5, not 0.  The fallback only replaces
    [NaN] (and turns [-0] into [+0], the same number). *)
Theorem numeric_prefix_depth :
  (forall (element : Element) (p r : string),
      data_depth element = Some (p ++ r)%string ->
      is_nan (parseFloat p) = false ->
      nonNumeric (list_ascii_of_string r) ->
      Number.eqb (depthOf element) (parseFloat p) = true /\
      (is_zero (parseFloat p) = false -> depthOf element = parseFloat p)) /\
  (forall element : Element,
      data_depth element = Some "1.5abc"%string ->
      depthOf element = div (ofZ 3) (ofZ 2) /\
      Number.eqb (depthOf element) (ofZ 0) = false) /\
  (forall element : Element,
      is_nan (parseFloat_attribute (data_depth element)) = false ->
      Number.eqb (depthOf element)
                 (parseFloat_attribute (data_depth element)) = true).
Proof.
  split; [|split].
  - intros element p r Hd Hp Hr. unfold depthOf. rewrite Hd.
    cbn [parseFloat_attribute]. rewrite (parseFloat_app p r Hr Hp).
    split.
    + now apply or_else_eqb.
    + intros Hz. now apply or_else_number.
  - intros element Hd. unfold depthOf. rewrite Hd. split; reflexivity.
  - intros element Hp. unfold depthOf. now apply or_else_eqb.
Qed.

Lemma numeric_prefix_depth_witness :
  depthOf (Sample.layer (Some "-2.5e1px"%string) EmptyString) = ofZ (-25).
Proof.
  apply (proj1 numeric_prefix_depth
           (Sample.layer (Some "-2.5e1px"%string) EmptyString)
           "-2.5e1"%string "px"%string).
  - reflexivity.
  - reflexivity.
  - repeat constructor.
  - reflexivity.
Defined.

(* ===================================================================== *)
(** * Scheduling                                                          *)
(* ===================================================================== *)

(** C4.  When the preference for reduced motion is set at startup, the
    script registers no scroll or resize listener, queues nothing, runs no
    pass, and the document is only ever what the rest of the world makes
    it, whatever happens afterwards (toggling the preference included).
    The preference is read once, as the first thing the script does, and
    the value kept is the one read then. *)
Theorem reduced_motion_inert :
  (forall (loading : bool) (y : number) (h : Z) (d : list Element)
          (evs : list Event),
      let st := run evs (script (fresh true loading y h d)) in
      scrollListeners st = [] /\ resizeListeners st = [] /\
      frameCallbacks st = [] /\ timers st = [] /\ passes st = [] /\
      document st = fold_left (fun d ev => environment ev d) evs d) /\
  (forall (reduced loading : bool) (y : number) (h : Z) (d : list Element)
          (evs : list Event),
      let st := run evs (script (fresh reduced loading y h d)) in
      prefersReducedMotion st = reduced /\ matchMediaCalls st = 1%nat).
Proof.
  split.
  - intros loading y h d evs st.
    destruct (inert_script loading y h d) as [Hi Hd].
    destruct (inert_run evs _ Hi) as [(_ & H1 & H2 & H3 & H4 & H5 & _) Hdoc].
    repeat split; try assumption.
    unfold st. now rewrite Hdoc, Hd.
  - intros reduced loading y h d evs st. unfold st.
    destruct (captured_run evs (script (fresh reduced loading y h d)))
      as [-> ->].
    apply captured_script.
Qed.




(** C5.  Every resize notification replaces the pending timer by one due
    150 ms later.  A burst of resize notifications less than 150 ms apart
    runs no pass while it lasts and none in the 150 ms after its last
    notification; exactly one pass runs 150 ms after the last one, and no
    timer is left. *)
Theorem resize_debounce :
  (forall (st : State) (h : Z),
      reachable st -> resizeListeners st = [cbResize] ->
      timers (step st (evResize h)) =
      [mkTimer (nextTimerId st) (now st + 150) cbUpdateParallax]) /\
  (forall (st : State) (h : Z) (rest : list (Z * Z)) (T : Z),
      reachable st -> resizeListeners st = [cbResize] ->
      Forall (fun p => 0 <= fst p < 150) rest ->
      let st' := run (evResize h :: resizeBurst rest) st in
      let last := now st + burstDuration rest in
      passes st' = passes st /\
      (0 <= T < 150 -> passes (step st' (evElapse T)) = passes st) /\
      (150 <= T ->
       passes (step st' (evElapse T)) = (last + 150) :: passes st /\
       timers (step st' (evElapse T)) = [])).
Proof.
  split.
  - intros st h Hre Hr.
    now apply resize_step; [apply reachable_registered|].
  - intros st h rest T Hre Hr Hg st' last.
    pose proof (reachable_registered st Hre) as R.
    destruct (resize_step st h R Hr) as (_ & A & Hp).
    pose proof (registered_step st (evResize h) R) as R1.
    destruct (armed_burst rest (now st) _ R1 A Hg) as (R2 & A2 & Hp2).
    change (run (resizeBurst rest) (step st (evResize h))) with st' in *.
    fold last in A2.
    split; [congruence|]. split.
    + intros HT.
      destruct (armed_wait last st' T A2 HT) as (_ & _ & _ & _ & Hp3).
      congruence.
    + intros HT.
      destruct (armed_fire last st' T A2 HT) as (Hp3 & Ht3 & _).
      split; [congruence | exact Ht3].
Qed.

Lemma resize_debounce_witness :
  passes (step (run (evResize 850 :: resizeBurst Trace.dragging)
                  Sample.started) (evElapse 1000)) =
  (now Sample.started + burstDuration Trace.dragging + 150)
    :: passes Sample.started.
Proof.
  pose proof (proj2 resize_debounce Sample.started 850 Trace.dragging
                1000) as H.
  cbv zeta in H.
  destruct H as (_ & _ & H).
  - apply reach_script.
  - reflexivity.
  - repeat constructor; simpl; lia.
  - destruct H as [Hp _]; [lia | exact Hp].
Defined.

(* ===================================================================== *)
(** * Linearity in the depth coefficient                                  *)
(* ===================================================================== *)

(** Against C8 as stated.  With [s = 500], [elementTop = 1000], [v = 800]
    the factor [s - elementTop + v/2] is -100; for [d = 0.1] and [k = 3]
    the offset at [k * d] is -30.000000000000004 and [k] times the offset
    at [d] is -30.  With the factor 1.5 and the smallest positive depth,
    [5e-324], doubling the depth gives 1.5e-323 and doubling the offset
    gives 2e-323. *)
Lemma offset_not_linear :
  let d := parseFloat "0.1" in
  let k := ofZ 3 in
  let tiny := parseFloat "5e-324" in
  offsetOf (ofZ 500) (ofZ 800) (ofZ 1000) (mul k d) <>
  mul k (offsetOf (ofZ 500) (ofZ 800) (ofZ 1000) d) /\
  offsetOf (ofZ 0) (ofZ 3) (ofZ 0) (mul (ofZ 2) tiny) <>
  mul (ofZ 2) (offsetOf (ofZ 0) (ofZ 3) (ofZ 0) tiny).
Proof. split; vm_compute; discriminate. Qed.

(** C8 (as the code has it).  For a fixed scroll offset, element position
    and viewport height, replacing the depth [d] by [2 * d] exactly doubles
    the offset, provided [2 * d] is finite and the exact product does not
    fall below the normal range of binary64. *)
Theorem offset_doubling (s elementTop d : number) (v : Z) :
  valid s = true -> valid elementTop = true -> Z.abs v < 2 ^ 53 ->
  valid d = true ->
  is_finite (mul (ofZ 2) d) = true ->
  noUnderflow (add (sub s elementTop) (div (ofZ v) (ofZ 2))) d = true ->
  offsetOf s (ofZ v) elementTop (mul (ofZ 2) d) =
  mul (ofZ 2) (offsetOf s (ofZ v) elementTop d).
Proof.
  intros Hs Ht Hv Hd Hf Hn. unfold offsetOf.
  apply mul_doubling; try assumption.
  apply add_valid; [now apply sub_valid | now apply half_valid].
Qed.

Lemma offset_doubling_witness :
  offsetOf (ofZ 500) (ofZ 800) (ofZ 1000) (mul (ofZ 2) (parseFloat "0.1")) =
  mul (ofZ 2) (offsetOf (ofZ 500) (ofZ 800) (ofZ 1000) (parseFloat "0.1")).
Proof.
  apply (offset_doubling (ofZ 500) (ofZ 1000) (parseFloat "0.1") 800);
    reflexivity.
Defined.

(* ===================================================================== *)
(** * Further properties of the parallax component                        *)
(* ===================================================================== *)

(** ** The tracked set *)

Lemma call_tracked cb st :
  cb <> cbInit -> parallaxElements (call cb st) = parallaxElements st.
Proof.
  destruct cb; intros H; try congruence; cbn [call].
  - unfold requestTick. now destruct (ticking st).
  - unfold onResize, clearTimeout. now destruct (resizeTimeout st).
  - reflexivity.
Qed.

Lemma call_untracked cb st i :
  cb <> cbInit -> i ∉ parallaxElements st ->
  document (call cb st) !! i = document st !! i.
Proof.
  destruct cb; intros H Hi; try congruence; cbn [call].
  - unfold requestTick. now destruct (ticking st).
  - unfold onResize, clearTimeout. now destruct (resizeTimeout st).
  - rewrite updateParallax_lookup.
    destruct (decide (i ∈ parallaxElements st)); [contradiction | reflexivity].
Qed.

Lemma dispatch_tracked cbs : forall st,
  Forall (fun cb => cb <> cbInit) cbs ->
  parallaxElements (dispatch cbs st) = parallaxElements st /\
  forall i, i ∉ parallaxElements st ->
            document (dispatch cbs st) !! i = document st !! i.
Proof.
  unfold dispatch. induction cbs as [|cb cbs IH]; intros st Hc; simpl.
  - now split.
  - inversion Hc as [|? ? Hcb Hcbs]; subst.
    destruct (IH (call cb st) Hcbs) as [Ht Hd].
    rewrite (call_tracked cb st Hcb) in Ht, Hd. split; [exact Ht|].
    intros i Hi. rewrite (Hd i Hi). now apply call_untracked.
Qed.

Lemma elapse_tracked st dt :
  registered st ->
  parallaxElements (elapse dt st) = parallaxElements st /\
  forall i, i ∉ parallaxElements st ->
            document (elapse dt st) !! i = document st !! i.
Proof.
  intros R.
  destruct (reg_timers st R) as [Ht|(id & due & Ht & Hr & Hn)].
  - rewrite (elapse_idle st dt Ht). now split.
  - destruct (Z.le_gt_cases due (now st + Z.max 0 dt)) as [Hd|Hd].
    + rewrite (elapse_firing st dt id due _ Ht Hd). cbn [call]. split.
      * reflexivity.
      * intros i Hi.
        change (document (updateParallax (set_now (Z.max (now st) due)
                                             (set_timers [] st))) !! i
                = document st !! i).
        rewrite updateParallax_lookup. cbn.
        destruct (decide (i ∈ parallaxElements st)); [contradiction | reflexivity].
    + rewrite (elapse_waiting st dt id due _ Ht ltac:(lia)). now split.
Qed.

(** After initialisation no event changes the tracked set, and what is
    not tracked is changed by the rest of the world only. *)
Lemma step_tracked st ev :
  registered st -> readyStateLoading st = false ->
  parallaxElements (step st ev) = parallaxElements st /\
  (forall i, i ∉ parallaxElements st ->
             document (step st ev) !! i = environment ev (document st) !! i) /\
  readyStateLoading (step st ev) = false.
Proof.
  intros R Hl. destruct (registered_listeners st R) as (Ls & Lr & Lf).
  destruct ev; cbn [step environment].
  - rewrite Hl. now repeat split.
  - destruct (dispatch_tracked (scrollListeners st) (set_scrollY y st) Ls)
      as [Ht Hd].
    destruct (registered_dispatch (scrollListeners st) (set_scrollY y st) Ls)
      as [_ Hl']; [registered_fields R | exact Hl |].
    repeat split; assumption.
  - destruct (dispatch_tracked (resizeListeners st) (set_innerHeight h st) Lr)
      as [Ht Hd].
    destruct (registered_dispatch (resizeListeners st) (set_innerHeight h st) Lr)
      as [_ Hl']; [registered_fields R | exact Hl |].
    repeat split; assumption.
  - destruct (dispatch_tracked (frameCallbacks st) (set_frameCallbacks [] st) Lf)
      as [Ht Hd].
    destruct (registered_dispatch (frameCallbacks st) (set_frameCallbacks [] st) Lf)
      as [_ Hl']; [registered_fields R | exact Hl |].
    repeat split; assumption.
  - destruct (elapse_tracked st dt R) as [Ht Hd].
    destruct (registered_elapse st dt R Hl) as [_ Hl'].
    repeat split; assumption.
  - now repeat split.
  - now repeat split.
  - now repeat split.
  - now repeat split.
Qed.

Lemma environment_lookup ev (d d' : list Element) i :
  d !! i = d' !! i -> environment ev d !! i = environment ev d' !! i.
Proof.
  intros H.
  assert (Hins : forall j (f : Element -> Element),
             match d !! j with Some el => <[j := f el]> d | None => d end !! i =
             match d' !! j with Some el => <[j := f el]> d' | None => d' end !! i).
  { intros j f. destruct (decide (j = i)) as [->|Hne].
    - rewrite <- H. destruct (d !! i) as [el|] eqn:E.
      + rewrite !list_lookup_insert_eq.
        * reflexivity.
        * apply lookup_lt_is_Some. rewrite <- H. eauto.
        * apply lookup_lt_is_Some. rewrite E. eauto.
      + congruence.
    - destruct (d !! j), (d' !! j);
        rewrite ?list_lookup_insert_ne by exact Hne; exact H. }
  destruct ev; cbn [environment]; try exact H.
  - apply (Hins i0 (set_geometry top height)).
  - apply (Hins i0 (set_depth a)).
  - apply (Hins i0 (set_transform t)).
Qed.

Lemma environment_run_lookup evs : forall (d d' : list Element) i,
  d !! i = d' !! i ->
  fold_left (fun d ev => environment ev d) evs d !! i =
  fold_left (fun d ev => environment ev d) evs d' !! i.
Proof.
  induction evs as [|ev evs IH]; intros d d' i H; simpl; [exact H|].
  apply IH. now apply environment_lookup.
Qed.

Lemma run_tracked evs : forall st,
  registered st -> readyStateLoading st = false ->
  parallaxElements (run evs st) = parallaxElements st /\
  (forall i, i ∉ parallaxElements st ->
             document (run evs st) !! i =
             fold_left (fun d ev => environment ev d) evs (document st) !! i) /\
  readyStateLoading (run evs st) = false.
Proof.
  unfold run. induction evs as [|ev evs IH]; intros st R Hl; simpl.
  - now repeat split.
  - destruct (step_tracked st ev R Hl) as (Ht & Hd & Hl').
    destruct (IH _ (registered_step st ev R) Hl') as (Ht' & Hd' & Hl'').
    rewrite Ht in Ht', Hd'. repeat split; try assumption.
    intros i Hi. rewrite (Hd' i Hi).
    apply environment_run_lookup. now apply Hd.
Qed.

Lemma querySelectorAll_from_none (d : list Element) : forall i,
  Forall (fun el => data_depth el = None) d -> querySelectorAll_from i d = [].
Proof.
  induction d as [|el d IH]; intros i H; [reflexivity|].
  inversion H as [|? ? Hel Hd]; subst. cbn [querySelectorAll_from].
  rewrite Hel. now apply IH.
Qed.

Lemma script_tracked reduced y h d :
  parallaxElements (script (fresh reduced false y h d)) =
  if reduced then [] else querySelectorAll_from 0 d.
Proof.
  unfold script, init, initParallax. cbn.
  destruct reduced; [reflexivity|]. cbn.
  unfold querySelectorAll_data_depth. cbn.
  destruct (length (querySelectorAll_from 0 d) =? 0)%nat; reflexivity.
Qed.

(** X1.  The layers are chosen once.  At initialisation the tracked set
    is the list of the nodes that carry [data-depth], in document order;
    after initialisation no event changes it, and a node outside it is
    changed by the rest of the world only, also when it is given a
    [data-depth] attribute later. *)
Theorem tracked_set_fixed :
  (forall (y : number) (h : Z) (d : list Element),
      parallaxElements (script (fresh false false y h d)) =
      querySelectorAll_from 0 d) /\
  (forall (st : State) (evs : list Event),
      reachable st -> readyStateLoading st = false ->
      parallaxElements (run evs st) = parallaxElements st /\
      forall i, i ∉ parallaxElements st ->
        document (run evs st) !! i =
        fold_left (fun d ev => environment ev d) evs (document st) !! i).
Proof.
  split.
  - intros y h d. apply (script_tracked false).
  - intros st evs Hr Hl.
    destruct (run_tracked evs st (reachable_registered st Hr) Hl)
      as (Ht & Hd & _).
    now split.
Qed.

Lemma tracked_set_fixed_witness :
  let evs := [evAttribute 1 (Some "2"%string); evScroll (ofZ 600); evFrame] in
  parallaxElements (run evs Sample.started) = parallaxElements Sample.started /\
  forall i, i ∉ parallaxElements Sample.started ->
    document (run evs Sample.started) !! i =
    fold_left (fun d ev => environment ev d) evs (document Sample.started) !! i.
Proof.
  apply (proj2 tracked_set_fixed Sample.started).
  - apply reach_script.
  - reflexivity.
Defined.

(** ** A page without layers *)

Lemma dormant_step st ev :
  readyStateLoading st = false ->
  scrollListeners st = [] -> resizeListeners st = [] ->
  frameCallbacks st = [] -> timers st = [] ->
  let st' := step st ev in
  readyStateLoading st' = false /\
  scrollListeners st' = [] /\ resizeListeners st' = [] /\
  frameCallbacks st' = [] /\ timers st' = [] /\
  passes st' = passes st /\
  document st' = environment ev (document st).
Proof.
  intros Hl H1 H2 H3 H4.
  destruct ev; cbn [step];
    rewrite ?Hl, ?H1, ?H2, ?H3, ?(elapse_idle st _ H4); simpl;
    repeat split; auto.
Qed.

Lemma dormant_run evs : forall st,
  readyStateLoading st = false ->
  scrollListeners st = [] -> resizeListeners st = [] ->
  frameCallbacks st = [] -> timers st = [] ->
  let st' := run evs st in
  scrollListeners st' = [] /\ resizeListeners st' = [] /\
  frameCallbacks st' = [] /\ timers st' = [] /\
  passes st' = passes st /\
  document st' = fold_left (fun d ev => environment ev d) evs (document st).
Proof.
  unfold run. induction evs as [|ev evs IH]; intros st Hl H1 H2 H3 H4; simpl.
  - repeat split; auto.
  - destruct (dormant_step st ev Hl H1 H2 H3 H4)
      as (Hl' & H1' & H2' & H3' & H4' & Hp & Hd).
    destruct (IH _ Hl' H1' H2' H3' H4') as (A & B & C & D & E & F).
    repeat split; auto; congruence.
Qed.

(** X2.  On a page without any [data-depth] element [initParallax]
    returns before it registers anything: there is no scroll or resize
    listener, no frame callback, no timer and no pass, ever, and the
    document is what the rest of the world makes it (also when attributes
    are added later). *)
Theorem no_layers_no_work
    (reduced : bool) (y : number) (h : Z) (d : list Element)
    (evs : list Event) :
  Forall (fun el => data_depth el = None) d ->
  let st := run evs (script (fresh reduced false y h d)) in
  scrollListeners st = [] /\ resizeListeners st = [] /\
  frameCallbacks st = [] /\ timers st = [] /\ passes st = [] /\
  document st = fold_left (fun d ev => environment ev d) evs d.
Proof.
  intros Hd.
  assert (E : script (fresh reduced false y h d) =
              set_parallaxElements []
                (set_prefersReducedMotion reduced
                   (set_matchMediaCalls 1 (fresh reduced false y h d))) \/
              script (fresh reduced false y h d) =
              set_prefersReducedMotion reduced
                (set_matchMediaCalls 1 (fresh reduced false y h d))).
  { unfold script, init, initParallax. cbn.
    destruct reduced; [now right|]. cbn.
    unfold querySelectorAll_data_depth. cbn.
    rewrite (querySelectorAll_from_none d 0 Hd). now left. }
  destruct E as [E|E]; rewrite E; now apply dormant_run.
Qed.

Lemma no_layers_no_work_witness :
  let evs := [evAttribute 0 (Some "0.5"%string); evScroll (ofZ 10); evFrame;
              evResize 600; evElapse 200] in
  let st := run evs (script (fresh false false (ofZ 0) 800 [Sample.plain])) in
  scrollListeners st = [] /\ resizeListeners st = [] /\
  frameCallbacks st = [] /\ timers st = [] /\ passes st = [] /\
  document st = fold_left (fun d ev => environment ev d) evs [Sample.plain].
Proof.
  apply (no_layers_no_work false (ofZ 0) 800 [Sample.plain]).
  repeat constructor.
Defined.

(** X3.  In every state of a page there is at most one scroll listener,
    one resize listener and one pending timer.  The pending timer is the
    one [resizeTimeout] names, it calls [updateParallax] and it is due in
    the future; nothing but [updateParallax] is ever queued for a frame. *)
Theorem single_registration (st : State) :
  reachable st ->
  (length (scrollListeners st) <= 1)%nat /\
  (length (resizeListeners st) <= 1)%nat /\
  (length (timers st) <= 1)%nat /\
  (forall tm, tm ∈ timers st ->
     timer_callback tm = cbUpdateParallax /\
     resizeTimeout st = Some (timer_id tm) /\ now st < timer_due tm) /\
  (forall cb, cb ∈ frameCallbacks st -> cb = cbUpdateParallax).
Proof.
  intros Hr. pose proof (reachable_registered st Hr) as R.
  split; [|split; [|split; [|split]]].
  - destruct (reg_scroll st R) as [->| ->]; simpl; lia.
  - destruct (reg_resize st R) as [->| ->]; simpl; lia.
  - destruct (reg_timers st R) as [->|(id & due & -> & _)]; simpl; lia.
  - intros tm Hin.
    destruct (reg_timers st R) as [E|(id & due & E & Hid & Hn)];
      rewrite E in Hin.
    + inversion Hin.
    + apply list_elem_of_singleton in Hin. subst tm. now repeat split.
  - intros cb Hin. pose proof (reg_frame st R) as F.
    rewrite Forall_forall in F. now apply F.
Qed.

Lemma single_registration_witness :
  let st := run [evResize 700; evElapse 100; evResize 600] Sample.started in
  (length (scrollListeners st) <= 1)%nat /\
  (length (resizeListeners st) <= 1)%nat /\
  (length (timers st) <= 1)%nat /\
  (forall tm, tm ∈ timers st ->
     timer_callback tm = cbUpdateParallax /\
     resizeTimeout st = Some (timer_id tm) /\ now st < timer_due tm) /\
  (forall cb, cb ∈ frameCallbacks st -> cb = cbUpdateParallax).
Proof.
  apply (single_registration
           (run [evResize 700; evElapse 100; evResize 600] Sample.started)).
  unfold run. cbn [fold_left]. repeat apply reach_step. apply reach_script.
Defined.


(** ** The sign of the depth *)

Lemma finish_neg s r : finish (negb s) r = neg (finish s r).
Proof.
  unfold finish. destruct r as [r e].
  destruct (shr_fexp prec emax _ e loc_Exact) as [r2 e2].
  destruct (shr_m r2); try reflexivity.
  now destruct (e2 <=? emax - prec).
Qed.

Lemma mul_neg (x d : number) : mul x (neg d) = neg (mul x d).
Proof.
  destruct x as [sx|sx| |sx mx ex], d as [sd|sd| |sd md ed];
    try reflexivity; cbn [mul SFmul neg SFopp];
    try (now destruct sx, sd).
  rewrite !binary_round_aux_finish.
  replace (xorb sx (negb sd)) with (negb (xorb sx sd)) by now destruct sx, sd.
  apply finish_neg.
Qed.

Lemma parseFloat_minus (p : string) :
  match list_ascii_of_string p with
  | c :: _ => isDigit c || isDot c
  | [] => false
  end = true ->
  parseFloat ("-" ++ p) = neg (parseFloat p).
Proof.
  unfold parseFloat. cbn [append list_ascii_of_string].
  destruct (list_ascii_of_string p) as [|c l]; [discriminate|].
  intros Hc. unfold parseFloat_chars.
  change (skipWhiteSpace ("-"%char :: c :: l)) with ("-"%char :: c :: l).
  change (scanSign ("-"%char :: c :: l)) with (true, c :: l).
  assert (Hw : isWhiteSpace c = false /\ (code c =? 45) = false /\
               (code c =? 43) = false).
  { unfold isDigit, isDot, isWhiteSpace in *.
    destruct (Z.eqb_spec (code c) 45), (Z.eqb_spec (code c) 43);
      repeat split; try reflexivity; try lia.
    all: destruct (Z.leb_spec 9 (code c)), (Z.leb_spec (code c) 13),
           (Z.eqb_spec (code c) 32), (Z.eqb_spec (code c) 160);
      try reflexivity; exfalso;
      destruct (Z.leb_spec 48 (code c)), (Z.leb_spec (code c) 57),
        (Z.eqb_spec (code c) 46); cbn in Hc; try discriminate; lia. }
  destruct Hw as (Hw & Hm & Hp).
  cbn [skipWhiteSpace]. rewrite Hw. cbn [scanSign]. rewrite Hm, Hp.
  destruct (scanUnsigned (c :: l)); reflexivity.
Qed.

(** X5.  Negating the depth negates the offset, exactly.  In particular
    an element whose [data-depth] is a minus sign followed by [p] gets the
    negated offset of an element at the same place whose [data-depth] is
    [p], for every [p] that starts with a digit or a dot and denotes a
    number other than 0. *)
Theorem offset_mirrored :
  (forall s v elementTop d : number,
      offsetOf s v elementTop (neg d) = neg (offsetOf s v elementTop d)) /\
  (forall (s v : number) (element mirrored : Element) (p : string),
      data_depth element = Some p ->
      data_depth mirrored = Some ("-" ++ p)%string ->
      rect_top mirrored = rect_top element ->
      match list_ascii_of_string p with
      | c :: _ => isDigit c || isDot c
      | [] => false
      end = true ->
      is_nan (parseFloat p) = false -> is_zero (parseFloat p) = false ->
      offsetOf s v (elementTopOf s mirrored) (depthOf mirrored) =
      neg (offsetOf s v (elementTopOf s element) (depthOf element))).
Proof.
  split.
  - intros s v elementTop d. unfold offsetOf. apply mul_neg.
  - intros s v element mirrored p He Hm Ht Hc Hn Hz.
    unfold depthOf, elementTopOf. rewrite He, Hm, Ht.
    cbn [parseFloat_attribute]. rewrite (parseFloat_minus p Hc).
    rewrite (or_else_number (parseFloat p)) by assumption.
    rewrite or_else_number.
    + unfold offsetOf. apply mul_neg.
    + now destruct (parseFloat p).
    + now destruct (parseFloat p).
Qed.

Lemma offset_mirrored_witness :
  let back := Sample.layer (Some "-0.5"%string) EmptyString in
  offsetOf (ofZ 500) (ofZ 800) (elementTopOf (ofZ 500) back) (depthOf back) =
  neg (offsetOf (ofZ 500) (ofZ 800) (elementTopOf (ofZ 500) Sample.hero)
         (depthOf Sample.hero)).
Proof.
  apply (proj2 offset_mirrored (ofZ 500) (ofZ 800) Sample.hero
           (Sample.layer (Some "-0.5"%string) EmptyString) "0.5"%string);
    reflexivity.
Defined.

(** ** Which measurements a deferred pass uses *)

Lemma scroll_fields st y :
  scrollListeners st = [cbRequestTick] ->
  let st' := step st (evScroll y) in
  scrollY st' = y /\ innerHeight st' = innerHeight st /\
  document st' = document st /\ parallaxElements st' = parallaxElements st.
Proof.
  intros Hs. cbn [step]. rewrite Hs. cbn [dispatch fold_left call].
  unfold requestTick. cbn. now destruct (ticking st).
Qed.

Lemma scroll_burst_fields ys : forall st y,
  scrollListeners st = [cbRequestTick] -> coalesced st ->
  let st' := run (map evScroll (ys ++ [y])) st in
  scrollY st' = y /\ innerHeight st' = innerHeight st /\
  document st' = document st /\ parallaxElements st' = parallaxElements st.
Proof.
  unfold run. induction ys as [|y0 ys IH]; intros st y Hs Hc; cbn [app map fold_left].
  - now apply scroll_fields.
  - destruct (scroll_step st y0 Hs Hc) as (Hs' & Hc' & _).
    destruct (scroll_fields st y0 Hs) as (_ & Hh & Hd & Ht).
    destruct (IH _ y Hs' Hc') as (A & B & C & D).
    repeat split; congruence.
Qed.

(** X6.  The pass that runs at a frame uses the scroll offset of the last
    scroll notification before it: after notifications that end with [y],
    the frame leaves the document as one pass at offset [y] over the
    document as it was, and it is a single pass. *)
Theorem latest_scroll_wins (st : State) (ys : list number) (y : number) :
  calmly st -> scrollListeners st = [cbRequestTick] ->
  let st' := step (run (map evScroll (ys ++ [y])) st) evFrame in
  document st' =
  fold_left (updateNode y (ofZ (innerHeight st)))
    (parallaxElements st) (document st) /\
  passes st' = now st :: passes st.
Proof.
  intros Hcalm Hs. pose proof (calmly_coalesced st Hcalm) as C.
  assert (Hne : ys ++ [y] <> []) by (destruct ys; discriminate).
  destruct (scroll_burst (ys ++ [y]) st Hs C Hne) as (Hs' & C' & Ht' & Hp' & Hn').
  destruct (scroll_burst_fields ys st y Hs C) as (Ey & Eh & Ed & Et).
  cbv zeta in *.
  set (st1 := run (map evScroll (ys ++ [y])) st) in *.
  destruct (frame_step st1 C' Ht') as (Hp'' & _).
  split; [|cbv zeta in Hp''; congruence].
  unfold coalesced in C'. rewrite Ht' in C'.
  cbn [step]. rewrite C'. cbn [dispatch fold_left call].
  rewrite updateParallax_document. cbn. now rewrite Ey, Eh, Ed, Et.
Qed.

Lemma latest_scroll_wins_witness :
  let st' := step (run (map evScroll ([ofZ 510; ofZ 520] ++ [ofZ 530]))
                     Sample.started) evFrame in
  document st' =
  fold_left (updateNode (ofZ 530) (ofZ (innerHeight Sample.started)))
    (parallaxElements Sample.started) (document Sample.started) /\
  passes st' = now Sample.started :: passes Sample.started.
Proof.
  apply (latest_scroll_wins Sample.started [ofZ 510; ofZ 520] (ofZ 530)).
  - apply calmly_script.
  - reflexivity.
Defined.

Lemma resize_fields st h :
  resizeListeners st = [cbResize] ->
  let st' := step st (evResize h) in
  innerHeight st' = h /\ scrollY st' = scrollY st /\
  document st' = document st /\ parallaxElements st' = parallaxElements st.
Proof.
  intros Hs. cbn [step]. rewrite Hs. cbn [dispatch fold_left call].
  unfold onResize, clearTimeout. cbn. now destruct (resizeTimeout st).
Qed.

Lemma wait_fields t st dt :
  armed t st -> 0 <= dt < 150 ->
  let st' := step st (evElapse dt) in
  innerHeight st' = innerHeight st /\ scrollY st' = scrollY st /\
  document st' = document st /\ parallaxElements st' = parallaxElements st.
Proof.
  intros (Hr & Hn & id & Ht & Hid) Hdt. cbn [step].
  rewrite (elapse_waiting st dt id (t + 150) _ Ht) by lia.
  now repeat split.
Qed.

Lemma burst_fields rest : forall t st,
  registered st -> armed t st ->
  Forall (fun p => 0 <= fst p < 150) rest ->
  let st' := run (resizeBurst rest) st in
  innerHeight st' = List.last (map snd rest) (innerHeight st) /\
  scrollY st' = scrollY st /\
  document st' = document st /\ parallaxElements st' = parallaxElements st.
Proof.
  unfold run. induction rest as [|[dt h] rest IH]; intros t st R A Hg.
  - now repeat split.
  - inversion Hg as [|? ? Hdt Hrest]; subst. cbn [fst] in Hdt.
    cbn [resizeBurst fold_left].
    destruct (armed_wait t st dt A Hdt) as (Hr1 & Hn1 & Ht1 & Hid1 & Hp1).
    destruct (wait_fields t st dt A Hdt) as (F1 & F2 & F3 & F4).
    set (st1 := step st (evElapse dt)) in *.
    pose proof (registered_step st (evElapse dt) R) as R1. fold st1 in R1.
    destruct (resize_step st1 h R1 Hr1) as (_ & A2 & _).
    destruct (resize_fields st1 h Hr1) as (G1 & G2 & G3 & G4).
    set (st2 := step st1 (evResize h)) in *.
    pose proof (registered_step st1 (evResize h) R1) as R2. fold st2 in R2.
    destruct (IH _ st2 R2 A2 Hrest) as (I1 & I2 & I3 & I4).
    repeat split; try congruence.
    rewrite I1, G1. cbn [map snd]. clear.
    destruct rest as [|[dt' h'] rest]; [reflexivity|].
    cbn [map snd]. generalize (h' :: map snd rest). intros l.
    destruct l as [|a l]; [reflexivity|].
    revert a. induction l as [|b l IHl]; intros a; [reflexivity|].
    apply (IHl b).
Qed.

(** X7.  The pass that follows a burst of resize notifications uses the
    viewport height of the last one: the document is then as one pass with
    that height over the document as it was before the burst. *)
Theorem debounced_pass_uses_last_height
    (st : State) (h : Z) (rest : list (Z * Z)) (T : Z) :
  reachable st -> resizeListeners st = [cbResize] ->
  Forall (fun p => 0 <= fst p < 150) rest -> 150 <= T ->
  let st' := step (run (evResize h :: resizeBurst rest) st) (evElapse T) in
  document st' =
  fold_left (updateNode (scrollY st) (ofZ (List.last (map snd rest) h)))
    (parallaxElements st) (document st).
Proof.
  intros Hre Hr Hg HT.
  pose proof (reachable_registered st Hre) as R.
  destruct (resize_step st h R Hr) as (_ & A & _).
  destruct (resize_fields st h Hr) as (G1 & G2 & G3 & G4).
  pose proof (registered_step st (evResize h) R) as R1.
  destruct (armed_burst rest (now st) _ R1 A Hg) as (R2 & A2 & _).
  destruct (burst_fields rest (now st) _ R1 A Hg) as (I1 & I2 & I3 & I4).
  cbv zeta in *.
  change (run (evResize h :: resizeBurst rest) st)
    with (run (resizeBurst rest) (step st (evResize h))).
  set (st2 := run (resizeBurst rest) (step st (evResize h))) in *.
  destruct A2 as (_ & Hn & id & Ht & _).
  cbn [step]. rewrite (elapse_firing st2 T id _ _ Ht) by lia.
  cbn [call]. 
  change (document (set_now ?t ?s)) with (document s).
  rewrite updateParallax_document. cbn.
  now rewrite I1, I2, I3, I4, G1, G2, G3, G4.
Qed.

Lemma debounced_pass_uses_last_height_witness :
  let st' := step (run (evResize 850 :: resizeBurst Trace.dragging)
                     Sample.started) (evElapse 1000) in
  document st' =
  fold_left (updateNode (scrollY Sample.started)
               (ofZ (List.last (map snd Trace.dragging) 850)))
    (parallaxElements Sample.started) (document Sample.started).
Proof.
  apply (debounced_pass_uses_last_height Sample.started 850 Trace.dragging 1000).
  - apply reach_script.
  - reflexivity.
  - repeat constructor; simpl; lia.
  - lia.
Defined.

(** ** Deferred initialisation *)



Lemma init_readyState st : readyStateLoading (init st) = readyStateLoading st.
Proof.
  unfold init, initParallax.
  destruct (prefersReducedMotion st); [reflexivity|].
  match goal with |- context [if ?c then _ else _] => destruct c end;
    reflexivity.
Qed.



(** ** Edge cases of the depth attribute *)




(** X10.  An infinite depth is not caught by the fallback to 0.  When
    [data-depth] parses to an infinity (as "Infinity" or "1e999" do), the
    depth coefficient is that infinity, and the transform written for an
    element that passes the visibility test is [translate3d(0, Infinitypx,
    0)], its negative, or [translate3d(0, NaNpx, 0)]. *)
Theorem infinite_depth_not_caught
    (st : State) (i : nat) (element : Element) :
  i ∈ parallaxElements st ->
  document st !! i = Some element ->
  let s := scrollY st in
  let v := ofZ (innerHeight st) in
  let elementTop := add (rect_top element) s in
  isInViewport s v elementTop (ofZ (offsetHeight element)) = true ->
  valid s = true -> valid (rect_top element) = true ->
  Z.abs (innerHeight st) <= 2 ^ 31 ->
  Z.abs (offsetHeight element) <= 2 ^ 31 ->
  is_finite (parseFloat_attribute (data_depth element)) = false ->
  is_nan (parseFloat_attribute (data_depth element)) = false ->
  depthOf element = parseFloat_attribute (data_depth element) /\
  exists t,
    style_transform <$> document (updateParallax st) !! i =
    Some ("translate3d(0, " ++ t ++ "px, 0)")%string /\
    (t = "Infinity" \/ t = "-Infinity" \/ t = "NaN")%string.
Proof.
  intros Hi Hl s v elementTop Hact Vs Vr Hh Ho Hinf Hnan.
  assert (Hd : depthOf element = parseFloat_attribute (data_depth element)).
  { unfold depthOf. apply or_else_number; [exact Hnan|].
    now destruct (parseFloat_attribute (data_depth element)). }
  split; [exact Hd|].
  exists (NumberToString (offsetOf s v elementTop (depthOf element))).
  split.
  - rewrite updateParallax_lookup.
    destruct (decide (i ∈ parallaxElements st)) as [_|Hn]; [|contradiction].
    rewrite Hl. simpl. rewrite updateElement_active by exact Hact. reflexivity.
  - pose proof (active_factor_finite s elementTop (innerHeight st)
                  (offsetHeight element) Vs
                  (add_valid _ _ Vr Vs) Hh Ho Hact) as Hf.
    rewrite Hd. unfold offsetOf. fold v in Hf.
    destruct (parseFloat_attribute (data_depth element)) as [|sd| |];
      try discriminate.
    destruct (add (sub s elementTop) (div v (ofZ 2))) as [sx| | |sx mx ex];
      try discriminate; cbn [mul SFmul].
    + right; right. reflexivity.
    + destruct (xorb sx sd); [right; left | left]; reflexivity.
Qed.

Lemma infinite_depth_not_caught_witness :
  exists t,
    style_transform <$>
      document (updateParallax
                  (script (Sample.page false false
                             [Sample.layer (Some "Infinity"%string) EmptyString])))
      !! 0%nat =
    Some ("translate3d(0, " ++ t ++ "px, 0)")%string /\
    (t = "Infinity" \/ t = "-Infinity" \/ t = "NaN")%string.
Proof.
  apply (infinite_depth_not_caught
           (script (Sample.page false false
                      [Sample.layer (Some "Infinity"%string) EmptyString]))
           0%nat
           (set_transform "translate3d(0, -Infinitypx, 0)"%string
              (Sample.layer (Some "Infinity"%string) EmptyString))).
  - vm_compute. left.
  - vm_compute. reflexivity.
  - vm_compute. reflexivity.
  - reflexivity.
  - reflexivity.
  - vm_compute. discriminate.
  - vm_compute. discriminate.
  - reflexivity.
  - reflexivity.
Defined.


(* ===================================================================== *)
(** * The whole script over the parallax component                        *)
(* ===================================================================== *)

Lemma run_app (a b : list Event) (st : State) :
  run (a ++ b) st = run b (run a st).
Proof. unfold run. apply fold_left_app. Qed.

Lemma reachable_run (evs : list Event) : forall st,
  reachable st -> reachable (run evs st).
Proof.
  unfold run. induction evs as [|ev evs IH]; intros st H; [exact H|].
  apply IH. now apply reach_step.
Qed.

(** ** What the other features do to the parallax component *)

Lemma core_writeTransform i t P :
  Site.core (Site.writeTransform i t P) = step (Site.core P) (evStyle i t).
Proof.
  unfold Site.writeTransform. cbn [step environment].
  destruct (document (Site.core P) !! i); [reflexivity|].
  destruct P as [st fs w sb ps io cl mm ml ob rs ef]. cbn. now destruct st.
Qed.

Lemma core_writeFacts i g P :
  Site.core (Site.writeFacts i g P) = Site.core P.
Proof.
  unfold Site.writeFacts. now destruct (Site.facts P !! i).
Qed.

Lemma core_hide P e :
  Site.core (Site.hide P e) =
  step (Site.core P) (evStyle (snd e) "translateY(20px)").
Proof.
  destruct e as [index element]. unfold Site.hide, Site.observe.
  match goal with |- context [if ?c then _ else _] => destruct c end;
    cbn [Site.core Site.set_observed];
    now rewrite core_writeFacts, core_writeTransform, core_writeFacts.
Qed.

Lemma core_hide_all es : forall P,
  Site.core (fold_left Site.hide es P) =
  run (map (fun e => evStyle (snd e) "translateY(20px)") es) (Site.core P).
Proof.
  induction es as [|e es IH]; intros P; [reflexivity|].
  cbn [fold_left map]. rewrite IH, core_hide. reflexivity.
Qed.

Lemma core_init P :
  exists evs, Site.core (Site.init P) = run evs (init (Site.core P)).
Proof.
  unfold Site.init, Site.initScrollAnimations.
  set (P3 := Site.initCardTilt _).
  assert (E : Site.core P3 = init (Site.core P)).
  { unfold P3, Site.initCardTilt.
    match goal with |- context [if ?c then _ else _] => destruct c end;
      reflexivity. }
  destruct (prefersReducedMotion (Site.core P3)); [exists []; exact E|].
  destruct (negb (Site.intersectionObserver P3)); [exists []; exact E|].
  eexists. rewrite core_hide_all, E. reflexivity.
Qed.

Lemma call_lift cb P :
  cb <> cbInit -> Site.call cb P = Site.set_core (call cb (Site.core P)) P.
Proof. now destruct cb. Qed.

Lemma dispatch_lift cbs : forall P,
  Forall (fun cb => cb <> cbInit) cbs ->
  Site.dispatch cbs P = Site.set_core (dispatch cbs (Site.core P)) P.
Proof.
  unfold Site.dispatch, dispatch.
  induction cbs as [|cb cbs IH]; intros P H; cbn [fold_left].
  - now destruct P.
  - inversion H as [|? ? Hcb Hcbs]; subst.
    rewrite (call_lift cb P Hcb), (IH _ Hcbs). reflexivity.
Qed.

Lemma follows_refl st : follows st st.
Proof. now exists []. Qed.

Lemma follows_trans a b c : follows a b -> follows b c -> follows a c.
Proof.
  intros [e1 ->] [e2 ->]. exists (e1 ++ e2). now rewrite run_app.
Qed.

Lemma follows_step st ev : follows st (step st ev).
Proof. now exists [ev]. Qed.

Lemma follows_reachable a b : follows a b -> reachable a -> reachable b.
Proof. intros [evs ->]. apply reachable_run. Qed.

Lemma follows_fold {A : Type} (f : Site.Page -> A -> Site.Page) (l : list A) :
  (forall P x, follows (Site.core P) (Site.core (f P x))) ->
  forall P, follows (Site.core P) (Site.core (fold_left f l P)).
Proof.
  intros Hf. induction l as [|x l IH]; intros P; cbn [fold_left].
  - apply follows_refl.
  - eapply follows_trans; [apply Hf | apply IH].
Qed.

Lemma follows_writeTransform i t P :
  follows (Site.core P) (Site.core (Site.writeTransform i t P)).
Proof. rewrite core_writeTransform. apply follows_step. Qed.

Lemma follows_listen q this P l :
  follows (Site.core P) (Site.core (Site.listen q this P l)).
Proof.
  unfold Site.listen. destruct (Nat.eqb (fst l) this); [|apply follows_refl].
  destruct (snd l).
  - unfold Site.anchorClick. destruct (Site.facts P !! this); [|apply follows_refl].
    match goal with |- context [if ?c then _ else _] => destruct c end;
      [apply follows_refl|].
    destruct (q _); try apply follows_refl.
  - unfold Site.buttonClick. cbn [Site.core Site.set_resets].
    apply follows_writeTransform.
Qed.

Lemma follows_clickAt q P this :
  follows (Site.core P) (Site.core (Site.clickAt q P this)).
Proof.
  unfold Site.clickAt. generalize (Site.clickListeners P). intros l.
  apply (follows_fold (Site.listen q this)). intros; apply follows_listen.
Qed.

Lemma follows_moveAt x y P this :
  follows (Site.core P) (Site.core (Site.moveAt x y P this)).
Proof.
  unfold Site.moveAt, Site.tiltMove.
  destruct (existsb _ _); [|apply follows_refl].
  destruct (document (Site.core P) !! this); [|apply follows_refl].
  destruct (Site.facts P !! this); [|apply follows_refl].
  apply follows_writeTransform.
Qed.

Lemma follows_reveal P e :
  follows (Site.core P) (Site.core (Site.reveal P e)).
Proof.
  destruct e as [target [|]]; [|apply follows_refl].
  unfold Site.reveal, Site.unobserve. cbn [Site.core Site.set_observed].
  rewrite core_writeTransform, core_writeFacts. apply follows_step.
Qed.

(** ** Timers of both kinds *)

Lemma insertJob_split j l :
  exists l1 l2,
    Site.insertJob j l = l1 ++ j :: l2 /\ l = l1 ++ l2 /\
    Forall (fun x => Site.job_due x <= Site.job_due j) l1.
Proof.
  induction l as [|x l (l1 & l2 & E & El & F)]; cbn [Site.insertJob].
  - now exists [], [].
  - destruct (Site.earlier j x) eqn:He.
    + now exists [], (x :: l).
    + exists (x :: l1), l2. rewrite E. split; [reflexivity|].
      split; [now rewrite El|]. constructor; [|exact F].
      unfold Site.earlier in He. apply orb_false_iff in He as [He _].
      apply Z.ltb_ge in He. exact He.
Qed.

Lemma insertJob_elem j l x :
  x ∈ Site.insertJob j l <-> x = j \/ x ∈ l.
Proof.
  destruct (insertJob_split j l) as (l1 & l2 & -> & -> & _).
  rewrite !elem_of_app, elem_of_cons. tauto.
Qed.

Lemma sortJobs_elem l x :
  x ∈ fold_right Site.insertJob [] l <-> x ∈ l.
Proof.
  induction l as [|j l IH]; cbn [fold_right]; [reflexivity|].
  rewrite insertJob_elem, IH, elem_of_cons. tauto.
Qed.

Lemma set_now_same st t : now st = t -> set_now t st = st.
Proof. intros <-. now destruct st. Qed.

(** Running the resets that are due amounts to as many [evStyle] events,
    up to the clock. *)
Lemma fold_resets js : forall Q,
  Forall (fun j => exists r, j = Site.jobReset r) js ->
  let Q' := fold_left Site.fireJob js Q in
  exists evs,
    Forall (fun e => exists i t, e = evStyle i t) evs /\
    Site.core Q' = set_now (now (Site.core Q')) (run evs (Site.core Q)) /\
    now (Site.core Q) <= now (Site.core Q') /\
    (forall b, now (Site.core Q) <= b ->
               Forall (fun j => Site.job_due j <= b) js ->
               now (Site.core Q') <= b).
Proof.
  induction js as [|j js IH]; intros Q Hjs; cbn [fold_left].
  - exists []. repeat split; [constructor | | lia | auto].
    cbn. symmetry. now apply set_now_same.
  - inversion Hjs as [|? ? [r ->] Hjs']; subst.
    destruct (IH (Site.fireJob Q (Site.jobReset r)) Hjs')
      as (evs & Hev & Hc & Hn & Hb).
    set (Q1 := Site.fireJob Q (Site.jobReset r)) in *.
    assert (E1 : Site.core Q1 =
                 set_now (Z.max (now (Site.core Q)) (Site.reset_due r))
                   (step (Site.core Q) (evStyle (Site.reset_node r) EmptyString))).
    { unfold Q1. cbn [Site.fireJob]. rewrite core_writeTransform. reflexivity. }
    assert (N1 : now (Site.core Q1) =
                 Z.max (now (Site.core Q)) (Site.reset_due r))
      by now rewrite E1.
    exists (evStyle (Site.reset_node r) EmptyString :: evs).
    split; [constructor; [eauto | exact Hev]|].
    split; [|split].
    + rewrite Hc, E1. cbn [run fold_left].
      assert (Hcomm : forall evs st m,
                 Forall (fun e => exists i t, e = evStyle i t) evs ->
                 run evs (set_now m st) = set_now m (run evs st)).
      { clear. unfold run. induction evs as [|e evs IH]; intros st m H; [reflexivity|].
        inversion H as [|? ? (i & t & ->) H']; subst. cbn [fold_left].
        rewrite <- (IH _ _ H'). reflexivity. }
      fold (run evs (set_now (Z.max (now (Site.core Q)) (Site.reset_due r))
                       (step (Site.core Q) (evStyle (Site.reset_node r) EmptyString)))).
      rewrite (Hcomm _ _ _ Hev). reflexivity.
    + lia.
    + intros b Hb0 Hjb. inversion Hjb as [|? ? Hr Hjb']; subst.
      cbn [Site.job_due] in Hr. apply Hb; [lia | exact Hjb'].
Qed.

Lemma style_run_fields evs : forall st,
  Forall (fun e => exists i t, e = evStyle i t) evs ->
  timers (run evs st) = timers st /\ now (run evs st) = now st.
Proof.
  unfold run. induction evs as [|e evs IH]; intros st H; [now split|].
  inversion H as [|? ? (i & t & ->) H']; subst. cbn [fold_left].
  destruct (IH (step st (evStyle i t)) H') as [A B]. now split.
Qed.

Lemma due_resets t P :
  let rs := map Site.jobReset
              (List.filter (fun r => Site.reset_due r <=? t) (Site.resets P)) in
  Forall (fun j => exists r, j = Site.jobReset r) rs /\
  Forall (fun j => Site.job_due j <= t) rs.
Proof.
  cbv zeta. induction (Site.resets P) as [|r l [IH1 IH2]]; cbn [List.filter map].
  - split; constructor.
  - destruct (Z.leb_spec (Site.reset_due r) t); cbn [map]; [|now split].
    split; constructor; eauto.
Qed.

Lemma sortJobs_Forall (Q : Site.Job -> Prop) l :
  Forall Q l -> Forall Q (fold_right Site.insertJob [] l).
Proof.
  rewrite !Forall_forall. intros H x Hx. apply H. now apply sortJobs_elem.
Qed.

(** The passing of time in the whole script is the passing of time in the
    parallax component, cut where a reset of a button is due. *)
Lemma follows_elapse dt P :
  registered (Site.core P) ->
  follows (Site.core P) (Site.core (Site.elapse dt P)).
Proof.
  intros R. unfold Site.elapse. cbn [Site.core Site.set_resets Site.set_core].
  set (st0 := Site.core P) in *. set (t := now st0 + Z.max 0 dt).
  unfold Site.dueJobs. fold st0.
  destruct (due_resets t P) as [Hrs Hrt]. cbv zeta in Hrs, Hrt.
  set (rs := map Site.jobReset _) in *.
  pose proof (sortJobs_Forall _ rs Hrs) as Hs.
  pose proof (sortJobs_Forall _ rs Hrt) as Hst.
  assert (Hidle : forall js,
             Forall (fun j => exists r, j = Site.jobReset r) js ->
             (timers st0 = [] \/
              exists id due cb, timers st0 = [mkTimer id due cb] /\ t < due) ->
             follows st0
               (set_now t (Site.core (fold_left Site.fireJob js P)))).
  { intros js Hjs Hw.
    destruct (fold_resets js P Hjs) as (evs & Hev & Hc & _).
    cbv zeta in Hc. rewrite Hc. fold st0.
    destruct (style_run_fields evs st0 Hev) as [Et En].
    exists (evs ++ [evElapse dt]). rewrite run_app. cbn [run fold_left step].
    fold (run evs st0).
    destruct Hw as [Hw|(id & due & cb & Hw & Hlt)].
    - rewrite elapse_idle by congruence. now rewrite En.
    - rewrite (elapse_waiting _ dt id due cb)
        by first [congruence | rewrite En; exact Hlt].
      now rewrite En. }
  destruct (reg_timers st0 R) as [Ht|(id & due & Ht & Hr & Hn)].
  - rewrite Ht. cbn [List.filter map app]. apply Hidle; [exact Hs | now left].
  - rewrite Ht. cbn [List.filter timer_due].
    destruct (Z.leb_spec due t) as [Hdue|Hdue].
    2:{ cbn [map app]. apply Hidle; [exact Hs | right; eauto]. }
    cbn [map app fold_right].
    set (tm := mkTimer id due cbUpdateParallax) in *.
    destruct (insertJob_split (Site.jobTimer tm)
                (fold_right Site.insertJob [] rs))
      as (l1 & l2 & -> & El & Fl1).
    rewrite El in Hs, Hst.
    apply Forall_app in Hs as [Hs1 Hs2]. apply Forall_app in Hst as [Hst1 Hst2].
    rewrite fold_left_app. cbn [fold_left].
    (* the resets before the pass *)
    destruct (fold_resets l1 P Hs1) as (evs1 & Hev1 & Hc1 & Hn1 & Hb1).
    cbv zeta in Hc1, Hn1, Hb1. fold st0 in Hc1, Hn1, Hb1.
    set (Q1 := fold_left Site.fireJob l1 P) in *.
    destruct (style_run_fields evs1 st0 Hev1) as [Et1 En1].
    set (st1 := run evs1 st0) in *.
    assert (Hle1 : now (Site.core Q1) <= due).
    { apply Hb1; [lia|]. exact Fl1. }
    (* the pass *)
    assert (E2 : Site.core (Site.fireJob Q1 (Site.jobTimer tm)) =
                 step st1 (evElapse (due - now st0))).
    { cbn [Site.fireJob]. rewrite Hc1.
      assert (Hp : pending (timer_id tm)
                     (set_now (now (Site.core Q1)) st1) = true).
      { unfold pending. cbn. rewrite Et1, Ht. cbn. now rewrite Nat.eqb_refl. }
      rewrite Hp. cbn [timer_callback tm]. rewrite call_lift by discriminate.
      cbn [Site.core Site.set_core step].
      rewrite (elapse_firing st1 _ id due cbUpdateParallax)
        by (rewrite ?En1; try exact (eq_trans Et1 Ht); lia).
      rewrite En1. replace (now st0 + Z.max 0 (due - now st0)) with due by lia.
      replace (Z.max (now st0) due) with due by lia.
      cbn [call]. rewrite (set_now_same _ due) by reflexivity.
      f_equal. unfold clearTimeout. cbn. rewrite Et1, Ht. cbn.
      rewrite Nat.eqb_refl. cbn.
      replace (Z.max (now (Site.core Q1)) due) with due by lia.
      reflexivity. }
    set (Q2 := Site.fireJob Q1 (Site.jobTimer tm)) in *.
    assert (N2 : now (Site.core Q2) = due /\ timers (Site.core Q2) = []).
    { rewrite E2. cbn [step].
      rewrite (elapse_firing st1 _ id due cbUpdateParallax)
        by (rewrite ?En1; try exact (eq_trans Et1 Ht); lia).
      rewrite En1. split; [cbn; lia | reflexivity]. }
    destruct N2 as [N2 T2].
    (* the resets after the pass *)
    destruct (fold_resets l2 Q2 Hs2) as (evs2 & Hev2 & Hc2 & Hn2 & Hb2).
    cbv zeta in Hc2, Hn2, Hb2.
    destruct (style_run_fields evs2 (Site.core Q2) Hev2) as [Et2 En2].
    rewrite Hc2.
    assert (E3 : set_now t (set_now (now (Site.core (fold_left Site.fireJob l2 Q2)))
                              (run evs2 (Site.core Q2))) =
                 step (run evs2 (Site.core Q2)) (evElapse (t - due))).
    { cbn [step]. rewrite elapse_idle by congruence.
      rewrite En2, N2. replace (due + Z.max 0 (t - due)) with t by lia.
      reflexivity. }
    rewrite E3.
    eapply follows_trans; [exists evs1; reflexivity|]. fold st1.
    eapply follows_trans; [apply (follows_step st1 (evElapse (due - now st0)))|].
    rewrite <- E2.
    eapply follows_trans; [exists evs2; reflexivity|].
    apply follows_step.
Qed.

Lemma follows_site_step P ev :
  registered (Site.core P) ->
  follows (Site.core P) (Site.core (Site.step P ev)).
Proof.
  intros R. destruct (registered_listeners _ R) as (Ls & Lr & Lf).
  destruct ev as [ev|path q|path x y|i|entries|w|i h cs|i x w h];
    cbn [Site.step].
  - destruct ev; try (cbn [Site.core Site.set_core]; apply follows_step).
    + destruct (readyStateLoading (Site.core P)) eqn:Hl; [|apply follows_refl].
      destruct (reg_dom _ R) as [E|E]; rewrite E; cbn [Site.dispatch fold_left Site.call].
      * cbn [Site.core Site.set_core].
        exists [evDOMContentLoaded]. cbn [run fold_left step].
        now rewrite Hl, E.
      * destruct (core_init (Site.set_core
                               (set_readyStateLoading false (Site.core P)) P))
          as [evs Hevs].
        rewrite Hevs. cbn [Site.core Site.set_core].
        exists (evDOMContentLoaded :: evs). cbn [run fold_left step].
        now rewrite Hl, E.
    + rewrite dispatch_lift by exact Ls. cbn [Site.core Site.set_core].
      apply (follows_step (Site.core P) (evScroll y)).
    + rewrite dispatch_lift by exact Lr. cbn [Site.core Site.set_core].
      apply (follows_step (Site.core P) (evResize h)).
    + rewrite dispatch_lift by exact Lf. cbn [Site.core Site.set_core].
      apply (follows_step (Site.core P) evFrame).
    + now apply follows_elapse.
  - apply (follows_fold (Site.clickAt q)). intros; apply follows_clickAt.
  - apply (follows_fold (Site.moveAt x y)). intros; apply follows_moveAt.
  - destruct (existsb _ _); [|apply follows_refl].
    apply follows_writeTransform.
  - unfold Site.observerCallback.
    apply (follows_fold Site.reveal). intros; apply follows_reveal.
  - apply follows_refl.
  - rewrite core_writeFacts. apply follows_refl.
  - rewrite core_writeFacts. apply follows_refl.
Qed.

Lemma follows_site_script reduced loading y h w smooth history observer nodes :
  follows (script (fresh reduced loading y h (map fst nodes)))
    (Site.core (Site.script
                  (Site.fresh reduced loading y h w smooth history observer
                     nodes))).
Proof.
  unfold Site.script, script. cbn [matchMedia_matches Site.core Site.fresh].
  destruct loading.
  - cbn. apply follows_refl.
  - cbn [readyStateLoading set_prefersReducedMotion set_matchMediaCalls fresh].
    match goal with
    | |- follows _ (Site.core (Site.init ?Q)) =>
        destruct (core_init Q) as [evs ->]
    end.
    exists evs. reflexivity.
Qed.

Lemma site_reachable_core P : Site.reachable P -> reachable (Site.core P).
Proof.
  induction 1 as [reduced loading y h w smooth history observer nodes|P ev _ IH].
  - eapply follows_reachable; [apply follows_site_script | apply reach_script].
  - eapply follows_reachable; [|exact IH].
    apply follows_site_step. now apply reachable_registered.
Qed.

(** ** What each handler leaves alone *)

(** The part of a page that only [init] changes. *)
Lemma writeTransform_static i t P :
  let P' := Site.writeTransform i t P in
  Site.facts P' = Site.facts P /\
  Site.clickListeners P' = Site.clickListeners P /\
  Site.mousemoveListeners P' = Site.mousemoveListeners P /\
  Site.mouseleaveListeners P' = Site.mouseleaveListeners P /\
  Site.observed P' = Site.observed P /\
  Site.resets P' = Site.resets P /\
  Site.effects P' = Site.effects P /\
  Site.innerWidth P' = Site.innerWidth P /\
  Site.scrollBehavior P' = Site.scrollBehavior P /\
  Site.pushState P' = Site.pushState P /\
  Site.intersectionObserver P' = Site.intersectionObserver P.
Proof.
  cbv zeta. unfold Site.writeTransform.
  destruct (document (Site.core P) !! i); now repeat split.
Qed.

Lemma writeFacts_static i g P :
  let P' := Site.writeFacts i g P in
  Site.core P' = Site.core P /\
  Site.clickListeners P' = Site.clickListeners P /\
  Site.mousemoveListeners P' = Site.mousemoveListeners P /\
  Site.mouseleaveListeners P' = Site.mouseleaveListeners P /\
  Site.observed P' = Site.observed P /\
  Site.resets P' = Site.resets P /\
  Site.effects P' = Site.effects P /\
  Site.innerWidth P' = Site.innerWidth P /\
  Site.scrollBehavior P' = Site.scrollBehavior P /\
  Site.pushState P' = Site.pushState P /\
  Site.intersectionObserver P' = Site.intersectionObserver P.
Proof.
  cbv zeta. unfold Site.writeFacts.
  destruct (Site.facts P !! i); now repeat split.
Qed.

Lemma wiring_writeTransform i t P :
  wiring (Site.writeTransform i t P) = wiring P.
Proof.
  unfold wiring, Site.writeTransform.
  now destruct (document (Site.core P) !! i).
Qed.

Lemma wiring_writeFacts i g P : wiring (Site.writeFacts i g P) = wiring P.
Proof. unfold wiring, Site.writeFacts. now destruct (Site.facts P !! i). Qed.

Lemma wiring_fold {A : Type} (f : Site.Page -> A -> Site.Page) (l : list A) :
  (forall P x, wiring (f P x) = wiring P) ->
  forall P, wiring (fold_left f l P) = wiring P.
Proof.
  intros Hf. induction l as [|x l IH]; intros P; cbn [fold_left]; [reflexivity|].
  now rewrite IH, Hf.
Qed.

Lemma wiring_listen q this P l : wiring (Site.listen q this P l) = wiring P.
Proof.
  unfold Site.listen. destruct (Nat.eqb (fst l) this); [|reflexivity].
  destruct (snd l).
  - unfold Site.anchorClick. destruct (Site.facts P !! this); [|reflexivity].
    match goal with |- context [if ?c then _ else _] => destruct c end;
      [reflexivity|].
    now destruct (q _).
  - unfold Site.buttonClick.
    change (wiring (Site.set_resets ?r ?Q)) with (wiring Q).
    apply wiring_writeTransform.
Qed.

Lemma wiring_clickAt q P this : wiring (Site.clickAt q P this) = wiring P.
Proof.
  unfold Site.clickAt. generalize (Site.clickListeners P). intros l.
  apply (wiring_fold (Site.listen q this)). intros; apply wiring_listen.
Qed.

Lemma wiring_moveAt x y P this : wiring (Site.moveAt x y P this) = wiring P.
Proof.
  unfold Site.moveAt, Site.tiltMove.
  destruct (existsb _ _); [|reflexivity].
  destruct (document (Site.core P) !! this); [|reflexivity].
  destruct (Site.facts P !! this); [|reflexivity].
  apply wiring_writeTransform.
Qed.

Lemma wiring_reveal P e : wiring (Site.reveal P e) = wiring P.
Proof.
  destruct e as [target [|]]; [|reflexivity].
  unfold Site.reveal, Site.unobserve.
  change (wiring (Site.set_observed ?r ?Q)) with (wiring Q).
  now rewrite wiring_writeTransform, wiring_writeFacts.
Qed.

Lemma wiring_fireJob P j :
  (forall tm, j = Site.jobTimer tm -> timer_callback tm <> cbInit) ->
  wiring (Site.fireJob P j) = wiring P.
Proof.
  intros Hj. destruct j as [tm|r]; cbn [Site.fireJob].
  - destruct (pending _ _); [|reflexivity].
    rewrite call_lift by now apply Hj. reflexivity.
  - now rewrite wiring_writeTransform.
Qed.

Lemma dueJobs_callbacks t P :
  registered (Site.core P) ->
  Forall (fun j => forall tm, j = Site.jobTimer tm -> timer_callback tm <> cbInit)
    (Site.dueJobs t P).
Proof.
  intros R. apply Forall_forall. intros j Hj tm ->.
  unfold Site.dueJobs in Hj. apply (proj1 (sortJobs_elem _ _)) in Hj.
  apply list_elem_of_In, in_app_or in Hj. destruct Hj as [Hj|Hj].
  - apply in_map_iff in Hj as (tm' & E & Hin). inversion E; subst tm'.
    apply filter_In in Hin as [Hin _].
    destruct (reg_timers _ R) as [Ht|(id & due & Ht & _)]; rewrite Ht in Hin.
    + inversion Hin.
    + destruct Hin as [<-|[]]. discriminate.
  - apply in_map_iff in Hj as (r & E & _). discriminate.
Qed.

Lemma wiring_fireJobs js : forall P,
  Forall (fun j => forall tm, j = Site.jobTimer tm -> timer_callback tm <> cbInit) js ->
  wiring (fold_left Site.fireJob js P) = wiring P.
Proof.
  induction js as [|j js IH]; intros P H; cbn [fold_left]; [reflexivity|].
  inversion H as [|? ? Hj Hjs]; subst.
  now rewrite (IH _ Hjs), wiring_fireJob.
Qed.

(** Once [init] has run, no event changes the listeners of the page. *)
Lemma wiring_step P ev :
  registered (Site.core P) ->
  (ev = Site.evWindow evDOMContentLoaded ->
   readyStateLoading (Site.core P) = false) ->
  wiring (Site.step P ev) = wiring P.
Proof.
  intros R Hl. destruct (registered_listeners _ R) as (Ls & Lr & Lf).
  destruct ev as [ev|path q|path x y|i|entries|w|i h cs|i x w h];
    cbn [Site.step].
  - destruct ev; try reflexivity.
    + now rewrite Hl.
    + now rewrite dispatch_lift by exact Ls.
    + now rewrite dispatch_lift by exact Lr.
    + now rewrite dispatch_lift by exact Lf.
    + unfold Site.elapse.
      change (wiring (Site.set_resets ?r (Site.set_core ?s ?Q))) with (wiring Q).
      apply wiring_fireJobs. now apply dueJobs_callbacks.
  - apply (wiring_fold (Site.clickAt q)). intros; apply wiring_clickAt.
  - apply (wiring_fold (Site.moveAt x y)). intros; apply wiring_moveAt.
  - destruct (existsb _ _); [|reflexivity]. apply wiring_writeTransform.
  - apply (wiring_fold Site.reveal). intros; apply wiring_reveal.
  - reflexivity.
  - apply wiring_writeFacts.
  - apply wiring_writeFacts.
Qed.

Lemma started_step P ev :
  registered (Site.core P) -> readyStateLoading (Site.core P) = false ->
  registered (Site.core (Site.step P ev)) /\
  readyStateLoading (Site.core (Site.step P ev)) = false.
Proof.
  intros R Hl. destruct (follows_site_step P ev R) as [evs ->].
  destruct (run_tracked evs _ R Hl) as (_ & _ & Hl'). split; [|exact Hl'].
  clear Hl Hl'. revert R. generalize (Site.core P). unfold run.
  induction evs as [|e evs IH]; intros st R; [exact R|].
  apply IH. now apply registered_step.
Qed.

Lemma wiring_run evs : forall P,
  registered (Site.core P) -> readyStateLoading (Site.core P) = false ->
  wiring (Site.run evs P) = wiring P /\
  registered (Site.core (Site.run evs P)) /\
  readyStateLoading (Site.core (Site.run evs P)) = false.
Proof.
  unfold Site.run. induction evs as [|ev evs IH]; intros P R Hl; cbn [fold_left].
  - split; [reflexivity|]. now split.
  - destruct (started_step P ev R Hl) as [R' Hl'].
    destruct (IH _ R' Hl') as (W & R'' & Hl''). split; [|now split].
    now rewrite W, wiring_step by auto.
Qed.

(** ** What the fade-in feature keeps *)

Lemma shown_writeTransform i t P : shown (Site.writeTransform i t P) = shown P.
Proof.
  unfold shown, Site.writeTransform.
  now destruct (document (Site.core P) !! i).
Qed.

Lemma shown_fold {A : Type} (f : Site.Page -> A -> Site.Page) (l : list A) :
  (forall P x, shown (f P x) = shown P) ->
  forall P, shown (fold_left f l P) = shown P.
Proof.
  intros Hf. induction l as [|x l IH]; intros P; cbn [fold_left]; [reflexivity|].
  now rewrite IH, Hf.
Qed.

Lemma shown_listen q this P l : shown (Site.listen q this P l) = shown P.
Proof.
  unfold Site.listen. destruct (Nat.eqb (fst l) this); [|reflexivity].
  destruct (snd l).
  - unfold Site.anchorClick. destruct (Site.facts P !! this); [|reflexivity].
    match goal with |- context [if ?c then _ else _] => destruct c end;
      [reflexivity|].
    now destruct (q _).
  - unfold Site.buttonClick.
    change (shown (Site.set_resets ?r ?Q)) with (shown Q).
    apply shown_writeTransform.
Qed.

Lemma shown_clickAt q P this : shown (Site.clickAt q P this) = shown P.
Proof.
  unfold Site.clickAt. generalize (Site.clickListeners P). intros l.
  apply (shown_fold (Site.listen q this)). intros; apply shown_listen.
Qed.

Lemma shown_moveAt x y P this : shown (Site.moveAt x y P this) = shown P.
Proof.
  unfold Site.moveAt, Site.tiltMove.
  destruct (existsb _ _); [|reflexivity].
  destruct (document (Site.core P) !! this); [|reflexivity].
  destruct (Site.facts P !! this); [|reflexivity].
  apply shown_writeTransform.
Qed.

Lemma shown_fireJobs js : forall P,
  Forall (fun j => forall tm, j = Site.jobTimer tm -> timer_callback tm <> cbInit) js ->
  shown (fold_left Site.fireJob js P) = shown P.
Proof.
  induction js as [|j js IH]; intros P H; cbn [fold_left]; [reflexivity|].
  inversion H as [|? ? Hj Hjs]; subst. rewrite (IH _ Hjs).
  destruct j as [tm|r]; cbn [Site.fireJob].
  - destruct (pending _ _); [|reflexivity].
    rewrite call_lift by now apply Hj. reflexivity.
  - now rewrite shown_writeTransform.
Qed.

(** Once [init] has run, only the observer and the rest of the world
    change the styles and the targets of the fade-in. *)
Lemma shown_step P ev :
  registered (Site.core P) ->
  (ev = Site.evWindow evDOMContentLoaded ->
   readyStateLoading (Site.core P) = false) ->
  match ev with
  | Site.evIntersection _ | Site.evAttributes _ _ _ | Site.evBox _ _ _ _ => True
  | _ => shown (Site.step P ev) = shown P
  end.
Proof.
  intros R Hl. destruct (registered_listeners _ R) as (Ls & Lr & Lf).
  destruct ev as [ev|path q|path x y|i|entries|w|i h cs|i x w h];
    cbn [Site.step]; try exact I.
  - destruct ev; try reflexivity.
    + now rewrite Hl.
    + now rewrite dispatch_lift by exact Ls.
    + now rewrite dispatch_lift by exact Lr.
    + now rewrite dispatch_lift by exact Lf.
    + unfold Site.elapse.
      change (shown (Site.set_resets ?r (Site.set_core ?s ?Q))) with (shown Q).
      apply shown_fireJobs. now apply dueJobs_callbacks.
  - apply (shown_fold (Site.clickAt q)). intros; apply shown_clickAt.
  - apply (shown_fold (Site.moveAt x y)). intros; apply shown_moveAt.
  - destruct (existsb _ _); [|reflexivity]. apply shown_writeTransform.
  - reflexivity.
Qed.

Lemma writeFacts_lookup i g P j :
  Site.facts (Site.writeFacts i g P) !! j =
  if decide (i = j) then g <$> Site.facts P !! j else Site.facts P !! j.
Proof.
  unfold Site.writeFacts.
  destruct (decide (i = j)) as [->|Hne].
  - destruct (Site.facts P !! j) as [f|] eqn:E; cbn.
    + apply list_lookup_insert_eq. apply lookup_lt_is_Some. eauto.
    + exact E.
  - destruct (Site.facts P !! i); cbn; [|reflexivity].
    now apply list_lookup_insert_ne.
Qed.

Lemma writeFacts_observed i g P :
  Site.observed (Site.writeFacts i g P) = Site.observed P.
Proof. unfold Site.writeFacts. now destruct (Site.facts P !! i). Qed.

(** ** What [init] sets up *)

Lemma select_from_bounds p fs : forall i x,
  x ∈ Site.select_from p i fs -> (i <= x < i + length fs)%nat.
Proof.
  induction fs as [|f fs IH]; intros i x Hx; cbn [Site.select_from] in Hx.
  - inversion Hx.
  - cbn [length]. destruct (p f).
    + apply elem_of_cons in Hx as [->|Hx]; [lia|].
      apply IH in Hx. lia.
    + apply IH in Hx. lia.
Qed.

Lemma select_from_NoDup p fs : forall i, NoDup (Site.select_from p i fs).
Proof.
  induction fs as [|f fs IH]; intros i; cbn [Site.select_from].
  - constructor.
  - destruct (p f); [|apply IH]. constructor; [|apply IH].
    intros Hx. apply select_from_bounds in Hx. lia.
Qed.

Lemma select_from_spec p fs : forall i x,
  x ∈ Site.select_from p i fs <->
  (i <= x)%nat /\ exists f, fs !! (x - i)%nat = Some f /\ p f = true.
Proof.
  induction fs as [|f fs IH]; intros i x; cbn [Site.select_from].
  - split; [intros H; inversion H | intros (_ & f & H & _); discriminate].
  - assert (Hrest : x ∈ Site.select_from p (S i) fs <->
                    (i < x)%nat /\ exists g, (f :: fs) !! (x - i)%nat = Some g /\
                                             p g = true).
    { rewrite IH. split.
      - intros (Hle & g & Hg & Hp). split; [lia|]. exists g. split; [|exact Hp].
        replace (x - i)%nat with (S (x - S i)) by lia. exact Hg.
      - intros (Hle & g & Hg & Hp). split; [lia|]. exists g. split; [|exact Hp].
        replace (x - i)%nat with (S (x - S i)) in Hg by lia. exact Hg. }
    destruct (p f) eqn:Hp.
    + rewrite elem_of_cons, Hrest. split.
      * intros [->|(Hlt & g & Hg & Hpg)].
        -- split; [lia|]. exists f. now rewrite Nat.sub_diag.
        -- split; [lia|]. eauto.
      * intros (Hle & g & Hg & Hpg).
        destruct (decide (x = i)) as [->|Hne]; [now left|].
        right. split; [lia|]. eauto.
    + rewrite Hrest. split.
      * intros (Hlt & g & Hg & Hpg). split; [lia|]. eauto.
      * intros (Hle & g & Hg & Hpg).
        destruct (decide (x = i)) as [->|Hne].
        -- rewrite Nat.sub_diag in Hg. cbn in Hg. congruence.
        -- split; [lia|]. eauto.
Qed.

Lemma existsb_eqb_false i (l : list nat) :
  i ∉ l -> existsb (Nat.eqb i) l = false.
Proof.
  induction l as [|x l IH]; intros H; [reflexivity|]. cbn [existsb].
  apply not_elem_of_cons in H as [Hne Hl].
  rewrite (proj2 (Nat.eqb_neq i x) Hne). cbn. now apply IH.
Qed.

Lemma existsb_eqb_true i (l : list nat) :
  i ∈ l -> existsb (Nat.eqb i) l = true.
Proof.
  induction l as [|x l IH]; intros H; [inversion H|]. cbn [existsb].
  apply elem_of_cons in H as [->|H].
  - now rewrite Nat.eqb_refl.
  - rewrite (IH H). apply orb_true_r.
Qed.

Lemma hide_fields P e :
  Site.observed (Site.hide P e) =
  (if existsb (Nat.eqb (snd e)) (Site.observed P) then Site.observed P
   else Site.observed P ++ [snd e]) /\
  wiring (Site.hide P e) = wiring P /\
  Site.resets (Site.hide P e) = Site.resets P /\
  Site.effects (Site.hide P e) = Site.effects P /\
  Site.innerWidth (Site.hide P e) = Site.innerWidth P /\
  forall j,
    Site.facts (Site.hide P e) !! j =
    if decide (snd e = j)
    then Site.set_transition (Site.transitionOf (fst e))
           <$> (Site.set_opacity "0" <$> Site.facts P !! j)
    else Site.facts P !! j.
Proof.
  destruct e as [index element]. cbn [fst snd]. unfold Site.hide.
  set (P1 := Site.writeFacts element (Site.set_opacity "0") P).
  set (P2 := Site.writeTransform element "translateY(20px)" P1).
  set (P3 := Site.writeFacts element
               (Site.set_transition (Site.transitionOf index)) P2).
  destruct (writeTransform_static element "translateY(20px)" P1)
    as (F2 & _ & _ & _ & O2 & R2 & E2 & W2 & _).
  destruct (writeFacts_static element (Site.set_opacity "0") P)
    as (_ & _ & _ & _ & O1 & R1 & E1 & W1 & _).
  destruct (writeFacts_static element
              (Site.set_transition (Site.transitionOf index)) P2)
    as (_ & _ & _ & _ & O3 & R3 & E3 & W3 & _).
  fold P1 in O1, R1, E1, W1, F2, O2, R2, E2, W2. fold P2 in O2, R2, E2, W2, F2, O3, R3, E3, W3.
  fold P3 in O3, R3, E3, W3.
  assert (HO : Site.observed P3 = Site.observed P) by congruence.
  assert (HW : wiring P3 = wiring P).
  { unfold P3, P2, P1.
    now rewrite wiring_writeFacts, wiring_writeTransform, wiring_writeFacts. }
  assert (HF : forall j, Site.facts P3 !! j =
             if decide (element = j)
             then Site.set_transition (Site.transitionOf index)
                    <$> (Site.set_opacity "0" <$> Site.facts P !! j)
             else Site.facts P !! j).
  { intros j. unfold P3. rewrite writeFacts_lookup. rewrite F2.
    unfold P1. rewrite writeFacts_lookup.
    destruct (decide (element = j)); reflexivity. }
  unfold Site.observe. rewrite HO.
  destruct (existsb (Nat.eqb element) (Site.observed P));
    cbn [Site.observed Site.set_observed Site.resets Site.effects
         Site.innerWidth Site.facts];
    repeat split; try congruence; try exact HW; try exact HF.
Qed.

Lemma hide_all A : forall k P,
  NoDup A -> (forall x, x ∈ A -> x ∉ Site.observed P) ->
  let P' := fold_left Site.hide (Site.enumerate_from k A) P in
  Site.observed P' = Site.observed P ++ A /\
  wiring P' = wiring P /\
  Site.resets P' = Site.resets P /\
  Site.effects P' = Site.effects P /\
  Site.innerWidth P' = Site.innerWidth P /\
  forall j,
    Site.style_opacity <$> Site.facts P' !! j =
    if decide (j ∈ A) then (fun _ => "0"%string) <$> Site.facts P !! j
    else Site.style_opacity <$> Site.facts P !! j.
Proof.
  induction A as [|a A IH]; intros k P Hnd Hdis; cbn [Site.enumerate_from fold_left].
  - rewrite app_nil_r. repeat split; reflexivity.
  - apply NoDup_cons in Hnd as [Ha Hnd].
    destruct (hide_fields P (k, a)) as (HO & HW & HR & HE & HI & HF).
    cbn [fst snd] in HO, HF.
    rewrite existsb_eqb_false in HO by (apply Hdis; left).
    destruct (IH (S k) (Site.hide P (k, a)) Hnd) as (IO & IW & IR & IE & II & IF).
    { intros x Hx. rewrite HO. intros Hin.
      apply elem_of_app in Hin as [Hin|Hin].
      - apply (Hdis x); [now right | exact Hin].
      - apply list_elem_of_singleton in Hin. subst x. contradiction. }
    cbv zeta in *. repeat split; try congruence.
    + rewrite IO, HO, <- app_assoc. reflexivity.
    + intros j. rewrite IF, HF.
      destruct (decide (a = j)) as [->|Hne].
      * destruct (decide (j ∈ A)) as [?|_]; [contradiction|].
        destruct (decide (j ∈ j :: A)) as [_|Hn]; [|exfalso; apply Hn; left].
        now destruct (Site.facts P !! j).
      * destruct (decide (j ∈ A)) as [Hj|Hj].
        -- destruct (decide (j ∈ a :: A)) as [_|Hn];
             [reflexivity | exfalso; apply Hn; now right].
        -- destruct (decide (j ∈ a :: A)) as [Hin|_]; [|reflexivity].
           apply elem_of_cons in Hin as [->|Hin]; contradiction.
Qed.

Lemma initParallax_captured st :
  prefersReducedMotion (initParallax st) = prefersReducedMotion st.
Proof. exact (proj1 (captured_call cbInit st)). Qed.

Lemma init_wiring P :
  let cards := if prefersReducedMotion (Site.core P) || (Site.innerWidth P <? 768)
               then [] else Site.querySelectorAll Site.isCard P in
  wiring (Site.init P) =
  (Site.clickListeners P ++
     map (fun i => (i, Site.onAnchorClick))
       (Site.querySelectorAll Site.isAnchorLink P) ++
     map (fun i => (i, Site.onButtonClick))
       (Site.querySelectorAll Site.isButton P),
   Site.mousemoveListeners P ++ cards,
   Site.mouseleaveListeners P ++ cards,
   (Site.scrollBehavior P, Site.pushState P, Site.intersectionObserver P)).
Proof.
  cbv zeta. unfold Site.init.
  set (P3 := Site.initButtonEffects _).
  assert (W3 : wiring P3 =
               (Site.clickListeners P ++
                  map (fun i => (i, Site.onAnchorClick))
                    (Site.querySelectorAll Site.isAnchorLink P) ++
                  map (fun i => (i, Site.onButtonClick))
                    (Site.querySelectorAll Site.isButton P),
                Site.mousemoveListeners P, Site.mouseleaveListeners P,
                (Site.scrollBehavior P, Site.pushState P,
                 Site.intersectionObserver P))).
  { unfold P3, wiring, Site.initButtonEffects, Site.initSmoothScroll. cbn.
    now rewrite <- app_assoc. }
  assert (C3 : prefersReducedMotion (Site.core P3) =
               prefersReducedMotion (Site.core P))
    by apply initParallax_captured.
  assert (I3 : Site.innerWidth P3 = Site.innerWidth P) by reflexivity.
  assert (F3 : Site.facts P3 = Site.facts P) by reflexivity.
  set (P4 := Site.initCardTilt P3).
  assert (W4 : wiring P4 =
               (Site.clickListeners P ++
                  map (fun i => (i, Site.onAnchorClick))
                    (Site.querySelectorAll Site.isAnchorLink P) ++
                  map (fun i => (i, Site.onButtonClick))
                    (Site.querySelectorAll Site.isButton P),
                Site.mousemoveListeners P ++
                  (if prefersReducedMotion (Site.core P) ||
                      (Site.innerWidth P <? 768)
                   then [] else Site.querySelectorAll Site.isCard P),
                Site.mouseleaveListeners P ++
                  (if prefersReducedMotion (Site.core P) ||
                      (Site.innerWidth P <? 768)
                   then [] else Site.querySelectorAll Site.isCard P),
                (Site.scrollBehavior P, Site.pushState P,
                 Site.intersectionObserver P))).
  { unfold P4, Site.initCardTilt. rewrite C3, I3.
    destruct (prefersReducedMotion (Site.core P) || (Site.innerWidth P <? 768)).
    - rewrite W3, !app_nil_r. reflexivity.
    - unfold wiring, P3, Site.initButtonEffects, Site.initSmoothScroll,
        Site.querySelectorAll. cbn. now rewrite <- app_assoc. }
  rewrite <- W4. unfold Site.initScrollAnimations.
  destruct (prefersReducedMotion (Site.core P4)); [reflexivity|].
  destruct (negb (Site.intersectionObserver P4)); [reflexivity|].
  apply (wiring_fold Site.hide). intros Q e.
  now destruct (hide_fields Q e) as (_ & HW & _).
Qed.

Lemma init_shown P :
  Site.observed P = [] ->
  let A := if prefersReducedMotion (Site.core P) ||
              negb (Site.intersectionObserver P)
           then [] else Site.querySelectorAll Site.isAnimated P in
  Site.observed (Site.init P) = A /\
  (A = [] -> Site.facts (Site.init P) = Site.facts P) /\
  (forall j,
     Site.style_opacity <$> Site.facts (Site.init P) !! j =
     if decide (j ∈ A) then (fun _ => "0"%string) <$> Site.facts P !! j
     else Site.style_opacity <$> Site.facts P !! j) /\
  Site.resets (Site.init P) = Site.resets P /\
  Site.effects (Site.init P) = Site.effects P /\
  Site.innerWidth (Site.init P) = Site.innerWidth P.
Proof.
  intros HO. cbv zeta. unfold Site.init.
  set (P4 := Site.initCardTilt _).
  assert (H4 : Site.observed P4 = [] /\ Site.facts P4 = Site.facts P /\
               Site.resets P4 = Site.resets P /\
               Site.effects P4 = Site.effects P /\
               Site.innerWidth P4 = Site.innerWidth P /\
               Site.intersectionObserver P4 = Site.intersectionObserver P /\
               prefersReducedMotion (Site.core P4) =
               prefersReducedMotion (Site.core P)).
  { unfold P4, Site.initCardTilt.
    match goal with |- context [if ?c then _ else _] => destruct c end;
      cbn; repeat split; auto using initParallax_captured. }
  destruct H4 as (O4 & F4 & R4 & E4 & I4 & IO4 & C4).
  unfold Site.initScrollAnimations. rewrite C4, IO4.
  destruct (prefersReducedMotion (Site.core P)); cbn [orb].
  { repeat split; try congruence. intros j. rewrite F4.
    destruct (decide (j ∈ [])) as [H|_]; [inversion H | reflexivity]. }
  destruct (negb (Site.intersectionObserver P)).
  { repeat split; try congruence. intros j. rewrite F4.
    destruct (decide (j ∈ [])) as [H|_]; [inversion H | reflexivity]. }
  destruct (hide_all (Site.querySelectorAll Site.isAnimated P4) 0 P4)
    as (HO' & _ & HR & HE & HI & HF).
  { apply select_from_NoDup. }
  { intros x _. rewrite O4. apply not_elem_of_nil. }
  cbv zeta in *.
  assert (EA : Site.querySelectorAll Site.isAnimated P4 =
               Site.querySelectorAll Site.isAnimated P)
    by (unfold Site.querySelectorAll; now rewrite F4).
  rewrite O4 in HO'. cbn [app] in HO'.
  repeat split; try congruence.
  - intros EA'. rewrite EA, EA'. cbn. exact F4.
  - intros j. rewrite HF, EA, F4. reflexivity.
Qed.


(** ** The script on a page that is ready *)

Lemma script_ready reduced y h w smooth history observer nodes :
  Site.script (Site.fresh reduced false y h w smooth history observer nodes) =
  Site.init
    (Site.set_core
       (set_prefersReducedMotion reduced
          (set_matchMediaCalls 1 (fresh reduced false y h (map fst nodes))))
       (Site.fresh reduced false y h w smooth history observer nodes)).
Proof. reflexivity. Qed.

Lemma script_started reduced y h w smooth history observer nodes :
  let P0 := Site.script
              (Site.fresh reduced false y h w smooth history observer nodes) in
  registered (Site.core P0) /\ readyStateLoading (Site.core P0) = false.
Proof.
  cbv zeta. split.
  - apply reachable_registered, site_reachable_core. constructor.
  - destruct (follows_site_script reduced false y h w smooth history observer
                nodes) as [evs ->].
    apply run_tracked.
    + apply registered_script.
    + unfold script. cbn. apply init_readyState.
Qed.

Lemma site_run_app (a b : list Site.Event) (P : Site.Page) :
  Site.run (a ++ b) P = Site.run b (Site.run a P).
Proof. unfold Site.run. apply fold_left_app. Qed.

Lemma script_features
    (reduced : bool) (y : number) (h w : Z) (smooth history observer : bool)
    (nodes : list (Element * Site.Facts)) :
  let fs := map snd nodes in
  let P0 := Site.script
              (Site.fresh reduced false y h w smooth history observer nodes) in
  Site.clickListeners P0 =
    map (fun i => (i, Site.onAnchorClick))
      (Site.select_from Site.isAnchorLink 0 fs) ++
    map (fun i => (i, Site.onButtonClick))
      (Site.select_from Site.isButton 0 fs) /\
  Site.mousemoveListeners P0 =
    (if reduced || (w <? 768) then []
     else Site.select_from Site.isCard 0 fs) /\
  Site.mouseleaveListeners P0 = Site.mousemoveListeners P0 /\
  Site.observed P0 =
    (if reduced || negb observer then []
     else Site.select_from Site.isAnimated 0 fs) /\
  parallaxElements (Site.core P0) =
    (if reduced then [] else querySelectorAll_from 0 (map fst nodes)) /\
  forall evs : list Site.Event,
    wiring (Site.run evs P0) = wiring P0 /\
    parallaxElements (Site.core (Site.run evs P0)) =
    parallaxElements (Site.core P0).
Proof.
  cbv zeta. rewrite script_ready.
  set (Q := Site.set_core _ _).
  pose proof (init_wiring Q) as W. cbv zeta in W.
  destruct (init_shown Q eq_refl) as (O & _). cbv zeta in O.
  unfold wiring in W.
  change (prefersReducedMotion (Site.core Q)) with reduced in *.
  change (Site.innerWidth Q) with w in *.
  change (Site.intersectionObserver Q) with observer in *.
  change (Site.clickListeners Q) with (@nil (nat * Site.Listener)) in W.
  change (Site.mousemoveListeners Q) with (@nil nat) in W.
  change (Site.mouseleaveListeners Q) with (@nil nat) in W.
  cbn [app] in W.
  assert (W1 : Site.clickListeners (Site.init Q) =
               map (fun i => (i, Site.onAnchorClick))
                 (Site.querySelectorAll Site.isAnchorLink Q) ++
               map (fun i => (i, Site.onButtonClick))
                 (Site.querySelectorAll Site.isButton Q)) by congruence.
  assert (W2 : Site.mousemoveListeners (Site.init Q) =
               (if reduced || (w <? 768) then []
                else Site.querySelectorAll Site.isCard Q)) by congruence.
  assert (W3 : Site.mouseleaveListeners (Site.init Q) =
               (if reduced || (w <? 768) then []
                else Site.querySelectorAll Site.isCard Q)) by congruence.
  split; [exact W1|]. split; [exact W2|]. split; [congruence|].
  split; [exact O|]. split.
  - destruct (follows_site_script reduced false y h w smooth history observer
                nodes) as [evs E].
    rewrite script_ready in E. fold Q in E. rewrite E.
    destruct (run_tracked evs (script (fresh reduced false y h (map fst nodes))))
      as (-> & _); [apply registered_script | |apply script_tracked].
    unfold script. cbn. apply init_readyState.
  - intros evs.
    destruct (script_started reduced y h w smooth history observer nodes)
      as [R Hl].
    rewrite script_ready in R, Hl. fold Q in R, Hl.
    destruct (wiring_run evs _ R Hl) as (Wr & _). split; [exact Wr|].
    clear Wr. revert R Hl. generalize (Site.init Q). clear.
    unfold Site.run. induction evs as [|ev evs IH]; intros P R Hl; [reflexivity|].
    cbn [fold_left].
    destruct (started_step P ev R Hl) as [R' Hl'].
    rewrite (IH _ R' Hl').
    destruct (follows_site_step P ev R) as [es ->].
    now destruct (run_tracked es _ R Hl) as (-> & _).
Qed.

(** X11.  What [init] switches on in a document that is ready when the
    script runs.  The nodes that are then an [a] whose [href] starts with
    [#] get the anchor listener, the [.btn] nodes the button listener, each
    once and in document order; the [.card] nodes get the two mouse
    listeners unless reduced motion is preferred or the window is narrower
    than 768; the [.card], [.principle-item] and [.future-content] nodes
    are observed unless reduced motion is preferred or there is no
    IntersectionObserver; the [data-depth] nodes are the parallax layers
    unless reduced motion is preferred.  No later event adds or removes a
    listener or a layer. *)
Theorem features_switched_on
    (reduced : bool) (y : number) (h w : Z) (smooth history observer : bool)
    (nodes : list (Element * Site.Facts)) :
  let fs := map snd nodes in
  let P0 := Site.script
              (Site.fresh reduced false y h w smooth history observer nodes) in
  Site.clickListeners P0 =
    map (fun i => (i, Site.onAnchorClick))
      (Site.select_from Site.isAnchorLink 0 fs) ++
    map (fun i => (i, Site.onButtonClick))
      (Site.select_from Site.isButton 0 fs) /\
  Site.mousemoveListeners P0 =
    (if reduced || (w <? 768) then []
     else Site.select_from Site.isCard 0 fs) /\
  Site.mouseleaveListeners P0 = Site.mousemoveListeners P0 /\
  Site.observed P0 =
    (if reduced || negb observer then []
     else Site.select_from Site.isAnimated 0 fs) /\
  parallaxElements (Site.core P0) =
    (if reduced then [] else querySelectorAll_from 0 (map fst nodes)) /\
  forall evs : list Site.Event,
    wiring (Site.run evs P0) = wiring P0 /\
    parallaxElements (Site.core (Site.run evs P0)) =
    parallaxElements (Site.core P0).
Proof. exact (script_features reduced y h w smooth history observer nodes). Qed.

Lemma moveAt_unwired x y path : forall P,
  Site.mousemoveListeners P = [] ->
  fold_left (Site.moveAt x y) path P = P.
Proof.
  induction path as [|i path IH]; intros P H; [reflexivity|].
  cbn [fold_left]. unfold Site.moveAt at 2. rewrite H. cbn [existsb].
  now apply IH.
Qed.

(** X12.  When reduced motion is preferred, or the window is narrower
    than 768 as the script runs, no card ever tilts: at every later time
    there is no mousemove and no mouseleave listener, and mouse moves and
    leaves change nothing, also after the window has been made wider. *)
Theorem tilt_switched_off
    (reduced : bool) (y : number) (h w : Z) (smooth history observer : bool)
    (nodes : list (Element * Site.Facts)) (evs : list Site.Event) :
  reduced = true \/ w < 768 ->
  let P := Site.run evs
             (Site.script
                (Site.fresh reduced false y h w smooth history observer nodes)) in
  Site.mousemoveListeners P = [] /\ Site.mouseleaveListeners P = [] /\
  (forall path clientX clientY,
      Site.step P (Site.evMouseMove path clientX clientY) = P) /\
  (forall i, Site.step P (Site.evMouseLeave i) = P).
Proof.
  intros Hg. cbv zeta.
  destruct (script_features reduced y h w smooth history observer nodes)
    as (_ & Hm & Hl & _ & _ & Hrun).
  cbv zeta in Hm, Hl, Hrun. destruct (Hrun evs) as [Hw _].
  set (P0 := Site.script _) in *. set (P := Site.run evs P0) in *.
  assert (G : reduced || (w <? 768) = true).
  { destruct Hg as [->|Hw']; [reflexivity|].
    apply orb_true_iff. right. now apply Z.ltb_lt. }
  rewrite G in Hm. rewrite Hm in Hl.
  unfold wiring in Hw.
  assert (Em : Site.mousemoveListeners P = []) by congruence.
  assert (El : Site.mouseleaveListeners P = []) by congruence.
  split; [exact Em|]. split; [exact El|]. split.
  - intros path x y'. cbn [Site.step]. now apply moveAt_unwired.
  - intros i. cbn [Site.step]. now rewrite El.
Qed.

Lemma tilt_switched_off_witness :
  let P := Site.run [Site.evMouseMove [0%nat] (ofZ 10) (ofZ 10)]
             (Site.script
                (Site.fresh false false (ofZ 0) 800 400 true true true
                   [(Sample.plain, SitePage.card)])) in
  Site.mousemoveListeners P = [] /\ Site.mouseleaveListeners P = [] /\
  (forall path clientX clientY,
      Site.step P (Site.evMouseMove path clientX clientY) = P) /\
  (forall i, Site.step P (Site.evMouseLeave i) = P).
Proof.
  apply (tilt_switched_off false (ofZ 0) 800 400 true true true
           [(Sample.plain, SitePage.card)]
           [Site.evMouseMove [0%nat] (ofZ 10) (ofZ 10)]).
  right. lia.
Defined.

(** ** Fade-in *)

Lemma reveal_fields P target :
  let P' := Site.reveal P (target, true) in
  Site.observed P' =
    List.filter (fun j => negb (Nat.eqb target j)) (Site.observed P) /\
  forall j,
    Site.facts P' !! j =
    if decide (target = j) then Site.set_opacity "1" <$> Site.facts P !! j
    else Site.facts P !! j.
Proof.
  cbv zeta. unfold Site.reveal, Site.unobserve.
  cbn [Site.observed Site.set_observed Site.facts].
  destruct (writeTransform_static target "translateY(0)"
              (Site.writeFacts target (Site.set_opacity "1") P))
    as (F & _ & _ & _ & O & _).
  rewrite O, F, writeFacts_observed. split; [reflexivity|].
  intros j. apply writeFacts_lookup.
Qed.

Lemma filter_neq_elem (t i : nat) (l : list nat) :
  i ∈ List.filter (fun j => negb (Nat.eqb t j)) l <-> i ∈ l /\ t <> i.
Proof.
  rewrite !list_elem_of_In, filter_In, negb_true_iff, Nat.eqb_neq. tauto.
Qed.

(** The styles that the fade-in writes, node by node. *)
Lemma environment_facts i (g : Site.Facts -> Site.Facts) P j :
  (forall f, Site.style_opacity (g f) = Site.style_opacity f) ->
  Site.style_opacity <$> Site.facts (Site.writeFacts i g P) !! j =
  Site.style_opacity <$> Site.facts P !! j.
Proof.
  intros Hg. rewrite writeFacts_lookup.
  destruct (decide (i = j)); [|reflexivity].
  destruct (Site.facts P !! j); cbn; [|reflexivity]. now rewrite Hg.
Qed.

Lemma fade_in_invariant (A : list nat) (o0 : nat -> option string) P ev :
  registered (Site.core P) -> readyStateLoading (Site.core P) = false ->
  (forall i, i ∈ Site.observed P -> i ∈ A) ->
  (forall i,
     Site.style_opacity <$> Site.facts P !! i =
     if decide (i ∈ A)
     then (fun _ => if decide (i ∈ Site.observed P) then "0" else "1")%string
            <$> Site.facts P !! i
     else o0 i) ->
  let P' := Site.step P ev in
  (forall i, i ∈ Site.observed P' -> i ∈ Site.observed P) /\
  (forall i,
     Site.style_opacity <$> Site.facts P' !! i =
     if decide (i ∈ A)
     then (fun _ => if decide (i ∈ Site.observed P') then "0" else "1")%string
            <$> Site.facts P' !! i
     else o0 i).
Proof.
  intros R Hl HA HS. cbv zeta.
  pose proof (shown_step P ev R (fun _ => Hl)) as Hsh.
  assert (Hsame : shown (Site.step P ev) = shown P ->
            (forall i, i ∈ Site.observed (Site.step P ev) -> i ∈ Site.observed P) /\
            (forall i,
               Site.style_opacity <$> Site.facts (Site.step P ev) !! i =
               if decide (i ∈ A)
               then (fun _ => if decide (i ∈ Site.observed (Site.step P ev))
                              then "0" else "1")%string
                      <$> Site.facts (Site.step P ev) !! i
               else o0 i)).
  { unfold shown. intros E. injection E as EF EO. rewrite EF, EO.
    split; [auto | exact HS]. }
  destruct ev as [ev|path q|path x y|i|entries|w|i h cs|i x w h];
    try (apply Hsame; exact Hsh).
  - (* the observer reports *)
    clear Hsh Hsame. cbn [Site.step]. unfold Site.observerCallback.
    set (es := List.filter _ entries).
    assert (Hes : Forall (fun e => fst e ∈ A) es).
    { apply Forall_forall. intros e He. unfold es in He.
      apply list_elem_of_In, filter_In in He as [_ He].
      apply HA. apply list_elem_of_In.
      apply existsb_exists in He as (x & Hx & Hxe).
      apply Nat.eqb_eq in Hxe. now subst x. }
    clearbody es. clear R Hl. revert P HA HS.
    induction es as [|[t b] es IH]; intros P HA HS; cbn [fold_left].
    + split; [auto | exact HS].
    + inversion Hes as [|? ? Ht Hes']; subst. cbn [fst] in Ht.
      destruct b.
      2:{ cbn [Site.reveal]. now apply IH. }
      destruct (reveal_fields P t) as [EO EF]. cbv zeta in EO, EF.
      set (P1 := Site.reveal P (t, true)) in *.
      destruct (IH Hes' P1) as [IO IS].
      * intros i Hi. rewrite EO in Hi. apply filter_neq_elem in Hi as [Hi _].
        now apply HA.
      * intros i. rewrite !EF, EO.
        destruct (decide (t = i)) as [->|Hne].
        -- destruct (decide (i ∈ A)) as [_|]; [|contradiction].
           destruct (decide (i ∈ List.filter _ (Site.observed P))) as [Hin|_].
           ++ apply filter_neq_elem in Hin as [_ Hin]. congruence.
           ++ now destruct (Site.facts P !! i).
        -- rewrite HS. destruct (decide (i ∈ A)); [|reflexivity].
           destruct (decide (i ∈ Site.observed P)) as [Hin|Hin];
             destruct (decide (i ∈ List.filter _ (Site.observed P))) as [Hf|Hf];
             try reflexivity; exfalso.
           ++ apply Hf. now apply filter_neq_elem.
           ++ apply filter_neq_elem in Hf as [Hf _]. contradiction.
      * split; [|exact IS].
        intros i Hi. apply IO in Hi. rewrite EO in Hi.
        now apply filter_neq_elem in Hi as [Hi _].
  - (* other code changes attributes *)
    cbn [Site.step]. rewrite writeFacts_observed. split; [auto|].
    intros j. rewrite environment_facts by reflexivity. rewrite HS.
    destruct (decide (j ∈ A)); [|reflexivity].
    rewrite writeFacts_lookup. destruct (decide (i = j)); [|reflexivity].
    now destruct (Site.facts P !! j).
  - cbn [Site.step]. rewrite writeFacts_observed. split; [auto|].
    intros j. rewrite environment_facts by reflexivity. rewrite HS.
    destruct (decide (j ∈ A)); [|reflexivity].
    rewrite writeFacts_lookup. destruct (decide (i = j)); [|reflexivity].
    now destruct (Site.facts P !! j).
Qed.

Lemma quiet_step P ev :
  registered (Site.core P) -> readyStateLoading (Site.core P) = false ->
  Site.observed P = [] ->
  Site.observed (Site.step P ev) = [] /\
  forall j,
    (fun f => (Site.style_opacity f, Site.style_transition f))
      <$> Site.facts (Site.step P ev) !! j =
    (fun f => (Site.style_opacity f, Site.style_transition f))
      <$> Site.facts P !! j.
Proof.
  intros R Hl HO.
  pose proof (shown_step P ev R (fun _ => Hl)) as Hsh.
  assert (Hsame : shown (Site.step P ev) = shown P ->
            Site.observed (Site.step P ev) = [] /\
            forall j,
              (fun f => (Site.style_opacity f, Site.style_transition f))
                <$> Site.facts (Site.step P ev) !! j =
              (fun f => (Site.style_opacity f, Site.style_transition f))
                <$> Site.facts P !! j).
  { unfold shown. intros E. injection E as EF EO. now rewrite EF, EO. }
  assert (Henv : forall i g,
            (forall f, Site.style_opacity (g f) = Site.style_opacity f) ->
            (forall f, Site.style_transition (g f) = Site.style_transition f) ->
            Site.observed (Site.writeFacts i g P) = [] /\
            forall j,
              (fun f => (Site.style_opacity f, Site.style_transition f))
                <$> Site.facts (Site.writeFacts i g P) !! j =
              (fun f => (Site.style_opacity f, Site.style_transition f))
                <$> Site.facts P !! j).
  { intros i g G1 G2. rewrite writeFacts_observed. split; [exact HO|].
    intros j. rewrite writeFacts_lookup.
    destruct (decide (i = j)); [|reflexivity].
    destruct (Site.facts P !! j); cbn; [|reflexivity]. now rewrite G1, G2. }
  destruct ev as [ev|path q|path x y|i|entries|w|i h cs|i x w h];
    try (apply Hsame; exact Hsh).
  - cbn [Site.step]. rewrite HO.
    replace (List.filter _ entries) with (@nil (nat * bool)).
    + now split.
    + clear. induction entries as [|e es IH]; [reflexivity | exact IH].
  - now apply Henv.
  - now apply Henv.
Qed.

(** X13.  When reduced motion is preferred, or there is no
    IntersectionObserver, nothing is ever observed, and [style.opacity] and
    [style.transition] of every node stay what the page came with. *)
Theorem fade_in_switched_off
    (reduced : bool) (y : number) (h w : Z) (smooth history observer : bool)
    (nodes : list (Element * Site.Facts)) (evs : list Site.Event) :
  reduced = true \/ observer = false ->
  let P := Site.run evs
             (Site.script
                (Site.fresh reduced false y h w smooth history observer nodes)) in
  Site.observed P = [] /\
  forall i,
    (fun f => (Site.style_opacity f, Site.style_transition f))
      <$> Site.facts P !! i =
    (fun n => (Site.style_opacity (snd n), Site.style_transition (snd n)))
      <$> nodes !! i.
Proof.
  intros Hg. cbv zeta.
  destruct (script_started reduced y h w smooth history observer nodes)
    as [R Hl]. cbv zeta in R, Hl.
  rewrite script_ready in *. set (Q := Site.set_core _ _) in *.
  destruct (init_shown Q eq_refl) as (O & F & _). cbv zeta in O, F.
  change (prefersReducedMotion (Site.core Q)) with reduced in *.
  change (Site.intersectionObserver Q) with observer in *.
  assert (G : reduced || negb observer = true)
    by (destruct Hg as [-> | ->]; [reflexivity | apply orb_true_r]).
  rewrite G in O, F. specialize (F eq_refl).
  assert (H0 : forall i,
             (fun f => (Site.style_opacity f, Site.style_transition f))
               <$> Site.facts (Site.init Q) !! i =
             (fun n => (Site.style_opacity (snd n), Site.style_transition (snd n)))
               <$> nodes !! i).
  { intros i. rewrite F. cbn [Site.facts Q Site.set_core Site.fresh].
    rewrite list_lookup_fmap. now destruct (nodes !! i). }
  revert R Hl O H0. generalize (Site.init Q). clear.
  unfold Site.run. induction evs as [|ev evs IH]; intros P R Hl O H0; cbn [fold_left].
  - now split.
  - destruct (started_step P ev R Hl) as [R' Hl'].
    destruct (quiet_step P ev R Hl O) as [O' H'].
    apply IH; try assumption. intros i. now rewrite H'.
Qed.

Lemma fade_in_switched_off_witness :
  let card := Site.mkFacts "div" None ["card"%string]
                (ofZ 0) (ofZ 300) (ofZ 200) EmptyString EmptyString in
  let P := Site.run [Site.evIntersection [(0%nat, true)]]
             (Site.script
                (Site.fresh false false (ofZ 0) 800 1024 true true false
                   [(Sample.plain, card)])) in
  Site.observed P = [] /\
  forall i,
    (fun f => (Site.style_opacity f, Site.style_transition f))
      <$> Site.facts P !! i =
    (fun n => (Site.style_opacity (snd n), Site.style_transition (snd n)))
      <$> [(Sample.plain, card)] !! i.
Proof.
  apply (fade_in_switched_off false (ofZ 0) 800 1024 true true false).
  now right.
Defined.

(** X14.  With the fade-in on, the observed targets are always among the
    animated elements found at initialisation; such an element has opacity
    ['0'] exactly while it is observed and ['1'] once it is not; the
    opacity of any other node is what the page came with; and no event
    makes the observer observe a node it does not observe already, so an
    element that was revealed stays revealed. *)
Theorem hidden_while_observed
    (y : number) (h w : Z) (smooth history : bool)
    (nodes : list (Element * Site.Facts)) (evs : list Site.Event) :
  let A := Site.select_from Site.isAnimated 0 (map snd nodes) in
  let P := Site.run evs
             (Site.script
                (Site.fresh false false y h w smooth history true nodes)) in
  (forall i, i ∈ Site.observed P -> i ∈ A) /\
  (forall i f, Site.facts P !! i = Some f -> i ∈ A ->
     Site.style_opacity f =
     if decide (i ∈ Site.observed P) then "0"%string else "1"%string) /\
  (forall i f, Site.facts P !! i = Some f -> i ∉ A ->
     Some (Site.style_opacity f) =
     (fun n => Site.style_opacity (snd n)) <$> nodes !! i) /\
  (forall ev i, i ∈ Site.observed (Site.step P ev) -> i ∈ Site.observed P).
Proof.
  cbv zeta.
  destruct (script_started false y h w smooth history true nodes)
    as [R Hl]. cbv zeta in R, Hl.
  rewrite script_ready in *. set (Q := Site.set_core _ _) in *.
  destruct (init_shown Q eq_refl) as (O & _ & F & _). cbv zeta in O, F.
  change (prefersReducedMotion (Site.core Q)) with false in *.
  change (Site.intersectionObserver Q) with true in *. cbn [orb negb] in O, F.
  change (Site.querySelectorAll Site.isAnimated Q)
    with (Site.select_from Site.isAnimated 0 (map snd nodes)) in *.
  set (A := Site.select_from Site.isAnimated 0 (map snd nodes)) in *.
  set (o0 := fun i => (fun n => Site.style_opacity (snd n)) <$> nodes !! i).
  assert (Inv : (forall i, i ∈ Site.observed (Site.run evs (Site.init Q)) -> i ∈ A) /\
                (forall i,
                   Site.style_opacity <$>
                     Site.facts (Site.run evs (Site.init Q)) !! i =
                   if decide (i ∈ A)
                   then (fun _ => if decide (i ∈ Site.observed
                                                  (Site.run evs (Site.init Q)))
                                  then "0" else "1")%string
                          <$> Site.facts (Site.run evs (Site.init Q)) !! i
                   else o0 i) /\
                registered (Site.core (Site.run evs (Site.init Q))) /\
                readyStateLoading (Site.core (Site.run evs (Site.init Q))) = false).
  { assert (HA0 : forall i, i ∈ Site.observed (Site.init Q) -> i ∈ A)
      by (intros i; now rewrite O).
    assert (HS0 : forall i,
               Site.style_opacity <$> Site.facts (Site.init Q) !! i =
               if decide (i ∈ A)
               then (fun _ => if decide (i ∈ Site.observed (Site.init Q))
                              then "0" else "1")%string
                      <$> Site.facts (Site.init Q) !! i
               else o0 i).
    { intros i. rewrite F, O. destruct (decide (i ∈ A)) as [Hi|Hi].
      - destruct (Site.facts Q !! i) eqn:E1; cbn.
        + assert (is_Some (Site.facts (Site.init Q) !! i)) as [f' ->].
          { destruct (Site.facts (Site.init Q) !! i) eqn:E2; [eauto|].
            pose proof (F i) as Fi. rewrite E2, E1 in Fi.
            destruct (decide (i ∈ A)); [discriminate | contradiction]. }
          reflexivity.
        + pose proof (F i) as Fi. rewrite E1 in Fi.
          destruct (decide (i ∈ A)); [|contradiction].
          destruct (Site.facts (Site.init Q) !! i); [discriminate | reflexivity].
      - unfold o0. cbn [Site.facts Q Site.set_core Site.fresh].
        rewrite list_lookup_fmap. now destruct (nodes !! i). }
    revert R Hl HA0 HS0. generalize (Site.init Q). clear -A.
    unfold Site.run. induction evs as [|ev evs IH]; intros P R Hl HA HS;
      cbn [fold_left].
    - split; [exact HA|]. split; [exact HS|]. now split.
    - destruct (started_step P ev R Hl) as [R' Hl'].
      destruct (fade_in_invariant A o0 P ev R Hl HA HS) as [HO' HS'].
      apply IH; auto. }
  destruct Inv as (HA & HS & R' & Hl').
  set (P := Site.run evs (Site.init Q)) in *.
  split; [exact HA|]. split; [|split].
  - intros i f Hf Hi. pose proof (HS i) as Hs. rewrite Hf in Hs. cbn in Hs.
    destruct (decide (i ∈ A)); [|contradiction]. now inversion Hs.
  - intros i f Hf Hi. pose proof (HS i) as Hs. rewrite Hf in Hs. cbn in Hs.
    destruct (decide (i ∈ A)); [contradiction|]. exact Hs.
  - intros ev i.
    destruct (fade_in_invariant A o0 P ev R' Hl' HA HS) as [HO' _].
    apply HO'.
Qed.

(** ** Button feedback *)

Lemma writeTransform_lookup k t P j :
  document (Site.core (Site.writeTransform k t P)) !! j =
  if decide (k = j) then set_transform t <$> document (Site.core P) !! j
  else document (Site.core P) !! j.
Proof.
  unfold Site.writeTransform.
  destruct (decide (k = j)) as [->|Hne].
  - destruct (document (Site.core P) !! j) as [el|] eqn:E; cbn.
    + apply list_lookup_insert_eq. apply lookup_lt_is_Some. eauto.
    + exact E.
  - destruct (document (Site.core P) !! k); cbn; [|reflexivity].
    now apply list_lookup_insert_ne.
Qed.

(** What stays as it is in the parallax component when only a transform
    is written. *)
Lemma writeTransform_core k t P :
  let st := Site.core (Site.writeTransform k t P) in
  parallaxElements st = parallaxElements (Site.core P) /\
  timers st = timers (Site.core P) /\ now st = now (Site.core P) /\
  nextTimerId st = nextTimerId (Site.core P) /\
  resizeTimeout st = resizeTimeout (Site.core P) /\
  scrollListeners st = scrollListeners (Site.core P) /\
  resizeListeners st = resizeListeners (Site.core P) /\
  frameCallbacks st = frameCallbacks (Site.core P) /\
  domContentLoadedListeners st = domContentLoadedListeners (Site.core P) /\
  readyStateLoading st = readyStateLoading (Site.core P) /\
  matchMediaCalls st = matchMediaCalls (Site.core P) /\
  ticking st = ticking (Site.core P) /\ passes st = passes (Site.core P).
Proof. cbv zeta. rewrite core_writeTransform. now repeat split. Qed.

Lemma anchorClick_core q this P :
  Site.core (Site.anchorClick q this P) = Site.core P /\
  Site.resets (Site.anchorClick q this P) = Site.resets P.
Proof.
  unfold Site.anchorClick. destruct (Site.facts P !! this); [|now split].
  match goal with |- context [if ?c then _ else _] => destruct c end;
    [now split|].
  now destruct (q _).
Qed.

Lemma listen_fields q this P l :
  let P' := Site.listen q this P l in
  Site.resets P' =
    Site.resets P ++
    (if isButtonListener this l
     then [Site.mkReset (nextTimerId (Site.core P))
             (now (Site.core P) + 150) this]
     else []) /\
  (forall j, j <> this ->
     document (Site.core P') !! j = document (Site.core P) !! j) /\
  document (Site.core P') !! this =
    (if isButtonListener this l
     then set_transform "scale(0.98)" <$> document (Site.core P) !! this
     else document (Site.core P) !! this) /\
  parallaxElements (Site.core P') = parallaxElements (Site.core P) /\
  timers (Site.core P') = timers (Site.core P) /\
  now (Site.core P') = now (Site.core P) /\
  nextTimerId (Site.core P') = nextTimerId (Site.core P).
Proof.
  cbv zeta. unfold isButtonListener, Site.listen.
  destruct (Nat.eqb (fst l) this); cbn [andb].
  2:{ rewrite app_nil_r. now repeat split. }
  destruct (snd l).
  - destruct (anchorClick_core q this P) as [Ec Er].
    rewrite Ec, Er, app_nil_r. now repeat split.
  - unfold Site.buttonClick.
    cbn [Site.core Site.resets Site.set_resets].
    destruct (writeTransform_core this "scale(0.98)" P)
      as (Hp & Ht & Hn & Hi & _).
    destruct (writeTransform_static this "scale(0.98)" P)
      as (_ & _ & _ & _ & _ & Hr & _).
    cbv zeta in Hp, Ht, Hn, Hi, Hr.
    rewrite Hp, Ht, Hn, Hi, Hr.
    repeat split.
    + intros j Hj. rewrite writeTransform_lookup.
      destruct (decide (this = j)); [congruence | reflexivity].
    + rewrite writeTransform_lookup.
      destruct (decide (this = this)); [reflexivity | contradiction].
Qed.

(** A click on node [this]: every button listener on it writes the scale
    and sets a timer. *)
Lemma click_fold q this ls : forall P,
  let P' := fold_left (Site.listen q this) ls P in
  let n := length (List.filter (isButtonListener this) ls) in
  Site.resets P' =
    Site.resets P ++
    repeat (Site.mkReset (nextTimerId (Site.core P))
              (now (Site.core P) + 150) this) n /\
  (forall j, j <> this ->
     document (Site.core P') !! j = document (Site.core P) !! j) /\
  document (Site.core P') !! this =
    (if (0 <? n)%nat
     then set_transform "scale(0.98)" <$> document (Site.core P) !! this
     else document (Site.core P) !! this) /\
  parallaxElements (Site.core P') = parallaxElements (Site.core P) /\
  timers (Site.core P') = timers (Site.core P) /\
  now (Site.core P') = now (Site.core P) /\
  nextTimerId (Site.core P') = nextTimerId (Site.core P).
Proof.
  induction ls as [|l ls IH]; intros P; cbn [fold_left List.filter].
  - cbn. rewrite app_nil_r. now repeat split.
  - destruct (IH (Site.listen q this P l)) as (IR & IO & IT & IP & ITm & IN & II).
    destruct (listen_fields q this P l) as (LR & LO & LT & LP & LTm & LN & LI).
    cbv zeta in *. set (P1 := Site.listen q this P l) in *.
    rewrite IR, IT, IP, ITm, IN, II, LR, LT, LP, LTm, LN, LI.
    split; [|split; [|split; [|now repeat split]]].
    + destruct (isButtonListener this l); cbn [length repeat];
        rewrite <- app_assoc; reflexivity.
    + intros j Hj. now rewrite (IO j Hj), (LO j Hj).
    + destruct (isButtonListener this l); cbn [length]; [|reflexivity].
      destruct (length (List.filter (isButtonListener this) ls));
        now destruct (document (Site.core P) !! this).
Qed.

Lemma fireJobs_node i js : forall Q,
  Forall (fun j => forall tm, j = Site.jobTimer tm -> timer_callback tm <> cbInit) js ->
  i ∉ parallaxElements (Site.core Q) ->
  let Q' := fold_left Site.fireJob js Q in
  parallaxElements (Site.core Q') = parallaxElements (Site.core Q) /\
  Site.resets Q' = Site.resets Q /\
  document (Site.core Q') !! i =
    if existsb (resetsNode i) js
    then set_transform EmptyString <$> document (Site.core Q) !! i
    else document (Site.core Q) !! i.
Proof.
  induction js as [|j js IH]; intros Q Hjs Hi; cbn [fold_left existsb].
  - now repeat split.
  - inversion Hjs as [|? ? Hj Hjs']; subst.
    assert (H1 : parallaxElements (Site.core (Site.fireJob Q j)) =
                 parallaxElements (Site.core Q) /\
                 Site.resets (Site.fireJob Q j) = Site.resets Q /\
                 document (Site.core (Site.fireJob Q j)) !! i =
                 if resetsNode i j
                 then set_transform EmptyString <$> document (Site.core Q) !! i
                 else document (Site.core Q) !! i).
    { destruct j as [tm|r]; cbn [Site.fireJob resetsNode].
      - destruct (pending _ _); [|now repeat split].
        rewrite call_lift by now apply Hj.
        cbn [Site.core Site.set_core Site.resets].
        rewrite call_tracked by now apply Hj.
        rewrite call_untracked; [| now apply Hj |].
        + unfold clearTimeout. now repeat split.
        + exact Hi.
      - destruct (writeTransform_core (Site.reset_node r) EmptyString
                    (Site.set_core
                       (set_now (Z.max (now (Site.core Q)) (Site.reset_due r))
                          (Site.core Q)) Q)) as (Hp & _).
        destruct (writeTransform_static (Site.reset_node r) EmptyString
                    (Site.set_core
                       (set_now (Z.max (now (Site.core Q)) (Site.reset_due r))
                          (Site.core Q)) Q)) as (_ & _ & _ & _ & _ & Hr & _).
        cbv zeta in Hp, Hr. rewrite Hp, Hr, writeTransform_lookup.
        cbn [Site.core Site.set_core Site.resets].
        split; [reflexivity|]. split; [reflexivity|].
        destruct (decide (Site.reset_node r = i)) as [->|Hne].
        + now rewrite Nat.eqb_refl.
        + now rewrite (proj2 (Nat.eqb_neq _ _) Hne). }
    destruct H1 as (P1 & R1 & D1).
    destruct (IH (Site.fireJob Q j) Hjs') as (P2 & R2 & D2).
    { now rewrite P1. }
    cbv zeta in *. rewrite P2, R2, D2, P1, R1, D1.
    split; [reflexivity|]. split; [reflexivity|].
    destruct (resetsNode i j); cbn [orb]; [|reflexivity].
    destruct (existsb (resetsNode i) js); [|reflexivity].
    now destruct (document (Site.core Q) !! i).
Qed.

Lemma dueJobs_resets i t P :
  existsb (resetsNode i) (Site.dueJobs t P) = resetDue i t P.
Proof.
  unfold resetDue. apply eq_true_iff_eq. rewrite !existsb_exists. split.
  - intros (j & Hj & Hn). apply list_elem_of_In in Hj.
    unfold Site.dueJobs in Hj. apply (proj1 (sortJobs_elem _ _)) in Hj.
    apply list_elem_of_In, in_app_or in Hj. destruct Hj as [Hj|Hj].
    + apply in_map_iff in Hj as (tm & <- & _). discriminate.
    + apply in_map_iff in Hj as (r & <- & Hr).
      apply filter_In in Hr as [Hr Hd]. exists r. split; [exact Hr|].
      cbn [resetsNode] in Hn. now rewrite Hn, Hd.
  - intros (r & Hr & Hn). apply andb_true_iff in Hn as [Hn Hd].
    exists (Site.jobReset r). split; [|exact Hn].
    apply list_elem_of_In. unfold Site.dueJobs. apply sortJobs_elem.
    apply list_elem_of_In, in_or_app. right.
    apply in_map. apply filter_In. now split.
Qed.

(** What the passing of time does to a node that is not tracked. *)
Lemma elapse_node i dt P :
  registered (Site.core P) -> i ∉ parallaxElements (Site.core P) ->
  let t := now (Site.core P) + Z.max 0 dt in
  let P' := Site.elapse dt P in
  document (Site.core P') !! i =
    (if resetDue i t P
     then set_transform EmptyString <$> document (Site.core P) !! i
     else document (Site.core P) !! i) /\
  Site.resets P' =
    List.filter (fun r => negb (Site.reset_due r <=? t)) (Site.resets P) /\
  now (Site.core P') = t /\
  parallaxElements (Site.core P') = parallaxElements (Site.core P).
Proof.
  intros R Hi. cbv zeta. unfold Site.elapse.
  cbn [Site.core Site.set_core Site.resets Site.set_resets].
  destruct (fireJobs_node i (Site.dueJobs (now (Site.core P) + Z.max 0 dt) P) P
              (dueJobs_callbacks _ P R) Hi) as (Hp & Hr & Hd).
  cbv zeta in Hp, Hr, Hd. rewrite dueJobs_resets in Hd.
  change (document (set_now ?t ?s)) with (document s).
  change (parallaxElements (set_now ?t ?s)) with (parallaxElements s).
  rewrite Hd, Hr, Hp. now repeat split.
Qed.

Lemma filter_length_existsb {A : Type} (p : A -> bool) (l : list A) :
  (0 <? length (List.filter p l))%nat = existsb p l.
Proof.
  induction l as [|x l IH]; [reflexivity|]. cbn [List.filter existsb].
  destruct (p x); [reflexivity | exact IH].
Qed.

(** A click that propagates along [path]. *)
Lemma click_path q path : forall P,
  let P' := fold_left (Site.clickAt q) path P in
  (exists rs,
      Site.resets P' = Site.resets P ++ rs /\
      Forall (fun r => Site.reset_due r = now (Site.core P) + 150) rs /\
      forall i, pressed path P i = true ->
                exists r, r ∈ rs /\ Site.reset_node r = i) /\
  (forall i,
      document (Site.core P') !! i =
      if pressed path P i
      then set_transform "scale(0.98)" <$> document (Site.core P) !! i
      else document (Site.core P) !! i) /\
  parallaxElements (Site.core P') = parallaxElements (Site.core P) /\
  now (Site.core P') = now (Site.core P) /\
  Site.clickListeners P' = Site.clickListeners P.
Proof.
  induction path as [|a path IH]; intros P; cbn [fold_left].
  - split; [|now repeat split].
    exists []. rewrite app_nil_r. split; [reflexivity|]. split; [constructor|].
    intros i Hi. discriminate.
  - destruct (IH (Site.clickAt q P a)) as ((rs & IR & IF & IE) & ID & IP & IN & IL).
    pose proof (wiring_clickAt q P a) as W. unfold wiring in W.
    assert (L1 : Site.clickListeners (Site.clickAt q P a) = Site.clickListeners P)
      by congruence.
    unfold Site.clickAt in IR, IF, IE, ID, IP, IN, IL, L1 |- *.
    destruct (click_fold q a (Site.clickListeners P) P)
      as (CR & CO & CT & CP & _ & CN & _).
    cbv zeta in *.
    set (P1 := fold_left (Site.listen q a) (Site.clickListeners P) P) in *.
    rewrite filter_length_existsb in CT.
    set (n := length (List.filter (isButtonListener a) (Site.clickListeners P))) in *.
    set (r0 := Site.mkReset (nextTimerId (Site.core P))
                 (now (Site.core P) + 150) a) in *.
    assert (Hp : forall i, pressed (a :: path) P i =
                           (Nat.eqb i a && existsb (isButtonListener a)
                                             (Site.clickListeners P))
                           || pressed path P1 i).
    { intros i. unfold pressed. rewrite L1. cbn [existsb].
      destruct (Nat.eqb_spec i a) as [->|Hne]; cbn [orb andb]; [|reflexivity].
      destruct (existsb (isButtonListener a) (Site.clickListeners P));
        [now rewrite ?andb_true_r | now rewrite ?andb_false_r]. }
    split; [|split; [|split; [|split]]].
    + exists (repeat r0 n ++ rs). rewrite IR, CR, <- app_assoc.
      split; [reflexivity|]. split.
      * apply Forall_app. split.
        -- apply Forall_forall. intros r Hr. apply list_elem_of_In in Hr.
           apply repeat_spec in Hr. now subst r.
        -- rewrite CN in IF. exact IF.
      * intros i Hi. rewrite Hp in Hi. apply orb_true_iff in Hi as [Hi|Hi].
        -- apply andb_true_iff in Hi as [Ha Hb]. apply Nat.eqb_eq in Ha. subst i.
           exists r0. split; [|reflexivity]. apply elem_of_app. left.
           rewrite <- filter_length_existsb in Hb. fold n in Hb.
           destruct n; [discriminate|]. cbn [repeat]. apply elem_of_cons. now left.
        -- destruct (IE i Hi) as (r & Hr & Hn). exists r. split; [|exact Hn].
           apply elem_of_app. now right.
    + intros i. rewrite ID, Hp.
      destruct (Nat.eqb_spec i a) as [->|Hne]; cbn [andb orb].
      * rewrite CT.
        destruct (existsb (isButtonListener a) (Site.clickListeners P));
          cbn [orb]; [|reflexivity].
        destruct (pressed path P1 a); [|reflexivity].
        now destruct (document (Site.core P) !! a).
      * now rewrite (CO i Hne).
    + now rewrite IP, CP.
    + now rewrite IN, CN.
    + now rewrite IL, L1.
Qed.

Lemma pressed_true path P this :
  this ∈ path -> (this, Site.onButtonClick) ∈ Site.clickListeners P ->
  pressed path P this = true.
Proof.
  intros Hp Hl. unfold pressed. apply andb_true_iff. split.
  - apply existsb_exists. exists this. split; [now apply list_elem_of_In|].
    apply Nat.eqb_refl.
  - apply existsb_exists. exists (this, Site.onButtonClick).
    split; [now apply list_elem_of_In|].
    unfold isButtonListener. cbn. now rewrite Nat.eqb_refl.
Qed.

Lemma site_reachable_registered P : Site.reachable P -> registered (Site.core P).
Proof. intros H. now apply reachable_registered, site_reachable_core. Qed.

Lemma resetDue_app i t P rs Q :
  Site.resets Q = Site.resets P ++ rs ->
  resetDue i t Q =
  resetDue i t P ||
  existsb (fun r => Nat.eqb (Site.reset_node r) i && (Site.reset_due r <=? t)) rs.
Proof. intros H. unfold resetDue. now rewrite H, existsb_app. Qed.

(** A click on a button, then [dt] milliseconds. *)
Lemma button_press P this el path q dt :
  Site.reachable P ->
  (this, Site.onButtonClick) ∈ Site.clickListeners P ->
  this ∉ parallaxElements (Site.core P) ->
  document (Site.core P) !! this = Some el ->
  this ∈ path ->
  let P1 := Site.step P (Site.evClick path q) in
  let P2 := Site.step P1 (Site.evWindow (evElapse dt)) in
  transformAt this P1 = Some "scale(0.98)"%string /\
  transformAt this P2 =
    Some (if (150 <=? dt) || resetDue this (now (Site.core P) + Z.max 0 dt) P
          then EmptyString else "scale(0.98)"%string) /\
  (exists rs,
      Site.resets P1 = Site.resets P ++ rs /\
      Forall (fun r => Site.reset_due r = now (Site.core P) + 150) rs /\
      exists r, r ∈ rs /\ Site.reset_node r = this) /\
  now (Site.core P1) = now (Site.core P) /\
  now (Site.core P2) = now (Site.core P) + Z.max 0 dt /\
  Site.clickListeners P2 = Site.clickListeners P /\
  parallaxElements (Site.core P2) = parallaxElements (Site.core P) /\
  Site.resets P2 =
    List.filter
      (fun r => negb (Site.reset_due r <=? now (Site.core P) + Z.max 0 dt))
      (Site.resets P1).
Proof.
  intros HP Hl Ht Hel Hpath. cbv zeta.
  assert (HP1 : Site.reachable (Site.step P (Site.evClick path q)))
    by now constructor.
  pose proof (site_reachable_registered _ HP1) as R1.
  pose proof (site_reachable_registered _ HP) as R0.
  pose proof (wiring_step _ (Site.evWindow (evElapse dt)) R1 ltac:(discriminate))
    as W2.
  revert R1 W2. cbn [Site.step].
  destruct (click_path q path P) as ((rs & CR & CF & CE) & CD & CP & CN & CL).
  cbv zeta in *. set (P1 := fold_left (Site.clickAt q) path P) in *.
  intros R1 W2.
  pose proof (pressed_true path P this Hpath Hl) as Hpr.
  assert (D1 : document (Site.core P1) !! this =
               Some (set_transform "scale(0.98)" el)).
  { now rewrite CD, Hpr, Hel. }
  assert (T1 : this ∉ parallaxElements (Site.core P1)) by now rewrite CP.
  destruct (elapse_node this dt P1 R1 T1) as (ED & ER & EN & EP).
  cbv zeta in *. rewrite CN in ED, ER, EN.
  destruct (CE this Hpr) as (r & Hr & Hn).
  split; [|split; [|split; [|split; [|split; [|split; [|split]]]]]].
  - unfold transformAt. now rewrite D1.
  - unfold transformAt. rewrite ED, D1.
    rewrite (resetDue_app this _ P rs P1 CR).
    assert (E : existsb (fun r => Nat.eqb (Site.reset_node r) this &&
                                  (Site.reset_due r <=? now (Site.core P) + Z.max 0 dt))
                  rs = (150 <=? dt)).
    { apply eq_true_iff_eq. rewrite existsb_exists. split.
      - intros (r' & Hr' & Hc). apply andb_true_iff in Hc as [_ Hc].
        apply list_elem_of_In in Hr'.
        rewrite (proj1 (Forall_forall _ _) CF r' Hr') in Hc.
        apply Z.leb_le in Hc. apply Z.leb_le. lia.
      - intros Hd. apply Z.leb_le in Hd. exists r.
        split; [now apply list_elem_of_In|].
        rewrite Hn, Nat.eqb_refl. cbn [andb].
        rewrite (proj1 (Forall_forall _ _) CF r Hr). apply Z.leb_le. lia. }
    rewrite E, orb_comm.
    now destruct ((150 <=? dt) || resetDue this (now (Site.core P) + Z.max 0 dt) P).
  - exists rs. split; [exact CR|]. split; [exact CF|]. now exists r.
  - exact CN.
  - exact EN.
  - unfold wiring in W2. rewrite <- CL. congruence.
  - now rewrite EP.
  - exact ER.
Qed.

(** X15.  A click that reaches a button that is no parallax layer sets
    its transform to ['scale(0.98)'].  After [dt] more milliseconds the
    transform is the empty string if [dt >= 150], or if the reset of an
    earlier click on the button has come due by then; otherwise it still
    is ['scale(0.98)']. *)
Theorem button_feedback
    (P : Site.Page) (this : nat) (el : Element) (path : list nat)
    (querySelector : string -> Site.Query) (dt : Z) :
  Site.reachable P ->
  (this, Site.onButtonClick) ∈ Site.clickListeners P ->
  this ∉ parallaxElements (Site.core P) ->
  document (Site.core P) !! this = Some el ->
  this ∈ path ->
  let P1 := Site.step P (Site.evClick path querySelector) in
  let P2 := Site.step P1 (Site.evWindow (evElapse dt)) in
  transformAt this P1 = Some "scale(0.98)"%string /\
  transformAt this P2 =
    Some (if (150 <=? dt) || resetDue this (now (Site.core P) + Z.max 0 dt) P
          then EmptyString else "scale(0.98)"%string).
Proof.
  intros HP Hl Ht Hel Hpath.
  destruct (button_press P this el path querySelector dt HP Hl Ht Hel Hpath)
    as (H1 & H2 & _).
  now split.
Qed.

(** X16.  A new click does not cancel the reset of the click before.
    When a button is clicked again [d < 150] milliseconds after a click,
    then [e] milliseconds after the second click, [150 - d <= e < 150], its
    transform is the empty string already, although the reset of the
    second click is still pending, due in [150 - e] milliseconds. *)
Theorem second_click_cut_short
    (P : Site.Page) (this : nat) (el : Element) (path path' : list nat)
    (q q' : string -> Site.Query) (d e : Z) :
  Site.reachable P ->
  (this, Site.onButtonClick) ∈ Site.clickListeners P ->
  this ∉ parallaxElements (Site.core P) ->
  document (Site.core P) !! this = Some el ->
  this ∈ path -> this ∈ path' ->
  0 <= d < 150 -> 150 - d <= e < 150 ->
  let P3 := Site.run [Site.evClick path q; Site.evWindow (evElapse d);
                      Site.evClick path' q'] P in
  let P4 := Site.step P3 (Site.evWindow (evElapse e)) in
  transformAt this P3 = Some "scale(0.98)"%string /\
  now (Site.core P4) = now (Site.core P3) + e /\
  transformAt this P4 = Some EmptyString /\
  exists r, r ∈ Site.resets P4 /\ Site.reset_node r = this /\
            Site.reset_due r = now (Site.core P4) + (150 - e).
Proof.
  intros HP Hl Ht Hel Hpath Hpath' Hd He. cbv zeta.
  unfold Site.run. cbn [fold_left].
  destruct (button_press P this el path q d HP Hl Ht Hel Hpath)
    as (_ & T2 & (rs & R1 & F1 & r1 & Hr1 & Hn1) & N1 & N2 & L2 & E2 & R2).
  cbv zeta in *.
  set (P1 := Site.step P (Site.evClick path q)) in *.
  set (P2 := Site.step P1 (Site.evWindow (evElapse d))) in *.
  assert (HP2 : Site.reachable P2) by (do 2 constructor; exact HP).
  unfold transformAt in T2.
  destruct (document (Site.core P2) !! this) as [el2|] eqn:D2; [|discriminate].
  destruct (button_press P2 this el2 path' q' e HP2)
    as (T3 & T4 & (rs' & R3 & F3 & r3 & Hr3 & Hn3) & N3 & N4 & _ & _ & R4);
    try assumption.
  { now rewrite L2. }
  { now rewrite E2. }
  cbv zeta in *.
  set (P3 := Site.step P2 (Site.evClick path' q')) in *.
  set (P4 := Site.step P3 (Site.evWindow (evElapse e))) in *.
  pose proof (proj1 (Forall_forall _ _) F1 r1 Hr1) as Due1. cbv beta in Due1.
  pose proof (proj1 (Forall_forall _ _) F3 r3 Hr3) as Due3. cbv beta in Due3.
  assert (In2 : r1 ∈ Site.resets P2).
  { rewrite R2, R1. apply list_elem_of_In, filter_In. split.
    - apply in_or_app. right. now apply list_elem_of_In.
    - rewrite Due1. apply negb_true_iff, Z.leb_gt. lia. }
  assert (G : resetDue this (now (Site.core P2) + Z.max 0 e) P2 = true).
  { unfold resetDue. apply existsb_exists. exists r1.
    split; [now apply list_elem_of_In|].
    rewrite Hn1, Nat.eqb_refl, Due1, N2. cbn [andb]. apply Z.leb_le. lia. }
  rewrite G, orb_true_r in T4.
  split; [exact T3|]. split; [rewrite N4, N3; lia|]. split; [exact T4|].
  exists r3. split; [|split; [exact Hn3|]].
  - rewrite R4, R3. apply list_elem_of_In, filter_In. split.
    + apply in_or_app. right. now apply list_elem_of_In.
    + rewrite Due3. apply negb_true_iff, Z.leb_gt. lia.
  - rewrite Due3, N4. lia.
Qed.

Lemma button_feedback_witness :
  let P1 := Site.step SitePage.withButton (Site.evClick [0%nat] (fun _ => Site.missing)) in
  let P2 := Site.step P1 (Site.evWindow (evElapse 200)) in
  transformAt 0 P1 = Some "scale(0.98)"%string /\
  transformAt 0 P2 =
    Some (if (150 <=? 200) ||
             resetDue 0 (now (Site.core SitePage.withButton) + Z.max 0 200)
               SitePage.withButton
          then EmptyString else "scale(0.98)"%string).
Proof.
  apply (button_feedback SitePage.withButton 0 Sample.plain [0%nat]
           (fun _ => Site.missing) 200).
  - apply Site.reach_script.
  - vm_compute. constructor.
  - vm_compute. apply not_elem_of_nil.
  - reflexivity.
  - constructor.
Defined.

Lemma second_click_cut_short_witness :
  let P3 := Site.run [Site.evClick [0%nat] (fun _ => Site.missing);
                      Site.evWindow (evElapse 100);
                      Site.evClick [0%nat] (fun _ => Site.missing)]
              SitePage.withButton in
  let P4 := Site.step P3 (Site.evWindow (evElapse 50)) in
  transformAt 0 P3 = Some "scale(0.98)"%string /\
  now (Site.core P4) = now (Site.core P3) + 50 /\
  transformAt 0 P4 = Some EmptyString /\
  exists r, r ∈ Site.resets P4 /\ Site.reset_node r = 0%nat /\
            Site.reset_due r = now (Site.core P4) + (150 - 50).
Proof.
  apply (second_click_cut_short SitePage.withButton 0 Sample.plain
           [0%nat] [0%nat] (fun _ => Site.missing) (fun _ => Site.missing) 100 50).
  - apply Site.reach_script.
  - vm_compute. constructor.
  - vm_compute. apply not_elem_of_nil.
  - reflexivity.
  - constructor.
  - constructor.
  - lia.
  - lia.
Defined.

(** ** Card tilt *)

Lemma sub_self (x : number) : is_finite x = true -> sub x x = S754_zero false.
Proof.
  destruct x as [s| | |s m e]; intros H; try discriminate.
  - now destruct s.
  - unfold sub, SFsub. now rewrite Z.sub_diag.
Qed.

Lemma moveAt_fields x y P j :
  let P' := Site.moveAt x y P j in
  Site.facts P' = Site.facts P /\
  Site.mousemoveListeners P' = Site.mousemoveListeners P /\
  forall i,
    document (Site.core P') !! i =
    if Nat.eqb i j && existsb (Nat.eqb i) (Site.mousemoveListeners P)
    then match document (Site.core P) !! i, Site.facts P !! i with
         | Some el, Some f =>
             Some (set_transform
                     (Site.tiltTransform
                        (Site.rotateXOf y (rect_top el) (Site.rect_height f))
                        (Site.rotateYOf x (Site.rect_left f) (Site.rect_width f)))
                     el)
         | o, _ => o
         end
    else document (Site.core P) !! i.
Proof.
  cbv zeta. unfold Site.moveAt.
  destruct (existsb (Nat.eqb j) (Site.mousemoveListeners P)) eqn:Hw.
  - unfold Site.tiltMove.
    destruct (document (Site.core P) !! j) as [el|] eqn:Hd.
    + destruct (Site.facts P !! j) as [f|] eqn:Hf.
      * destruct (writeTransform_static j
                    (Site.tiltTransform
                       (Site.rotateXOf y (rect_top el) (Site.rect_height f))
                       (Site.rotateYOf x (Site.rect_left f) (Site.rect_width f)))
                    P) as (HF & _ & HM & _).
        cbv zeta in HF, HM. rewrite HF, HM.
        split; [reflexivity|]. split; [reflexivity|].
        intros i. rewrite writeTransform_lookup.
        destruct (Nat.eqb_spec i j) as [->|Hne]; cbn [andb].
        -- rewrite Hw, Hd, Hf.
           destruct (decide (j = j)); [reflexivity | contradiction].
        -- destruct (decide (j = i)); [congruence | reflexivity].
      * split; [reflexivity|]. split; [reflexivity|]. intros i.
        destruct (Nat.eqb_spec i j) as [->|Hne]; cbn [andb]; [|reflexivity].
        now rewrite Hw, Hd, Hf.
    + split; [reflexivity|]. split; [reflexivity|]. intros i.
      destruct (Nat.eqb_spec i j) as [->|Hne]; cbn [andb]; [|reflexivity].
      now rewrite Hw, Hd.
  - split; [reflexivity|]. split; [reflexivity|]. intros i.
    destruct (Nat.eqb_spec i j) as [->|Hne]; cbn [andb]; [|reflexivity].
    now rewrite Hw.
Qed.

(** A mouse move that propagates along [path]: what a wired card on the
    path ends with. *)
Lemma move_fold x y this el f path : forall P,
  this ∈ Site.mousemoveListeners P -> this ∈ path ->
  document (Site.core P) !! this = Some el ->
  Site.facts P !! this = Some f ->
  document (Site.core (fold_left (Site.moveAt x y) path P)) !! this =
  Some (set_transform
          (Site.tiltTransform
             (Site.rotateXOf y (rect_top el) (Site.rect_height f))
             (Site.rotateYOf x (Site.rect_left f) (Site.rect_width f)))
          el).
Proof.
  set (t := Site.tiltTransform _ _).
  assert (G : forall path P,
             this ∈ Site.mousemoveListeners P ->
             Site.facts P !! this = Some f ->
             forall el', document (Site.core P) !! this = Some el' ->
                         rect_top el' = rect_top el ->
             exists el'',
               document (Site.core (fold_left (Site.moveAt x y) path P)) !! this =
               Some el'' /\ rect_top el'' = rect_top el /\
               (this ∈ path -> el'' = set_transform t el') /\
               (this ∉ path -> el'' = el')).
  { clear. induction path as [|j path IH]; intros P Hw Hf el' Hd Ht;
      cbn [fold_left].
    - exists el'. split; [exact Hd|]. split; [exact Ht|]. split.
      + intros H. inversion H.
      + reflexivity.
    - destruct (moveAt_fields x y P j) as (MF & MM & MD). cbv zeta in *.
      pose proof (MD this) as Md. rewrite Hd, Hf in Md.
      assert (Hex : existsb (Nat.eqb this) (Site.mousemoveListeners P) = true).
      { apply existsb_exists. exists this.
        split; [now apply list_elem_of_In | apply Nat.eqb_refl]. }
      rewrite Hex, andb_true_r, Ht in Md. fold t in Md.
      destruct (Nat.eqb_spec this j) as [->|Hne].
      + destruct (IH (Site.moveAt x y P j)) with (el' := set_transform t el')
          as (el'' & D'' & T'' & I'' & N''); try assumption.
        * now rewrite MM.
        * now rewrite MF.
        * exists el''. split; [exact D''|]. split; [exact T''|]. split.
          -- intros _. destruct (decide (j ∈ path)) as [Hin|Hout].
             ++ now rewrite (I'' Hin).
             ++ now rewrite (N'' Hout).
          -- intros Hn. exfalso. apply Hn. now left.
      + destruct (IH (Site.moveAt x y P j)) with (el' := el')
          as (el'' & D'' & T'' & I'' & N''); try assumption.
        * now rewrite MM.
        * now rewrite MF.
        * exists el''. split; [exact D''|]. split; [exact T''|]. split.
          -- intros Hin. apply elem_of_cons in Hin as [?|Hin]; [contradiction|].
             now apply I''.
          -- intros Hout. apply N''. intros Hin. apply Hout. now right. }
  intros P Hw Hp Hd Hf.
  destruct (G path P Hw Hf el Hd eq_refl) as (el'' & D'' & _ & I'' & _).
  now rewrite D'', (I'' Hp).
Qed.

(** X17.  A mouse move at the centre of a card with the tilt, where
    [clientX - rect.left] is [rect.width / 2] and [clientY - rect.top] is
    [rect.height / 2], both finite, writes the transform with both
    rotations [0deg], whatever other nodes the event reaches. *)
Theorem tilt_flat_at_centre
    (P : Site.Page) (this : nat) (el : Element) (f : Site.Facts)
    (path : list nat) (clientX clientY : number) :
  this ∈ Site.mousemoveListeners P -> this ∈ path ->
  document (Site.core P) !! this = Some el ->
  Site.facts P !! this = Some f ->
  let x := sub clientX (Site.rect_left f) in
  let y := sub clientY (rect_top el) in
  is_finite x = true -> is_finite y = true ->
  x = div (Site.rect_width f) (ofZ 2) ->
  y = div (Site.rect_height f) (ofZ 2) ->
  transformAt this (Site.step P (Site.evMouseMove path clientX clientY)) =
  Some "perspective(1000px) rotateX(0deg) rotateY(0deg) translateY(-4px)"%string.
Proof.
  intros Hw Hp Hd Hf x y Fx Fy Ex Ey. cbn [Site.step]. unfold transformAt.
  rewrite (move_fold clientX clientY this el f path P Hw Hp Hd Hf).
  cbn [fmap option_fmap option_map style_transform set_transform].
  unfold Site.rotateXOf, Site.rotateYOf. fold x y.
  rewrite <- Ex, <- Ey, (sub_self x Fx), (sub_self y Fy).
  reflexivity.
Qed.

Lemma tilt_flat_at_centre_witness :
  transformAt 0
    (Site.step SitePage.withCard
       (Site.evMouseMove [0%nat] (ofZ 150) (ofZ 600))) =
  Some "perspective(1000px) rotateX(0deg) rotateY(0deg) translateY(-4px)"%string.
Proof.
  apply (tilt_flat_at_centre SitePage.withCard 0
           (set_transform "translateY(20px)" Sample.plain)
           (Site.set_transition (Site.transitionOf 0)
              (Site.set_opacity "0" SitePage.card))
           [0%nat] (ofZ 150) (ofZ 600)).
  - vm_compute. constructor.
  - constructor.
  - vm_compute. reflexivity.
  - vm_compute. reflexivity.
  - vm_compute. reflexivity.
  - vm_compute. reflexivity.
  - vm_compute. reflexivity.
  - vm_compute. reflexivity.
Defined.

(** ** Smooth scrolling *)

Lemma anchorClick_seen_cong q this P Q :
  seenByAnchor P = seenByAnchor Q ->
  seenByAnchor (Site.anchorClick q this P) =
  seenByAnchor (Site.anchorClick q this Q).
Proof.
  unfold seenByAnchor. intros H.
  assert (HF : Site.facts P = Site.facts Q) by congruence.
  assert (HE : Site.effects P = Site.effects Q) by congruence.
  assert (HS : Site.scrollBehavior P = Site.scrollBehavior Q) by congruence.
  assert (HH : Site.pushState P = Site.pushState Q) by congruence.
  assert (HR : prefersReducedMotion (Site.core P) =
               prefersReducedMotion (Site.core Q)) by congruence.
  unfold Site.anchorClick. rewrite HF.
  destruct (Site.facts Q !! this) as [f|]; [|exact H].
  match goal with |- context [if ?c then _ else _] => destruct c end;
    [exact H|].
  destruct (q _); [|exact H|exact H].
  cbn [Site.facts Site.effects Site.scrollBehavior Site.pushState Site.core
       Site.set_effects].
  now rewrite HF, HE, HS, HH, HR.
Qed.

Lemma buttonClick_seen this P :
  seenByAnchor (Site.buttonClick this P) = seenByAnchor P.
Proof.
  unfold Site.buttonClick, seenByAnchor, Site.writeTransform.
  now destruct (document (Site.core P) !! this).
Qed.

Lemma anchor_fold q this A : forall P,
  NoDup A ->
  fold_left (Site.listen q this) (map (fun i => (i, Site.onAnchorClick)) A) P =
  if decide (this ∈ A) then Site.anchorClick q this P else P.
Proof.
  induction A as [|a A IH]; intros P Hnd; cbn [map fold_left].
  - destruct (decide (this ∈ [])) as [H|_]; [inversion H | reflexivity].
  - apply NoDup_cons in Hnd as [Ha Hnd]. rewrite (IH _ Hnd).
    unfold Site.listen. cbn [fst snd].
    destruct (Nat.eqb_spec a this) as [->|Hne].
    + destruct (decide (this ∈ A)); [contradiction|].
      destruct (decide (this ∈ this :: A)) as [_|H]; [reflexivity|].
      exfalso. apply H. now left.
    + destruct (decide (this ∈ A)) as [Hin|Hout].
      * destruct (decide (this ∈ a :: A)) as [_|H]; [reflexivity|].
        exfalso. apply H. now right.
      * destruct (decide (this ∈ a :: A)) as [H|_]; [|reflexivity].
        apply elem_of_cons in H as [?|?]; [congruence | contradiction].
Qed.

Lemma button_fold_seen q this B : forall P,
  seenByAnchor
    (fold_left (Site.listen q this) (map (fun i => (i, Site.onButtonClick)) B) P) =
  seenByAnchor P.
Proof.
  induction B as [|b B IH]; intros P; cbn [map fold_left]; [reflexivity|].
  rewrite IH. unfold Site.listen. cbn [fst snd].
  destruct (Nat.eqb b this); [apply buttonClick_seen | reflexivity].
Qed.

Lemma clickAt_seen q A B P j :
  Site.clickListeners P =
    map (fun i => (i, Site.onAnchorClick)) A ++
    map (fun i => (i, Site.onButtonClick)) B ->
  NoDup A ->
  seenByAnchor (Site.clickAt q P j) =
  seenByAnchor (if decide (j ∈ A) then Site.anchorClick q j P else P).
Proof.
  intros HL Hnd. unfold Site.clickAt. rewrite HL, fold_left_app.
  now rewrite button_fold_seen, anchor_fold.
Qed.

Lemma clickAt_listeners q P j :
  Site.clickListeners (Site.clickAt q P j) = Site.clickListeners P.
Proof. pose proof (wiring_clickAt q P j) as W. unfold wiring in W. congruence. Qed.

Lemma path_seen_none q A B path : forall P,
  Site.clickListeners P =
    map (fun i => (i, Site.onAnchorClick)) A ++
    map (fun i => (i, Site.onButtonClick)) B ->
  NoDup A ->
  (forall j, j ∈ path -> j ∉ A) ->
  seenByAnchor (fold_left (Site.clickAt q) path P) = seenByAnchor P /\
  Site.clickListeners (fold_left (Site.clickAt q) path P) =
  Site.clickListeners P.
Proof.
  induction path as [|j path IH]; intros P HL Hnd Hout; cbn [fold_left];
    [now split|].
  destruct (IH (Site.clickAt q P j)) as [IS IL].
  - now rewrite clickAt_listeners.
  - exact Hnd.
  - intros k Hk. apply Hout. now right.
  - rewrite IS, IL, clickAt_listeners. split; [|reflexivity].
    rewrite (clickAt_seen q A B P j HL Hnd).
    destruct (decide (j ∈ A)) as [Hin|_]; [|reflexivity].
    exfalso. apply (Hout j); [now left | exact Hin].
Qed.

(** A click that propagates along a path with one node [this] that may
    carry the anchor listener. *)
Lemma path_seen q A B path this P :
  Site.clickListeners P =
    map (fun i => (i, Site.onAnchorClick)) A ++
    map (fun i => (i, Site.onButtonClick)) B ->
  NoDup A -> this ∈ path ->
  (forall j, j ∈ path -> j <> this -> j ∉ A) -> NoDup path ->
  seenByAnchor (fold_left (Site.clickAt q) path P) =
  seenByAnchor (if decide (this ∈ A) then Site.anchorClick q this P else P).
Proof.
  intros HL Hnd Hin Hout Hp.
  apply list_elem_of_split in Hin as (l1 & l2 & ->).
  apply NoDup_app in Hp as (_ & H12 & H2). apply NoDup_cons in H2 as [H2 _].
  rewrite fold_left_app. cbn [fold_left].
  destruct (path_seen_none q A B l1 P HL Hnd) as [S1 L1].
  { intros j Hj. apply Hout.
    - apply elem_of_app. now left.
    - intros ->. apply (H12 this Hj). now left. }
  set (P1 := fold_left (Site.clickAt q) l1 P) in *.
  destruct (path_seen_none q A B l2 (Site.clickAt q P1 this)) as [S2 _].
  { now rewrite clickAt_listeners, L1. }
  { exact Hnd. }
  { intros j Hj. apply Hout.
    - apply elem_of_app. right. now right.
    - intros ->. contradiction. }
  rewrite S2, (clickAt_seen q A B P1 this) by (try exact Hnd; now rewrite L1).
  destruct (decide (this ∈ A)); [|exact S1].
  now apply anchorClick_seen_cong.
Qed.

Lemma site_captured reduced y h w smooth history observer nodes evs :
  let P := Site.run evs
             (Site.script
                (Site.fresh reduced false y h w smooth history observer nodes)) in
  prefersReducedMotion (Site.core P) = reduced /\
  registered (Site.core P) /\ readyStateLoading (Site.core P) = false.
Proof.
  cbv zeta.
  destruct (script_started reduced y h w smooth history observer nodes)
    as [R Hl]. cbv zeta in R, Hl.
  assert (H0 : prefersReducedMotion
                 (Site.core
                    (Site.script
                       (Site.fresh reduced false y h w smooth history observer
                          nodes))) = reduced).
  { destruct (follows_site_script reduced false y h w smooth history observer
                nodes) as [es E].
    rewrite E, (proj1 (captured_run es _)). apply captured_script. }
  revert R Hl H0. generalize (Site.script
    (Site.fresh reduced false y h w smooth history observer nodes)).
  unfold Site.run. induction evs as [|ev evs IH]; intros P R Hl H0;
    cbn [fold_left]; [split; [exact H0 | split; [exact R | exact Hl]]|].
  destruct (started_step P ev R Hl) as [R' Hl'].
  apply IH; try assumption.
  destruct (follows_site_step P ev R) as [es ->].
  now rewrite (proj1 (captured_run es _)).
Qed.

(** X18.  What a click on a link does, at any time after the script ran
    in a ready document, when [this] is the one node on the path of the
    click that can carry the anchor listener.  Nothing is asked of the
    host when [this] was no [a[href^="#"]] as the script ran (whatever its
    [href] is now), when its [href] now is [#] or [#!], or when
    [document.querySelector] finds no node or rejects the selector: the
    default action of the click is not prevented.  Otherwise the listener
    calls [preventDefault], scrolls the target into view (smoothly exactly
    when the host has [scrollBehavior] and reduced motion was not
    preferred as the script ran), pushes the [href] on the history when
    [history.pushState] is there, and focuses the target, in this order. *)
Theorem anchor_click_outcome
    (reduced : bool) (y : number) (h w : Z) (smooth history observer : bool)
    (nodes : list (Element * Site.Facts)) (evs : list Site.Event)
    (this : nat) (f : Site.Facts) (path : list nat)
    (querySelector : string -> Site.Query) :
  let A := Site.select_from Site.isAnchorLink 0 (map snd nodes) in
  let P := Site.run evs
             (Site.script
                (Site.fresh reduced false y h w smooth history observer nodes)) in
  NoDup path -> this ∈ path ->
  (forall j, j ∈ path -> j <> this -> j ∉ A) ->
  Site.facts P !! this = Some f ->
  let P' := Site.step P (Site.evClick path querySelector) in
  let targetId := Site.href f in
  let skipped := targetId = Some "#"%string \/ targetId = Some "#!"%string in
  (this ∉ A -> Site.effects P' = Site.effects P) /\
  (skipped -> Site.effects P' = Site.effects P) /\
  (querySelector (Site.selectorOf targetId) = Site.missing \/
   querySelector (Site.selectorOf targetId) = Site.syntaxError ->
   Site.effects P' = Site.effects P) /\
  (forall target,
     this ∈ A -> ~ skipped ->
     querySelector (Site.selectorOf targetId) = Site.found target ->
     Site.effects P' =
     Site.Focus target ::
     (if history then [Site.PushState targetId] else []) ++
     [Site.ScrollIntoView target (smooth && negb reduced); Site.PreventDefault] ++
     Site.effects P).
Proof.
  intros A P Hnd Hin Hout Hf P' targetId skipped.
  destruct (script_features reduced y h w smooth history observer nodes)
    as (HL & _ & _ & _ & _ & Hrun).
  cbv zeta in HL, Hrun. destruct (Hrun evs) as [HW _].
  destruct (site_captured reduced y h w smooth history observer nodes evs)
    as (HR & _ & _). cbv zeta in HR. fold P in HW, HR.
  assert (L : Site.clickListeners P =
              map (fun i => (i, Site.onAnchorClick)) A ++
              map (fun i => (i, Site.onButtonClick))
                (Site.select_from Site.isButton 0 (map snd nodes))).
  { unfold wiring in HW. unfold A. rewrite <- HL. congruence. }
  assert (HS : Site.scrollBehavior P = smooth).
  { unfold wiring in HW.
    transitivity (Site.scrollBehavior
                    (Site.script
                       (Site.fresh reduced false y h w smooth history observer
                          nodes))); [congruence|].
    rewrite script_ready.
    pose proof (init_wiring
                  (Site.set_core
                     (set_prefersReducedMotion reduced
                        (set_matchMediaCalls 1
                           (fresh reduced false y h (map fst nodes))))
                     (Site.fresh reduced false y h w smooth history observer
                        nodes))) as W.
    cbv zeta in W. unfold wiring in W.
    exact (f_equal (fun t => fst (fst (snd t))) W). }
  assert (HH : Site.pushState P = history).
  { unfold wiring in HW.
    transitivity (Site.pushState
                    (Site.script
                       (Site.fresh reduced false y h w smooth history observer
                          nodes))); [congruence|].
    rewrite script_ready.
    pose proof (init_wiring
                  (Site.set_core
                     (set_prefersReducedMotion reduced
                        (set_matchMediaCalls 1
                           (fresh reduced false y h (map fst nodes))))
                     (Site.fresh reduced false y h w smooth history observer
                        nodes))) as W.
    cbv zeta in W. unfold wiring in W.
    exact (f_equal (fun t => snd (fst (snd t))) W). }
  pose proof (path_seen querySelector A _ path this P L
                (select_from_NoDup _ _ _) Hin Hout Hnd) as S.
  assert (E : Site.effects P' =
              Site.effects (if decide (this ∈ A)
                            then Site.anchorClick querySelector this P else P)).
  { unfold seenByAnchor in S. unfold P'. cbn [Site.step]. congruence. }
  clear S. rewrite E. unfold Site.anchorClick. rewrite Hf. fold targetId.
  rewrite HS, HH, HR.
  split; [|split; [|split]].
  - intros Hn. now destruct (decide (this ∈ A)).
  - intros Hs. destruct (decide (this ∈ A)); [|reflexivity].
    destruct Hs as [-> | ->]; reflexivity.
  - intros Hq. destruct (decide (this ∈ A)); [|reflexivity].
    match goal with |- context [if ?c then _ else _] => destruct c end;
      [reflexivity|].
    destruct Hq as [-> | ->]; reflexivity.
  - intros target HA Hs Hq. destruct (decide (this ∈ A)); [|contradiction].
    assert (C : match targetId with
                | Some s => String.eqb s "#" || String.eqb s "#!"
                | None => false
                end = false).
    { destruct targetId as [s|]; [|reflexivity].
      apply orb_false_iff. split; apply String.eqb_neq; intros ->;
        apply Hs; [now left | now right]. }
    rewrite C, Hq. cbn [Site.effects Site.set_effects].
    now destruct history.
Qed.

Lemma anchor_click_outcome_witness :
  let nodes := [(Sample.plain, SitePage.link); (Sample.plain, SitePage.section)] in
  let A := Site.select_from Site.isAnchorLink 0 (map snd nodes) in
  let P := Site.run []
             (Site.script
                (Site.fresh false false (ofZ 0) 800 1024 true true true nodes)) in
  let P' := Site.step P (Site.evClick [0%nat] SitePage.byId) in
  let targetId := Site.href SitePage.link in
  let skipped := targetId = Some "#"%string \/ targetId = Some "#!"%string in
  (0%nat ∉ A -> Site.effects P' = Site.effects P) /\
  (skipped -> Site.effects P' = Site.effects P) /\
  (SitePage.byId (Site.selectorOf targetId) = Site.missing \/
   SitePage.byId (Site.selectorOf targetId) = Site.syntaxError ->
   Site.effects P' = Site.effects P) /\
  (forall target,
     0%nat ∈ A -> ~ skipped ->
     SitePage.byId (Site.selectorOf targetId) = Site.found target ->
     Site.effects P' =
     Site.Focus target ::
     (if true then [Site.PushState targetId] else []) ++
     [Site.ScrollIntoView target (true && negb false); Site.PreventDefault] ++
     Site.effects P).
Proof.
  apply (anchor_click_outcome false (ofZ 0) 800 1024 true true true
           [(Sample.plain, SitePage.link); (Sample.plain, SitePage.section)]
           [] 0 SitePage.link [0%nat] SitePage.byId).
  - apply NoDup_singleton.
  - constructor.
  - intros j Hj Hne. apply list_elem_of_singleton in Hj. contradiction.
  - vm_compute. reflexivity.
Defined.

(** ** Staggered transitions *)

Lemma hide_all_transition A : forall k P,
  NoDup A ->
  let P' := fold_left Site.hide (Site.enumerate_from k A) P in
  (forall j, j ∉ A ->
     Site.style_transition <$> Site.facts P' !! j =
     Site.style_transition <$> Site.facts P !! j) /\
  (forall n j, A !! n = Some j ->
     Site.style_transition <$> Site.facts P' !! j =
     (fun _ => Site.transitionOf (k + n)) <$> Site.facts P !! j).
Proof.
  induction A as [|a A IH]; intros k P Hnd;
    cbn [Site.enumerate_from fold_left].
  - split; [reflexivity|]. intros n j H. discriminate.
  - apply NoDup_cons in Hnd as [Ha Hnd].
    destruct (hide_fields P (k, a)) as (_ & _ & _ & _ & _ & HF).
    cbn [fst snd] in HF.
    destruct (IH (S k) (Site.hide P (k, a)) Hnd) as (IA & IB). cbv zeta in *.
    split.
    + intros j Hj. apply not_elem_of_cons in Hj as [Hne Hj].
      rewrite (IA j Hj), HF. destruct (decide (a = j)); [congruence|reflexivity].
    + intros [|n] j Hn; cbn in Hn.
      * inversion Hn; subst j. rewrite (IA a Ha), HF, Nat.add_0_r.
        destruct (decide (a = a)); [|contradiction].
        now destruct (Site.facts P !! a).
      * rewrite (IB n j Hn), HF.
        destruct (decide (a = j)) as [->|_].
        -- exfalso. apply Ha. apply list_elem_of_lookup. eauto.
        -- now rewrite Nat.add_succ_r.
Qed.

Lemma init_transition P :
  let A := if prefersReducedMotion (Site.core P) ||
              negb (Site.intersectionObserver P)
           then [] else Site.querySelectorAll Site.isAnimated P in
  (forall j, j ∉ A ->
     Site.style_transition <$> Site.facts (Site.init P) !! j =
     Site.style_transition <$> Site.facts P !! j) /\
  (forall n j, A !! n = Some j ->
     Site.style_transition <$> Site.facts (Site.init P) !! j =
     (fun _ => Site.transitionOf n) <$> Site.facts P !! j).
Proof.
  cbv zeta. unfold Site.init.
  set (P4 := Site.initCardTilt _).
  assert (H4 : Site.facts P4 = Site.facts P /\
               Site.intersectionObserver P4 = Site.intersectionObserver P /\
               prefersReducedMotion (Site.core P4) =
               prefersReducedMotion (Site.core P)).
  { unfold P4, Site.initCardTilt.
    match goal with |- context [if ?c then _ else _] => destruct c end;
      cbn; repeat split; auto using initParallax_captured. }
  destruct H4 as (F4 & IO4 & C4).
  unfold Site.initScrollAnimations. rewrite C4, IO4.
  destruct (prefersReducedMotion (Site.core P) ||
            negb (Site.intersectionObserver P)) eqn:G.
  { assert (E : (if prefersReducedMotion (Site.core P) then P4
                 else if negb (Site.intersectionObserver P) then P4
                      else fold_left Site.hide
                             (Site.enumerate_from 0
                                (Site.querySelectorAll Site.isAnimated P4)) P4)
                = P4).
    { destruct (prefersReducedMotion (Site.core P)); [reflexivity|].
      cbn [orb] in G. now rewrite G. }
    rewrite E, F4. split; [reflexivity|]. intros n j H. discriminate. }
  apply orb_false_iff in G as [G1 G2]. rewrite G1, G2.
  assert (EA : Site.querySelectorAll Site.isAnimated P4 =
               Site.querySelectorAll Site.isAnimated P)
    by (unfold Site.querySelectorAll; now rewrite F4).
  destruct (hide_all_transition (Site.querySelectorAll Site.isAnimated P4) 0 P4)
    as (HA & HB).
  { apply select_from_NoDup. }
  cbv zeta in *. rewrite EA, F4 in *. split; [exact HA|].
  intros n j Hn. now rewrite (HB n j Hn).
Qed.

Lemma transition_step P ev j :
  registered (Site.core P) -> readyStateLoading (Site.core P) = false ->
  Site.style_transition <$> Site.facts (Site.step P ev) !! j =
  Site.style_transition <$> Site.facts P !! j.
Proof.
  intros R Hl.
  pose proof (shown_step P ev R (fun _ => Hl)) as Hsh.
  assert (Hsame : shown (Site.step P ev) = shown P ->
            Site.style_transition <$> Site.facts (Site.step P ev) !! j =
            Site.style_transition <$> Site.facts P !! j).
  { unfold shown. intros E. injection E as EF EO. now rewrite EF. }
  assert (Henv : forall i g,
            (forall f, Site.style_transition (g f) = Site.style_transition f) ->
            Site.style_transition <$> Site.facts (Site.writeFacts i g P) !! j =
            Site.style_transition <$> Site.facts P !! j).
  { intros i g G. rewrite writeFacts_lookup.
    destruct (decide (i = j)); [|reflexivity].
    destruct (Site.facts P !! j); cbn; [|reflexivity]. now rewrite G. }
  destruct ev as [ev|path q|path x y|i|entries|w|i h cs|i x w h];
    try (apply Hsame; exact Hsh).
  - cbn [Site.step]. unfold Site.observerCallback.
    generalize (List.filter
                  (fun e => existsb (Nat.eqb (fst e)) (Site.observed P)) entries).
    intros es. clear. revert P.
    induction es as [|[t b] es IH]; intros P; cbn [fold_left]; [reflexivity|].
    rewrite IH. destruct b; [|reflexivity].
    rewrite (proj2 (reveal_fields P t)).
    destruct (decide (t = j)); [|reflexivity].
    now destruct (Site.facts P !! j).
  - now apply Henv.
  - now apply Henv.
Qed.

(** X19.  With the fade-in on, the element at index [k] among the
    animated elements found at initialisation has, at every later time,
    the transition whose two delays are the number [k * 0.1] as text; the
    transition of any other node is what the page came with.  The delays
    are binary64 products: at index 3 the text is
    [0.30000000000000004s]. *)
Theorem stagger_follows_index
    (y : number) (h w : Z) (smooth history : bool)
    (nodes : list (Element * Site.Facts)) (evs : list Site.Event) (i : nat) :
  let A := Site.select_from Site.isAnimated 0 (map snd nodes) in
  let P := Site.run evs
             (Site.script
                (Site.fresh false false y h w smooth history true nodes)) in
  (forall k, A !! k = Some i ->
     Site.style_transition <$> Site.facts P !! i = Some (Site.transitionOf k)) /\
  (i ∉ A ->
     Site.style_transition <$> Site.facts P !! i =
     (fun n => Site.style_transition (snd n)) <$> nodes !! i) /\
  Site.transitionOf 3 =
  "opacity 0.6s ease 0.30000000000000004s, transform 0.6s ease 0.30000000000000004s"%string.
Proof.
  cbv zeta.
  destruct (script_started false y h w smooth history true nodes) as [R Hl].
  cbv zeta in R, Hl.
  assert (Hrun : Site.style_transition <$>
                   Site.facts
                     (Site.run evs
                        (Site.script
                           (Site.fresh false false y h w smooth history true
                              nodes))) !! i =
                 Site.style_transition <$>
                   Site.facts
                     (Site.script
                        (Site.fresh false false y h w smooth history true
                           nodes)) !! i).
  { revert R Hl.
    generalize (Site.script
                  (Site.fresh false false y h w smooth history true nodes)).
    unfold Site.run. induction evs as [|ev evs IH]; intros P R Hl;
      cbn [fold_left]; [reflexivity|].
    destruct (started_step P ev R Hl) as [R' Hl'].
    rewrite (IH _ R' Hl'). now apply transition_step. }
  rewrite Hrun, script_ready.
  set (Q := Site.set_core _ _).
  destruct (init_transition Q) as (HA & HB). cbv zeta in HA, HB.
  change (prefersReducedMotion (Site.core Q)) with false in *.
  change (Site.intersectionObserver Q) with true in *. cbn [orb negb] in HA, HB.
  change (Site.querySelectorAll Site.isAnimated Q)
    with (Site.select_from Site.isAnimated 0 (map snd nodes)) in *.
  split; [|split].
  - intros k Hk. rewrite (HB k i Hk).
    assert (Hin : i ∈ Site.select_from Site.isAnimated 0 (map snd nodes))
      by (apply list_elem_of_lookup; eauto).
    apply select_from_spec in Hin as (_ & f & Hf & _).
    rewrite Nat.sub_0_r in Hf.
    change (Site.facts Q) with (map snd nodes). now rewrite Hf.
  - intros Hi. rewrite (HA i Hi). change (Site.facts Q) with (map snd nodes).
    change (map snd nodes) with (snd <$> nodes).
    rewrite list_lookup_fmap. now destruct (nodes !! i).
  - vm_compute. reflexivity.
Qed.

(** ** The whole script and the parallax component *)

(** X20.  The other features leave the parallax component alone, apart
    from writing [style.transform].  The state of the component after the
    script ran is one that the component on its own reaches with the rest
    of the world writing styles; each event of the whole page takes the
    component from its state to one that it reaches on its own; so in
    every reachable page the component is in a state it reaches on its
    own, where all that holds of reachable states of the component
    holds. *)
Theorem site_refines_parallax :
  (forall reduced loading y h w smooth history observer nodes,
      follows (script (fresh reduced loading y h (map fst nodes)))
        (Site.core
           (Site.script
              (Site.fresh reduced loading y h w smooth history observer nodes)))) /\
  (forall P ev,
      Site.reachable P -> follows (Site.core P) (Site.core (Site.step P ev))) /\
  (forall P, Site.reachable P -> reachable (Site.core P)).
Proof.
  split; [|split].
  - intros. apply follows_site_script.
  - intros P ev H. now apply follows_site_step, site_reachable_registered.
  - exact site_reachable_core.
Qed.
